(** * rag-microservice: retrieval, ranking and answer-contract checks

    A shallow embedding of [server/vectorStore.js] (cosine scoring and
    [topK]) and of the [/ask] handler of [server/index.js] (input
    validation, exact-mention boost, threshold filter with fallback,
    document-frequency re-rank, validation of the generated answer), and
    of the two versions of the indexer [scripts/index.js] (chunking, file
    filter, text extraction, batched embedding, the records written),
    followed by the properties proved about them.

    Conventions of the embedding.
    - A JavaScript number is an IEEE 754 binary64 value: Rocq's primitive
      [float], whose operations round as the JavaScript ones do.  Decimal
      literals denote the nearest binary64 value, as in JavaScript.
    - A JavaScript string is a [string]; each [ascii] stands for one UTF-16
      code unit in the range 0..255.  That range is closed under the
      operations the program applies ([trim], [toLowerCase], [length],
      [split], [replace], [join], the file-name patterns, [===]).
    - An array is a [list].  A plain object used as a dictionary is the
      [gmap] of its own properties, read through [Object.prototype]
      (module [JsObject]): a key such as [constructor] or [__proto__]
      reads an inherited value, not [undefined].
    - [Array.prototype.sort] is a stable sort; [Math.sqrt] is the correctly
      rounded square root.
    - What the host and the outside world provide is a parameter of the
      handler: [JSON.parse], the conversion of a number to a string, the
      two provider calls, the clock; and of the indexers: the entries of
      [docs/] and their content, the PDF and Word parsers, the embeddings
      provider, the writing of [vectors.json].
    - Objects that are mutated after being shared are modelled once more on
      an explicit heap (module [Heap]), and the list-based functions are
      shown to compute what the heap-based ones do. *)

From Stdlib Require Import ZArith Floats List String Ascii DecimalString Lia.
From Stdlib Require Import DecimalNat DecimalFacts.
From Stdlib Require Import Permutation Sorted.
From stdpp Require Import gmap strings.

Set Warnings "-inexact-float,-register-all".

Import ListNotations.

(* ================================================================== *)
(** * Part I: the embedding *)
(* ================================================================== *)

(** ** JavaScript numbers *)

Module JsNumber.

Definition number := float.

(** [a >= b] on numbers: false as soon as one side is [NaN]. *)
Definition geb (a b : number) : bool := (b <=? a)%float.

(** Truthiness of a number: [0], [-0] and [NaN] are falsy. *)
Definition falsy (x : number) : bool := is_nan x || (x =? 0)%float.

(** Order-preserving integer code of a float, used to transport
    comparisons of non-NaN floats to [Z].  Finite values are ordered by
    exponent, then mantissa; both zeros get code 0. *)
Definition SFrank (x : spec_float) : Z :=
  match x with
  | S754_nan => 0
  | S754_zero _ => 0
  | S754_infinity s => cond_Zopp s (2 ^ prec * (emax - emin + 2))
  | S754_finite s m e => cond_Zopp s ((e - emin) * 2 ^ prec + Zpos m)
  end.

Definition rank (x : number) : Z := SFrank (Prim2SF x).

(** [signed s x]: [x] is a non-zero finite or infinite value of sign [s]. *)
Definition signed (s : bool) (x : spec_float) : Prop :=
  match x with
  | S754_infinity s' | S754_finite s' _ _ => s' = s
  | _ => False
  end.

(** The code of a positive finite value with mantissa [m] and exponent [e]. *)
Definition magnitude (m : positive) (e : Z) : Z := ((e - emin) * 2 ^ prec + Zpos m)%Z.

(** [zero_or_nan x]: [x] is [+0], [-0] or [NaN]. *)
Definition zero_or_nan (x : number) : Prop :=
  match Prim2SF x with
  | S754_zero _ | S754_nan => True
  | _ => False
  end.

(** [is_zero_number x]: [x] is [+0] or [-0]. *)
Definition is_zero_number (x : number) : Prop :=
  match Prim2SF x with
  | S754_zero _ => True
  | _ => False
  end.

(** [nonnegative x]: [x] is a zero, a positive finite value or [+Infinity]. *)
Definition nonnegative (x : spec_float) : Prop :=
  match x with
  | S754_zero _ | S754_infinity false | S754_finite false _ _ => True
  | _ => False
  end.

(** [x] is neither [NaN] nor an infinity ([Number.isFinite]). *)
Definition isFinite (x : number) : bool :=
  match Prim2SF x with
  | S754_zero _ | S754_finite _ _ _ => true
  | _ => false
  end.

End JsNumber.

(** ** JavaScript strings *)

Module JsString.

Local Open Scope N_scope.

Definition code (c : ascii) : N := N_of_ascii c.

(** White space and line terminators recognised by [String.prototype.trim]
    among the code units 0..255: TAB, LF, VT, FF, CR, SPACE, NBSP. *)
Definition is_white_space (c : ascii) : bool :=
  let n := code c in
  ((9 <=? n) && (n <=? 13)) || (n =? 32) || (n =? 160).

Fixpoint trimStart_list (s : list ascii) : list ascii :=
  match s with
  | c :: s' => if is_white_space c then trimStart_list s' else s
  | [] => []
  end.

Definition trim_list (s : list ascii) : list ascii :=
  rev (trimStart_list (rev (trimStart_list s))).

(** [s.trim()] *)
Definition trim (s : string) : string :=
  string_of_list_ascii (trim_list (list_ascii_of_string s)).

(** Lower-casing of one code unit: [A-Z] and the Latin-1 capitals
    U+00C0..U+00DE (without the multiplication sign U+00D7) move up by 32. *)
Definition toLowerCase_unit (c : ascii) : ascii :=
  let n := code c in
  if ((65 <=? n) && (n <=? 90)) || ((192 <=? n) && (n <=? 222) && negb (n =? 215))
  then ascii_of_N (n + 32) else c.

Definition toLowerCase_list (s : list ascii) : list ascii := map toLowerCase_unit s.

(** [s.toLowerCase()] *)
Definition toLowerCase (s : string) : string :=
  string_of_list_ascii (toLowerCase_list (list_ascii_of_string s)).

(** [s.length] *)
Definition length (s : string) : nat := String.length s.

(** [n] copies of the code unit [c] ([c.repeat(n)]). *)
Definition repeat (c : ascii) (n : nat) : string :=
  string_of_list_ascii (List.repeat c n).

End JsString.

(** ** Arrays: [sort] with a comparison function, [slice] *)

Module JsArray.

Section Sort.

Context {A : Type}.
Variable comparefn : A -> A -> float.

(** [insert x sorted] puts [x] in front of the first element that must
    come after it ([comparefn x y < 0]) and behind every element before
    that one; a [NaN] comparison counts as [+0], as in the language. *)
Fixpoint insert (x : A) (sorted : list A) : list A :=
  match sorted with
  | [] => [x]
  | y :: rest =>
      if (comparefn x y <? 0)%float then x :: y :: rest else y :: insert x rest
  end.

(** [arr.sort(comparefn)].  The language requires a stable sort and reads
    a NaN result of [comparefn] as [+0]; when the comparison so read
    orders the elements consistently, the result is determined, and it is
    computed here by inserting the elements one after the other.  For
    keys that include NaN the comparison [b - a] is not consistent and
    the language leaves the order to the engine: statements about the
    order are therefore made for NaN-free keys only. *)
Definition sort (l : list A) : list A :=
  fold_left (fun acc x => insert x acc) l [].

End Sort.

(** [comparefn] orders the elements of [l] as the integer [key] does,
    larger keys first. *)
Definition orders_by {A : Type} (comparefn : A -> A -> float) (key : A -> Z)
  (l : list A) : Prop :=
  forall x y, In x l -> In y l -> (comparefn x y <? 0)%float = (key y <? key x)%Z.

(** Keys never increase along [l]. *)
Definition descending {A : Type} (key : A -> Z) (l : list A) : Prop :=
  StronglySorted (fun a b => (key b <= key a)%Z) l.

(** The elements of [l] whose key is [z], in order. *)
Definition with_key {A : Type} (key : A -> Z) (z : Z) (l : list A) : list A :=
  List.filter (fun a => (key a =? z)%Z) l.

(** [arr.slice(0, k)] for an integral [k]: a negative [k] counts from the
    end.  ([NaN] is read as [0] by [slice].) *)
Definition slice_to {A : Type} (l : list A) (k : Z) : list A :=
  let len := Z.of_nat (List.length l) in
  let final := if (k <? 0)%Z then Z.max (len + k) 0 else Z.min k len in
  firstn (Z.to_nat final) l.

End JsArray.

(** ** server/vectorStore.js *)

(** A record of [vectors.json]. *)
Module Chunk.
Record chunk := mk {
  id : string;
  doc : string;
  chunkIndex : float;
  text : string;
  embedding : list float
}.
End Chunk.

(** A record returned by [topK]. *)
Module Candidate.
Record candidate := mk {
  score : float;
  id : string;
  doc : string;
  chunkIndex : float;
  text : string
}.

Definition set_score (c : candidate) (s : float) : candidate :=
  mk s (id c) (doc c) (chunkIndex c) (text c).
End Candidate.

Module VectorStore.

Import Chunk.
Local Open Scope float_scope.

(** [for(let i=0;i<a.length;i++) s += a[i]*b[i]]: the loop runs over the
    indices of [a]; past the end of [b], [b[i]] is [undefined] and the
    product is [NaN]. *)
Fixpoint dot_loop (s : float) (a b : list float) : float :=
  match a with
  | [] => s
  | x :: a' =>
      match b with
      | y :: b' => dot_loop (s + x * y) a' b'
      | [] => dot_loop (s + x * nan) a' []
      end
  end.

Definition dot (a b : list float) : float := dot_loop 0 a b.

Definition norm (a : list float) : float := sqrt (dot a a).

Definition cosine (a b : list float) : float := dot a b / (norm a * norm b).

(** [vectors.map(v => ({score: cosine(queryEmb, v.embedding), v}))] *)
Definition scored (vectors : list chunk) (queryEmb : list float) : list (float * chunk) :=
  map (fun v => (cosine queryEmb (embedding v), v)) vectors.

(** [(a,b) => b.score - a.score] *)
Definition by_score_desc (a b : float * chunk) : float := fst b - fst a.

(** The integer code of the score of a scored record. *)
Definition score_key (s : float * chunk) : Z := JsNumber.rank (fst s).

Definition to_candidate (s : float * chunk) : Candidate.candidate :=
  Candidate.mk (fst s) (id (snd s)) (doc (snd s)) (chunkIndex (snd s)) (text (snd s)).

(** [topK(queryEmb, k)] over the loaded collection [vectors]. *)
Definition topK (vectors : list chunk) (queryEmb : list float) (k : Z)
  : list Candidate.candidate :=
  map to_candidate
    (JsArray.slice_to (JsArray.sort by_score_desc (scored vectors queryEmb)) k).

End VectorStore.

(** ** Plain objects used as dictionaries *)

Module JsObject.

Local Open Scope float_scope.

(** The properties that an object literal [{}] inherits from
    [Object.prototype]: those of the language and the accessors of its
    Annex B.  All are methods, except [__proto__], an accessor whose
    getter returns [Object.prototype] itself. *)
Definition Object_prototype_names : list string :=
  ["constructor"; "hasOwnProperty"; "isPrototypeOf"; "propertyIsEnumerable";
   "toLocaleString"; "toString"; "valueOf"; "__proto__";
   "__defineGetter__"; "__defineSetter__"; "__lookupGetter__"; "__lookupSetter__"]%string.

Definition inherited (key : string) : bool :=
  existsb (String.eqb key) Object_prototype_names.

(** What the dictionary holds under its own keys: a number, or the
    string [Text key ones] that [+ 1] makes of the value inherited under
    [key], which is the text of that value (for a method
    [function name() { [native code] }], for the prototype
    [[object Object]]) followed by [ones] characters [1]. *)
Inductive primitive :=
| Number (n : float)
| Text (key : string) (ones : nat).

(** What a read [o[key]] gives. *)
Inductive value :=
| Undefined
| Prim (p : primitive)
| Inherited (key : string).

Abbreviation object := (gmap string primitive).

(** [o[key]]: the own property, else the inherited one, else [undefined]. *)
Definition get (o : object) (key : string) : value :=
  match o !! key with
  | Some p => Prim p
  | None => if inherited key then Inherited key else Undefined
  end.

(** [o[key] = p] for a number or a string [p]: a new or updated own
    property; for the key [__proto__] the inherited setter runs instead,
    and it ignores a value that is neither an object nor [null]. *)
Definition set (o : object) (key : string) (p : primitive) : object :=
  if (key =? "__proto__")%string then o else <[key := p]> o.

(** [v || 0]: functions and objects are truthy, and so is a string that
    is not empty. *)
Definition or_zero (v : value) : value :=
  match v with
  | Undefined => Prim (Number 0)
  | Prim (Number n) => if JsNumber.falsy n then Prim (Number 0) else v
  | Prim (Text _ _) | Inherited _ => v
  end.

(** [v + 1]: addition on numbers; a function or an object is first
    converted to its text, and a string operand makes [+] a
    concatenation. *)
Definition plus_one (v : value) : primitive :=
  match v with
  | Undefined => Number nan
  | Prim (Number n) => Number (n + 1)
  | Prim (Text key ones) => Text key (S ones)
  | Inherited key => Text key 1
  end.

(** The number that arithmetic makes of [v]: the texts above are not
    numeric literals, so they, and the values they are the text of,
    convert to [NaN], as [undefined] does. *)
Definition to_number (v : value) : float :=
  match v with
  | Prim (Number n) => n
  | Undefined | Prim (Text _ _) | Inherited _ => nan
  end.

End JsObject.

(** ** server/index.js: the ranking pass of the [/ask] handler *)

(** [{ ...c, reRankScore }] *)
Module Ranked.
Record ranked := mk {
  base : Candidate.candidate;
  reRankScore : float
}.
End Ranked.

Module Ranker.

Import Candidate.
Local Open Scope float_scope.

(** *** The file-name pattern [/([a-zA-Z0-9_\-]+\.(txt|md|pdf))/i] *)

Definition name_unit (c : ascii) : bool :=
  let n := JsString.code c in
  (((48 <=? n) && (n <=? 57)) || ((65 <=? n) && (n <=? 90)) ||
   ((97 <=? n) && (n <=? 122)) || (n =? 95) || (n =? 45))%N.

(** The longest prefix of name units, and what follows it. *)
Fixpoint span_name (s : list ascii) : list ascii * list ascii :=
  match s with
  | c :: s' =>
      if name_unit c
      then let '(n, r) := span_name s' in (c :: n, r)
      else ([], s)
  | [] => ([], [])
  end.

Definition starts_with_ci (p s : list ascii) : bool :=
  (List.length p <=? List.length s)%nat &&
  forallb (fun '(a, b) => Ascii.eqb a (JsString.toLowerCase_unit b)) (combine p s).

(** [(txt|md|pdf)] at the head of [s], alternatives tried in that order. *)
Definition extension_at (s : list ascii) : option (list ascii) :=
  if starts_with_ci (list_ascii_of_string "txt") s then Some (firstn 3 s)
  else if starts_with_ci (list_ascii_of_string "md") s then Some (firstn 2 s)
  else if starts_with_ci (list_ascii_of_string "pdf") s then Some (firstn 3 s)
  else None.

(** A match of the pattern that starts at the head of [s].  The greedy
    [+] takes the longest run of name units; no shorter run can be
    followed by a dot, so backtracking never finds another match. *)
Definition match_at (s : list ascii) : option (list ascii) :=
  match span_name s with
  | ((_ :: _) as name, "."%char :: rest) =>
      match extension_at rest with
      | Some ext => Some (name ++ "."%char :: ext)
      | None => None
      end
  | _ => None
  end.

(** The leftmost match, as [String.prototype.match] returns it. *)
Fixpoint first_match (s : list ascii) : option (list ascii) :=
  match match_at s with
  | Some m => Some m
  | None =>
      match s with
      | _ :: s' => first_match s'
      | [] => None
      end
  end.

(** [q.match(...)], reduced to its capture group 1 (the whole match). *)
Definition fileMentionMatch (q : string) : option string :=
  option_map string_of_list_ascii (first_match (list_ascii_of_string q)).

(** *** Exact-mention boost (lines 36-44) *)

(** [rc.doc && rc.doc.toLowerCase() === filename] *)
Definition mentioned (filename : string) (rc : candidate) : bool :=
  negb (doc rc =? "")%string && (JsString.toLowerCase (doc rc) =? filename)%string.

Definition exactMentionBoost : float := 0.6.

Definition boost_one (filename : string) (rc : candidate) : candidate :=
  if mentioned filename rc then set_score rc (score rc + exactMentionBoost) else rc.

(** The candidates as they stand after the boosting loop. *)
Definition boost (q : string) (rawContexts : list candidate) : list candidate :=
  match fileMentionMatch q with
  | Some m => map (boost_one (JsString.toLowerCase m)) rawContexts
  | None => rawContexts
  end.

(** *** Threshold filter with fallback (lines 47-53) *)

Definition passes (SCORE_THRESHOLD : float) (c : candidate) : bool :=
  JsNumber.geb (score c) SCORE_THRESHOLD.

Definition fallbackCount : nat := 3.

Definition survivors (SCORE_THRESHOLD : float) (rawContexts : list candidate)
  : list candidate :=
  let candidates := List.filter (passes SCORE_THRESHOLD) rawContexts in
  if (List.length candidates =? 0)%nat
  then firstn (Nat.min fallbackCount (List.length rawContexts)) rawContexts
  else candidates.

(** *** Document-frequency re-rank (lines 55-60) *)

(** [docCounts[c.doc] = (docCounts[c.doc] || 0) + 1] on the object
    literal [docCounts = {}] of line 56.  For a [doc] that names an
    inherited property the first read is not [undefined]: the count
    becomes a string (or, for [__proto__], nothing is stored). *)
Definition count_doc (docCounts : JsObject.object) (c : candidate) : JsObject.object :=
  JsObject.set docCounts (doc c)
    (JsObject.plus_one (JsObject.or_zero (JsObject.get docCounts (doc c)))).

(** [const docCounts = {}; for (const c of candidates) ...] *)
Definition docCounts_of (candidates : list candidate) : JsObject.object :=
  fold_left count_doc candidates ∅.

(** [docCounts[d]] as the operand of [- 1]. *)
Definition read_number (docCounts : JsObject.object) (d : string) : float :=
  JsObject.to_number (JsObject.get docCounts d).

Definition docFrequencyBoostUnit : float := 0.02.

Definition with_reRankScore (docCounts : JsObject.object) (c : candidate) : Ranked.ranked :=
  Ranked.mk c (score c + docFrequencyBoostUnit * (read_number docCounts (doc c) - 1)).

(** [(a, b) => b.reRankScore - a.reRankScore] *)
Definition by_reRankScore_desc (a b : Ranked.ranked) : float :=
  Ranked.reRankScore b - Ranked.reRankScore a.

Definition reRank (candidates : list candidate) : list Ranked.ranked :=
  JsArray.sort by_reRankScore_desc
    (map (with_reRankScore (docCounts_of candidates)) candidates).

(** *** The whole ranking pass (lines 36-60) *)

Definition rank (q : string) (SCORE_THRESHOLD : float) (rawContexts : list candidate)
  : list Ranked.ranked :=
  reRank (survivors SCORE_THRESHOLD (boost q rawContexts)).

(** The JavaScript number reached by counting [n] times from [0]. *)
Definition count_number (n : nat) : float := Nat.iter n (fun c => c + 1) 0.

(** How many of [candidates] have [d] as their [doc]. *)
Definition sharing_doc (d : string) (candidates : list candidate) : nat :=
  List.length (List.filter (fun c => (doc c =? d)%string) candidates).

(** The own property [d] of [docCounts] once [n] candidates of the
    document [d] have been counted: none before the first, and never one
    for [__proto__]; the text of the inherited value followed by [n]
    ones for another inherited name; the number [n] otherwise. *)
Definition counted (d : string) (n : nat) : option JsObject.primitive :=
  match n with
  | O => None
  | S _ =>
      if (d =? "__proto__")%string then None
      else if JsObject.inherited d then Some (JsObject.Text d n)
      else Some (JsObject.Number (count_number n))
  end.

(** Whether the boosting loop touches [rc] for the question [q]. *)
Definition mentioned_by (q : string) (rc : candidate) : bool :=
  match fileMentionMatch q with
  | Some m => mentioned (JsString.toLowerCase m) rc
  | None => false
  end.

(** The integer code of a re-rank score. *)
Definition reRank_key (r : Ranked.ranked) : Z := JsNumber.rank (Ranked.reRankScore r).

End Ranker.

(** ** JSON values and the property reads the handler performs on them *)

Module Json.

Local Open Scope string_scope.

Inductive json :=
| JNull
| JBool (b : bool)
| JNumber (n : float)
| JString (s : string)
| JArray (items : list json)
| JObject (members : list (string * json)).

(** A value that may be [undefined]. *)
Definition value := option json.

(** [typeof v] *)
Definition typeof (v : value) : string :=
  match v with
  | None => "undefined"
  | Some JNull => "object"
  | Some (JBool _) => "boolean"
  | Some (JNumber _) => "number"
  | Some (JString _) => "string"
  | Some (JArray _) => "object"
  | Some (JObject _) => "object"
  end.

(** Truthiness, as [!v] tests it. *)
Definition truthy (v : value) : bool :=
  match v with
  | None | Some JNull => false
  | Some (JBool b) => b
  | Some (JNumber n) => negb (JsNumber.falsy n)
  | Some (JString s) => negb (s =? "")
  | Some (JArray _) | Some (JObject _) => true
  end.

(** [Array.isArray(v)] *)
Definition isArray (v : value) : bool :=
  match v with
  | Some (JArray _) => true
  | _ => false
  end.

(** The member [name] of an object; a later member overrides an earlier
    one of the same name. *)
Fixpoint member (name : string) (members : list (string * json)) : value :=
  match members with
  | [] => None
  | (k, v) :: rest =>
      match member name rest with
      | Some v' => Some v'
      | None => if k =? name then Some v else None
      end
  end.

(** The result of evaluating an expression: a value, or a thrown error
    with its message. *)
Inductive outcome (A : Type) :=
| Normal (a : A)
| Throw (message : string).
Arguments Normal {A} a.
Arguments Throw {A} message.

(** [v.name] for the names the handler reads ([answer], [sources]),
    neither of which is a property of an array, a string, a number or a
    boolean: reading from [null] throws a [TypeError], the other reads
    are [undefined] unless [v] is an object with that member. *)
Definition get (v : json) (name : string) : outcome value :=
  match v with
  | JNull => Throw ("Cannot read properties of null (reading '" ++ name ++ "')")
  | JObject members => Normal (member name members)
  | _ => Normal None
  end.

(** The members of an object literal whose values may be [undefined]:
    such members are left out when the object is sent. *)
Fixpoint object_of (members : list (string * value)) : list (string * json) :=
  match members with
  | [] => []
  | (k, Some v) :: rest => (k, v) :: object_of rest
  | (_, None) :: rest => object_of rest
  end.

(** The names of the members of an object, in order. *)
Definition keys (v : json) : list string :=
  match v with
  | JObject members => map fst members
  | _ => []
  end.

End Json.

(** ** server/index.js: the [/ask] handler *)

Module Server.

Import Json.
Local Open Scope string_scope.

(** The settings read from the environment: [parseInt(TOP_K || '5')] and
    [parseFloat(SCORE_THRESHOLD || '0.20')]. *)
Record config := mk_config {
  TOP_K : Z;
  SCORE_THRESHOLD : float
}.

Definition default_config : config := mk_config 5 0.20%float.

(** What an awaited provider call comes to: a value, or a rejection
    carrying the text [err?.message || String(err)]. *)
Inductive provider_result (A : Type) :=
| Resolved (a : A)
| Rejected (details : string).
Arguments Resolved {A} a.
Arguments Rejected {A} details.

(** The parts of the completion that the handler reads: [output_text],
    the [output] array (each item with or without [content], each content
    part reduced to its [text || '']), and [JSON.stringify(completion)]. *)
Record completion := mk_completion {
  output_text : option string;
  output : option (list (option (list string)));
  stringified : string
}.

(** [JSON.parse(raw)]: the value, or [String(parseErr)]. *)
Inductive parse_result :=
| Parsed (v : json)
| SyntaxError (description : string).

(** Calls to the external providers. *)
Inductive event :=
| EmbeddingsCreate (input : string)
| ResponsesCreate (system user : string).

Record response := mk_response {
  status : Z;
  body : json
}.

(** Lines 82-90. *)
Definition extract_text (c : completion) : string :=
  match output_text c with
  | Some t => t
  | None =>
      match output c with
      | Some items =>
          String.concat ""
            (map (fun o => match o with
                           | Some parts => String.concat "" parts
                           | None => ""
                           end) items)
      | None => stringified c
      end
  end.

Definition as_string (v : value) : string :=
  match v with
  | Some (JString s) => s
  | _ => ""
  end.

Definition bad_request (message : string) : response :=
  mk_response 400 (JObject [("error", JString message)]).

(** Lines 19-23: [Some r] when the handler answers [r] at once. *)
Definition validate (q : value) : option response :=
  if negb (truthy q) || negb (typeof q =? "string")
     || (JsString.length (JsString.trim (as_string q)) =? 0)%nat
  then Some (bad_request "question required")
  else if (2000 <? JsString.length (as_string q))%nat
  then Some (bad_request "question too long")
  else None.

(** The [catch (err)] of the handler. *)
Definition server_error (details : string) : response :=
  mk_response 500 (JObject [("error", JString "server_error"); ("details", JString details)]).

Definition used_context_full (c : Ranked.ranked) : json :=
  JObject [("doc", JString (Candidate.doc (Ranked.base c)));
           ("chunkIndex", JNumber (Candidate.chunkIndex (Ranked.base c)));
           ("score", JNumber (Candidate.score (Ranked.base c)));
           ("reRankScore", JNumber (Ranked.reRankScore c))].

Definition used_context_short (c : Ranked.ranked) : json :=
  JObject [("doc", JString (Candidate.doc (Ranked.base c)));
           ("chunkIndex", JNumber (Candidate.chunkIndex (Ranked.base c)));
           ("score", JNumber (Candidate.score (Ranked.base c)))].

(** Line 111: [typeof parsed !== 'object' || typeof parsed.answer !==
    'string' || !Array.isArray(parsed.sources)], evaluated left to right;
    a property read may throw. *)
Definition invalid_shape (parsed : json) : outcome bool :=
  if negb (typeof (Some parsed) =? "object") then Normal true
  else
    match get parsed "answer" with
    | Throw m => Throw m
    | Normal answer =>
        if negb (typeof answer =? "string") then Normal true
        else
          match get parsed "sources" with
          | Throw m => Throw m
          | Normal sources => Normal (negb (isArray sources))
          end
    end.

Definition read (v : json) (name : string) : value :=
  match get v name with
  | Normal x => x
  | Throw _ => None
  end.

(** A line feed and a double quote, as one-unit strings. *)
Definition nl : string := String "010"%char EmptyString.
Definition dq : string := String "034"%char EmptyString.

(** The decimal text of an array index. *)
Definition index_text (n : nat) : string := NilZero.string_of_uint (Nat.to_uint n).

(** Line 63. *)
Definition system : string :=
  String.concat dq
    ["You are a helpful assistant. Use ONLY the provided CONTEXT chunks to answer. If the answer is not contained in the provided context, reply exactly with: {";
     "answer"; ":"; "I don't know based on the provided documents."; ","; "sources";
     ":[]} (valid JSON). Do NOT add any extra text outside the JSON."].

Section Handler.

(** The host's [JSON.parse] and conversion of a number to a string, the
    two provider calls (the embedding of an input; the completion for a
    system and a user message), the elapsed time [Date.now() - start],
    the loaded collection and the settings. *)
Variable JSON_parse : string -> parse_result.
Variable Number_toString : float -> string.
Variable embeddings_create : string -> provider_result (list float).
Variable responses_create : string -> string -> provider_result completion.
Variable latency : float.
Variable vectors : list Chunk.chunk.
Variable cfg : config.

(** Lines 64-66: one block per candidate, joined by line feeds. *)
Definition context_block (idx : nat) (c : Ranked.ranked) : string :=
  String.concat ""
    ["[["; index_text idx; "]] DOC: "; Candidate.doc (Ranked.base c); "#";
     Number_toString (Candidate.chunkIndex (Ranked.base c)); nl;
     Candidate.text (Ranked.base c); nl; "---"; nl].

Fixpoint context_blocks (idx : nat) (candidates : list Ranked.ranked) : list string :=
  match candidates with
  | [] => []
  | c :: rest => context_block idx c :: context_blocks (S idx) rest
  end.

Definition contextText (candidates : list Ranked.ranked) : string :=
  String.concat nl (context_blocks 0 candidates).

(** Line 68. *)
Definition userPrompt (q : string) (candidates : list Ranked.ranked) : string :=
  String.concat nl
    ["Question: " ++ q;
     "";
     "CONTEXT START";
     contextText candidates;
     "CONTEXT END";
     "";
     "INSTRUCTIONS:";
     "- Answer concisely using ONLY the context above.";
     String.concat dq
       ["- Provide a JSON object with two keys: "; "answer"; " (string) and ";
        "sources"; " (array)."];
     String.concat dq
       ["- "; "sources"; " must be an array of objects {"; "doc"; ":"; "<filename>";
        ","; "chunkIndex"; ":<n>,"; "score";
        ":<float>} referencing only chunks from the CONTEXT."];
     String.concat dq
       ["- If context does not contain the answer, return: {"; "answer"; ":";
        "I don't know based on the provided documents."; ","; "sources"; ":[]}."];
     "- Output must be valid JSON and nothing else."].

(** Lines 110-128: the shape check of the parsed value and the two
    responses that follow it. *)
Definition respond_parsed (candidates : list Ranked.ranked) (parsed : json) : response :=
  match invalid_shape parsed with
  | Throw details => server_error details
  | Normal true =>
      mk_response 500
        (JObject [("error", JString "invalid_model_json_shape");
                  ("parsed", parsed);
                  ("used_contexts", JArray (map used_context_short candidates));
                  ("latency_ms", JNumber latency)])
  | Normal false =>
      mk_response 200
        (JObject (object_of
           [("answer", read parsed "answer");
            ("sources", read parsed "sources");
            ("used_contexts", Some (JArray (map used_context_full candidates)));
            ("latency_ms", Some (JNumber latency))]))
  end.

(** Lines 94-128: parse and validate the trimmed text [raw]. *)
Definition respond (candidates : list Ranked.ranked) (raw : string) : response :=
  match JSON_parse raw with
  | SyntaxError parseError =>
      mk_response 500
        (JObject [("error", JString "model_response_not_json");
                  ("raw", JString raw);
                  ("parseError", JString parseError);
                  ("used_contexts", JArray (map used_context_full candidates));
                  ("latency_ms", JNumber latency)])
  | Parsed parsed => respond_parsed candidates parsed
  end.

(** The handler of [POST /ask] applied to [req.body?.question]: the
    provider calls it makes, in order, and its response. *)
Definition ask (question : value) : list event * response :=
  match validate question with
  | Some r => ([], r)
  | None =>
      let q := as_string question in
      match embeddings_create q with
      | Rejected details => ([EmbeddingsCreate q], server_error details)
      | Resolved qEmb =>
          let rawContexts := VectorStore.topK vectors qEmb (TOP_K cfg) in
          let candidates := Ranker.rank q (SCORE_THRESHOLD cfg) rawContexts in
          let user := userPrompt q candidates in
          let calls := [EmbeddingsCreate q; ResponsesCreate system user] in
          match responses_create system user with
          | Rejected details => (calls, server_error details)
          | Resolved completion =>
              (calls, respond candidates (JsString.trim (extract_text completion)))
          end
      end
  end.

End Handler.

(** The value of the member [error] of a response body, if any. *)
Definition error_of (r : response) : value :=
  match body r with
  | JObject members => member "error" members
  | _ => None
  end.

(** The elements of the member [used_contexts] of a response body. *)
Definition used_contexts_of (r : response) : list json :=
  match body r with
  | JObject members =>
      match member "used_contexts" members with
      | Some (JArray items) => items
      | _ => []
      end
  | _ => []
  end.

End Server.

(** ** Objects on a heap: who shares what between the store and a request *)

Module Heap.

Import Candidate.
Local Open Scope float_scope.

Definition loc := positive.

(** The three kinds of object that [topK] touches or creates. *)
Inductive object :=
| Stored (v : Chunk.chunk)              (* an element of [vectors] *)
| Scored (score : float) (v : loc)      (* [{score, v}]: [v] is a reference *)
| Returned (c : candidate).             (* [{score, id, doc, chunkIndex, text}] *)

Abbreviation heap := (gmap loc object).

(** An object literal evaluates to a reference that is not yet in use. *)
Definition alloc (h : heap) (o : object) : heap * loc :=
  let l := fresh (dom h) in (<[l := o]> h, l).

(** [vectors.map(v => ({score: cosine(queryEmb, v.embedding), v}))] *)
Fixpoint map_scored (h : heap) (vectors : list loc) (queryEmb : list float)
  : option (heap * list loc) :=
  match vectors with
  | [] => Some (h, [])
  | v :: vs =>
      match h !! v with
      | Some (Stored c) =>
          let '(h1, l) := alloc h (Scored (VectorStore.cosine queryEmb (Chunk.embedding c)) v) in
          match map_scored h1 vs queryEmb with
          | Some (h2, ls) => Some (h2, l :: ls)
          | None => None
          end
      | _ => None
      end
  end.

(** [s.score] read through the reference [s]. *)
Definition score_at (h : heap) (s : loc) : float :=
  match h !! s with
  | Some (Scored x _) => x
  | _ => nan
  end.

(** [(a,b) => b.score - a.score] on references. *)
Definition by_score_desc (h : heap) (a b : loc) : float := score_at h b - score_at h a.

(** [.map(s => ({score: s.score, id: s.v.id, doc: s.v.doc, chunkIndex:
    s.v.chunkIndex, text: s.v.text}))] *)
Fixpoint map_returned (h : heap) (scored : list loc) : option (heap * list loc) :=
  match scored with
  | [] => Some (h, [])
  | s :: ss =>
      match h !! s with
      | Some (Scored x v) =>
          match h !! v with
          | Some (Stored c) =>
              let '(h1, l) :=
                alloc h (Returned (mk x (Chunk.id c) (Chunk.doc c) (Chunk.chunkIndex c) (Chunk.text c))) in
              match map_returned h1 ss with
              | Some (h2, ls) => Some (h2, l :: ls)
              | None => None
              end
          | _ => None
          end
      | _ => None
      end
  end.

(** [topK(queryEmb, k)] with the module variable [vectors] holding the
    references [vectors]; [None] when a reference does not lead to an
    object of the expected kind. *)
Definition topK (h : heap) (vectors : list loc) (queryEmb : list float) (k : Z)
  : option (heap * list loc) :=
  match map_scored h vectors queryEmb with
  | Some (h1, scored) =>
      map_returned h1 (JsArray.slice_to (JsArray.sort (by_score_desc h1) scored) k)
  | None => None
  end.

(** [rc.score += 0.6] when [rc] names the mentioned file. *)
Definition boost_at (filename : string) (h : heap) (rc : loc) : heap :=
  match h !! rc with
  | Some (Returned c) =>
      if Ranker.mentioned filename c
      then <[rc := Returned (set_score c (score c + Ranker.exactMentionBoost))]> h
      else h
  | _ => h
  end.

(** The boosting loop of the handler (lines 36-44) over the references
    returned by [topK]. *)
Definition boost (q : string) (h : heap) (rawContexts : list loc) : heap :=
  match Ranker.fileMentionMatch q with
  | Some m => fold_left (boost_at (JsString.toLowerCase m)) rawContexts h
  | None => h
  end.

(** The record [{score, v}] that the reference [s] leads to, with [v]
    followed to the stored record. *)
Definition scored_view (h : heap) (s : loc) : float * Chunk.chunk :=
  match h !! s with
  | Some (Scored x v) =>
      match h !! v with
      | Some (Stored c) => (x, c)
      | _ => (x, Chunk.mk "" "" 0 "" [])
      end
  | _ => (nan, Chunk.mk "" "" 0 "" [])
  end.

(** The candidates that the references [ls] lead to. *)
Definition read_returned (h : heap) (ls : list loc) : list (option candidate) :=
  map (fun l => match h !! l with
                | Some (Returned c) => Some c
                | _ => None
                end) ls.

(** The stored records that the references [vectors] lead to. *)
Definition read_stored (h : heap) (vectors : list loc) : list (option Chunk.chunk) :=
  map (fun l => match h !! l with
                | Some (Stored c) => Some c
                | _ => None
                end) vectors.

End Heap.

(** ** A reader for JSON texts

    [JSON.parse] belongs to the host, not to the program; the handler is
    stated over an arbitrary [JSON_parse].  To run the handler on concrete
    texts, this module reads the JSON grammar (ECMA-404).  Numbers are
    converted with correct rounding; the wording of the engine's error
    message is not modelled; a [\u] escape above [00FF] denotes a code
    unit outside the modelled range and is refused. *)

Module JsonText.

Import Json.

Definition quote : ascii := "034"%char.
Definition backslash : ascii := "092"%char.

(** JSON white space: space, TAB, LF, CR. *)
Definition is_ws (c : ascii) : bool :=
  let n := JsString.code c in ((n =? 32) || (n =? 9) || (n =? 10) || (n =? 13))%N.

Fixpoint skip_ws (s : list ascii) : list ascii :=
  match s with
  | c :: s' => if is_ws c then skip_ws s' else s
  | [] => []
  end.

Definition digit_value (c : ascii) : option Z :=
  let n := JsString.code c in
  if ((48 <=? n) && (n <=? 57))%N then Some (Z.of_N n - 48)%Z else None.

Definition hex_value (c : ascii) : option N :=
  let n := JsString.code c in
  if ((48 <=? n) && (n <=? 57))%N then Some (n - 48)%N
  else if ((65 <=? n) && (n <=? 70))%N then Some (n - 55)%N
  else if ((97 <=? n) && (n <=? 102))%N then Some (n - 87)%N
  else None.

Definition unit_of_hex4 (a b c d : ascii) : option ascii :=
  match hex_value a, hex_value b, hex_value c, hex_value d with
  | Some x, Some y, Some z, Some w =>
      let n := (((x * 16 + y) * 16 + z) * 16 + w)%N in
      if (n <? 256)%N then Some (ascii_of_N n) else None
  | _, _, _, _ => None
  end.

(** The characters of a string literal after its opening quote, and the
    rest of the text after its closing quote. *)
Fixpoint read_string (s : list ascii) : option (list ascii * list ascii) :=
  match s with
  | [] => None
  | c :: s' =>
      if Ascii.eqb c quote then Some ([], s')
      else if Ascii.eqb c backslash then
        match s' with
        | e :: s'' =>
            let simple (x : ascii) :=
              match read_string s'' with
              | Some (str, r) => Some (x :: str, r)
              | None => None
              end in
            if Ascii.eqb e quote then simple quote
            else if Ascii.eqb e backslash then simple backslash
            else if Ascii.eqb e "/"%char then simple "/"%char
            else if Ascii.eqb e "b"%char then simple "008"%char
            else if Ascii.eqb e "f"%char then simple "012"%char
            else if Ascii.eqb e "n"%char then simple "010"%char
            else if Ascii.eqb e "r"%char then simple "013"%char
            else if Ascii.eqb e "t"%char then simple "009"%char
            else if Ascii.eqb e "u"%char then
              match s'' with
              | a :: b :: c' :: d :: s3 =>
                  match unit_of_hex4 a b c' d, read_string s3 with
                  | Some x, Some (str, r) => Some (x :: str, r)
                  | _, _ => None
                  end
              | _ => None
              end
            else None
        | [] => None
        end
      else if (JsString.code c <? 32)%N then None
      else
        match read_string s' with
        | Some (str, r) => Some (c :: str, r)
        | None => None
        end
  end.

(** A run of decimal digits: its value, its length, the rest. *)
Fixpoint read_digits (acc : Z) (n : nat) (s : list ascii) : Z * nat * list ascii :=
  match s with
  | c :: s' =>
      match digit_value c with
      | Some d => read_digits (acc * 10 + d) (S n) s'
      | None => (acc, n, s)
      end
  | [] => (acc, n, [])
  end.

(** The binary64 value nearest to [m * 10 ^ e10], for [m > 0]. *)
Definition decimal_to_float (m : positive) (e10 : Z) : float :=
  SF2Prim
    (match e10 with
     | Zneg k => SFdiv prec emax (S754_finite false m 0)
                   (S754_finite false (Pos.pow 10 k) 0)
     | _ => binary_normalize prec emax (Zpos m * 10 ^ e10) 0 false
     end).

Definition number_of (negative : bool) (m : Z) (e10 : Z) : float :=
  let x := match m with
           | Zpos p => decimal_to_float p e10
           | _ => 0%float
           end in
  if negative then (- x)%float else x.

(** [-? int frac? exp?] at the head of [s]. *)
Definition read_number (s : list ascii) : option (float * list ascii) :=
  let '(negative, s1) :=
    match s with
    | "-"%char :: r => (true, r)
    | _ => (false, s)
    end in
  let '(i, ni, s2) := read_digits 0 0 s1 in
  let leading_zero :=
    match s1 with
    | "0"%char :: _ => (1 <? ni)%nat
    | _ => false
    end in
  if (ni =? 0)%nat || leading_zero then None
  else
    let frac :=
      match s2 with
      | "."%char :: r =>
          let '(m, nf, s3) := read_digits i 0 r in
          if (nf =? 0)%nat then None else Some (m, Z.of_nat nf, s3)
      | _ => Some (i, 0%Z, s2)
      end in
    match frac with
    | None => None
    | Some (m, nf, s3) =>
        let exponent (r : list ascii) :=
          let '(eneg, r1) :=
            match r with
            | "-"%char :: r' => (true, r')
            | "+"%char :: r' => (false, r')
            | _ => (false, r)
            end in
          let '(e, ne, r2) := read_digits 0 0 r1 in
          if (ne =? 0)%nat then None
          else Some (number_of negative m ((if eneg then - e else e) - nf), r2) in
        match s3 with
        | "e"%char :: r => exponent r
        | "E"%char :: r => exponent r
        | _ => Some (number_of negative m (- nf), s3)
        end
    end.

Fixpoint read_value (fuel : nat) (s : list ascii) : option (json * list ascii) :=
  match fuel with
  | O => None
  | S fuel' =>
      match skip_ws s with
      | "n"%char :: "u"%char :: "l"%char :: "l"%char :: r => Some (JNull, r)
      | "t"%char :: "r"%char :: "u"%char :: "e"%char :: r => Some (JBool true, r)
      | "f"%char :: "a"%char :: "l"%char :: "s"%char :: "e"%char :: r => Some (JBool false, r)
      | "["%char :: r =>
          match skip_ws r with
          | "]"%char :: r' => Some (JArray [], r')
          | _ =>
              match read_elements fuel' r with
              | Some (items, r') => Some (JArray items, r')
              | None => None
              end
          end
      | "{"%char :: r =>
          match skip_ws r with
          | "}"%char :: r' => Some (JObject [], r')
          | _ =>
              match read_members fuel' r with
              | Some (members, r') => Some (JObject members, r')
              | None => None
              end
          end
      | c :: r =>
          if Ascii.eqb c quote then
            match read_string r with
            | Some (str, r') => Some (JString (string_of_list_ascii str), r')
            | None => None
            end
          else
            match read_number (c :: r) with
            | Some (x, r') => Some (JNumber x, r')
            | None => None
            end
      | [] => None
      end
  end
with read_elements (fuel : nat) (s : list ascii) : option (list json * list ascii) :=
  match fuel with
  | O => None
  | S fuel' =>
      match read_value fuel' s with
      | Some (v, r) =>
          match skip_ws r with
          | ","%char :: r' =>
              match read_elements fuel' r' with
              | Some (vs, r'') => Some (v :: vs, r'')
              | None => None
              end
          | "]"%char :: r' => Some ([v], r')
          | _ => None
          end
      | None => None
      end
  end
with read_members (fuel : nat) (s : list ascii) : option (list (string * json) * list ascii) :=
  match fuel with
  | O => None
  | S fuel' =>
      match skip_ws s with
      | c :: r =>
          if Ascii.eqb c quote then
            match read_string r with
            | Some (k, r1) =>
                match skip_ws r1 with
                | ":"%char :: r2 =>
                    match read_value fuel' r2 with
                    | Some (v, r3) =>
                        match skip_ws r3 with
                        | ","%char :: r4 =>
                            match read_members fuel' r4 with
                            | Some (ms, r5) => Some ((string_of_list_ascii k, v) :: ms, r5)
                            | None => None
                            end
                        | "}"%char :: r4 => Some ([(string_of_list_ascii k, v)], r4)
                        | _ => None
                        end
                    | None => None
                    end
                | _ => None
                end
            | None => None
            end
          else None
      | [] => None
      end
  end.

(** [JSON.parse(text)] *)
Definition parse (text : string) : Server.parse_result :=
  let s := list_ascii_of_string text in
  match read_value (2 * List.length s + 2) s with
  | Some (v, r) =>
      match skip_ws r with
      | [] => Server.Parsed v
      | _ => Server.SyntaxError "SyntaxError"
      end
  | None => Server.SyntaxError "SyntaxError"
  end.

End JsonText.

(** ** More of the string and array library: [split], [replace], [join],
    [slice], [filter(Boolean)] *)

Module JsText.

Local Open Scope string_scope.

(** [s.split(/\s+/)]: the pieces of [s] between its maximal runs of white
    space, the empty pieces before a leading run and after a trailing one
    included; a string without white space (the empty one too) is its
    own single piece.  The head of the result is the piece that [s]
    starts with. *)
Fixpoint split_white_space (s : string) : list string :=
  match s with
  | EmptyString => [EmptyString]
  | String c s' =>
      if JsString.is_white_space c
      then match s' with
           | String c' _ =>
               if JsString.is_white_space c' then split_white_space s'
               else EmptyString :: split_white_space s'
           | EmptyString => [EmptyString; EmptyString]
           end
      else match split_white_space s' with
           | piece :: pieces => String c piece :: pieces
           | [] => [String c EmptyString]
           end
  end.

(** [s.split(sep)] for a separator of one code unit. *)
Fixpoint split_at (sep : ascii) (s : string) : list string :=
  match s with
  | EmptyString => [EmptyString]
  | String c s' =>
      if Ascii.eqb c sep then EmptyString :: split_at sep s'
      else match split_at sep s' with
           | piece :: pieces => String c piece :: pieces
           | [] => [String c EmptyString]
           end
  end.

(** [s.replace(/\s+/g, ' ')]: every maximal run of white space becomes
    one space. *)
Fixpoint replace_white_space (s : string) : string :=
  match s with
  | EmptyString => EmptyString
  | String c s' =>
      if JsString.is_white_space c
      then match s' with
           | String c' _ =>
               if JsString.is_white_space c' then replace_white_space s'
               else String " " (replace_white_space s')
           | EmptyString => String " " EmptyString
           end
      else String c (replace_white_space s')
  end.

(** [arr.filter(Boolean)] on an array of strings: the empty string is the
    one falsy string. *)
Definition filter_Boolean (arr : list string) : list string :=
  List.filter (fun w => negb (w =? "")) arr.

(** [arr.join(sep)] on an array of strings. *)
Definition join (sep : string) (arr : list string) : string := String.concat sep arr.

(** [arr.slice(start, end)] for indices [0 <= start] and [0 <= end]. *)
Definition slice {A : Type} (arr : list A) (start end_ : nat) : list A :=
  firstn (end_ - start) (skipn start arr).

(** The consecutive slices of [step] elements of [arr] from the index
    [i] on; the last one is shorter when the elements give out. *)
Definition slices_from {A : Type} (step : nat) (arr : list A) (i : nat) : list (list A) :=
  map (fun k => slice arr (i + k * step) (i + k * step + step))
    (seq 0 ((List.length arr - i + (step - 1)) / step)).

Definition slices {A : Type} (step : nat) (arr : list A) : list (list A) :=
  slices_from step arr 0.

(** The words of a text: its non-empty pieces between white space. *)
Definition words (s : string) : list string := filter_Boolean (split_white_space s).

(** No white space in [s]. *)
Definition solid (s : string) : bool :=
  forallb (fun c => negb (JsString.is_white_space c)) (list_ascii_of_string s).

(** A word: not empty, no white space in it. *)
Definition is_word (w : string) : bool := negb (w =? "") && solid w.

(** The only white space in [s] is the space. *)
Definition spaced (s : string) : bool :=
  forallb (fun c => negb (JsString.is_white_space c) || Ascii.eqb c " ")
    (list_ascii_of_string s).

(** Nothing but white space in [s]. *)
Definition blank (s : string) : bool :=
  forallb JsString.is_white_space (list_ascii_of_string s).

(** The first of the pieces of a split, and the non-empty ones among
    the others. *)
Definition head_and_words (pieces : list string) : string * list string :=
  (hd "" pieces, filter_Boolean (tl pieces)).

(** [piece] in front of [rest] unless it is empty. *)
Definition cons_word (piece : string) (rest : list string) : list string :=
  if piece =? "" then rest else piece :: rest.

End JsText.

(** ** The indexer scripts: what a run does to the outside world *)

Module Script.

(** A record pushed on [vectors]; [text] is [batch[j]], which is
    [undefined] past the end of the batch. *)
Record entry := mk_entry {
  id : string;
  doc : string;
  chunkIndex : nat;
  text : option string;
  embedding : list float
}.

(** The file-system and provider calls of a run, by entry name of
    [docs/]; console output is not recorded. *)
Inductive event :=
| ReadFile (f : string)
| EmbeddingsCreate (input : list string)
| WriteFile (vectors : list entry).

(** How a run ends: by returning from [main], or by [process.exit]. *)
Inductive ending :=
| Completed
| Exited (code : Z).

(** The state of [main]: the array [vectors] and the calls made so far.
    A step returns a value or throws (an awaited rejection is a throw);
    the state reached is kept in both cases. *)
Record state := mk_state {
  vectors : list entry;
  trace : list event
}.

Definition M (A : Type) : Type := state -> Json.outcome A * state.

Definition ret {A : Type} (a : A) : M A := fun s => (Json.Normal a, s).

Definition bind {A B : Type} (m : M A) (k : A -> M B) : M B :=
  fun s =>
    match m s with
    | (Json.Normal a, s') => k a s'
    | (Json.Throw message, s') => (Json.Throw message, s')
    end.

Definition throw {A : Type} (message : string) : M A := fun s => (Json.Throw message, s).

Definition emit (e : event) : M unit :=
  fun s => (Json.Normal tt, mk_state (vectors s) (trace s ++ [e])).

(** [vectors.push(v)] *)
Definition push (v : entry) : M unit :=
  fun s => (Json.Normal tt, mk_state (vectors s ++ [v]) (trace s)).

Definition get_vectors : M (list entry) := fun s => (Json.Normal (vectors s), s).

Definition of_outcome {A : Type} (o : Json.outcome A) : M A :=
  match o with
  | Json.Normal a => ret a
  | Json.Throw message => throw message
  end.

Definition of_provider {A : Type} (r : Server.provider_result A) : M A :=
  match r with
  | Server.Resolved a => ret a
  | Server.Rejected details => throw details
  end.

Declare Scope script_scope.
Delimit Scope script_scope with script.
Notation "x <- m ;; k" := (bind m (fun x => k))
  (at level 100, m at next level, right associativity) : script_scope.
Notation "m ;; k" := (bind m (fun _ => k))
  (at level 100, right associativity) : script_scope.

(** [/\.ext$/i] for the extensions of the file filters: the name ends
    with [suffix], letter case aside. *)
Definition ends_with_ci (suffix f : string) : bool :=
  Ranker.starts_with_ci (rev (list_ascii_of_string suffix)) (rev (list_ascii_of_string f)).

(** [`${f}#${n}`] *)
Definition id_of (f : string) (n : nat) : string :=
  (f ++ "#" ++ Server.index_text n)%string.

(** The records of the chunks [chunks] of the entry [f], numbered from
    [k], when [embed] is the embedding of a text. *)
Fixpoint records_of (embed : string -> list float) (f : string) (k : nat)
  (chunks : list string) : list entry :=
  match chunks with
  | [] => []
  | c :: rest =>
      mk_entry (id_of f k) f k (Some c) (embed c) :: records_of embed f (S k) rest
  end.

(** The calls made for an entry whose text is cut into [chunks]: the
    read, then one request per batch of [batch] chunks. *)
Definition calls_of (batch : nat) (f : string) (chunks : list string) : list event :=
  ReadFile f :: map EmbeddingsCreate (JsText.slices batch chunks).

(** [b] is one of the batches of [size] chunks that the batch loop cuts
    from [chunks]. *)
Definition batch_of (size : nat) (chunks : list string) (b : list string) : Prop :=
  exists k, (k < List.length chunks)%nat /\ b = JsText.slice chunks k (k + size).

(** [e] is what the loop over [files] can do: read one of them, or
    request the embeddings of a batch of the chunks of one of them. *)
Definition expected (size : nat) (chunks_of : string -> list string) (files : list string)
  (e : event) : Prop :=
  match e with
  | ReadFile f => In f files
  | EmbeddingsCreate b => exists f, In f files /\ batch_of size (chunks_of f) b
  | WriteFile _ => False
  end.

(** The call [e] is a read or a request, and it went well. *)
Definition succeeded (readFileSync : string -> Json.outcome string)
  (embeddings_create : list string -> Server.provider_result (list (list float)))
  (e : event) : Prop :=
  match e with
  | ReadFile f => exists t, readFileSync f = Json.Normal t
  | EmbeddingsCreate b => exists embs, embeddings_create b = Server.Resolved embs
  | WriteFile _ => False
  end.

(** [main().catch(err => { console.error(err); process.exit(1); })] around
    a body that starts with empty [vectors]. *)
Definition run (body : M unit) : list event * ending :=
  match body (mk_state [] []) with
  | (Json.Normal _, s) => (trace s, Completed)
  | (Json.Throw _, s) => (trace s, Exited 1)
  end.

End Script.

(** ** scripts/index.js: the simple indexer *)

Module Indexer.

Import JsText Script.
Local Open Scope string_scope.
Local Open Scope script_scope.

Definition CHUNK_SIZE_WORDS : nat := 400.
Definition BATCH : nat := 16.

(** Lines 22-24: [for(let i=0;i<words.length;i+=CHUNK_SIZE_WORDS)
    chunks.push(...)], from the index [i] and the chunks pushed so far.
    Every turn moves [i] forward, so [fuel] turns are enough as soon as
    [fuel] is the number of words. *)
Fixpoint chunk_loop (fuel : nat) (words : list string) (i : nat) (chunks : list string)
  : list string :=
  match fuel with
  | O => chunks
  | S fuel' =>
      if (i <? List.length words)%nat
      then chunk_loop fuel' words (i + CHUNK_SIZE_WORDS)
             (chunks ++ [join " " (slice words i (i + CHUNK_SIZE_WORDS))])
      else chunks
  end.

(** Lines 19-26. *)
Definition splitToChunks (text : string) : list string :=
  let words := filter_Boolean (split_white_space text) in
  chunk_loop (List.length words) words 0 [].

(** [/\.(txt|md)$/i.test(f)] *)
Definition accepted (f : string) : bool :=
  ends_with_ci ".txt" f || ends_with_ci ".md" f.

Section Main.

(** The outside world: whether [docs/] exists, its entries, the content
    of an entry read as UTF-8, the embeddings of a batch of texts
    ([resp.data.map(d => d.embedding)]), and the writing of
    [vectors.json]. *)
Variable existsSync_docs : bool.
Variable readdirSync_docs : Json.outcome (list string).
Variable readFileSync : string -> Json.outcome string.
Variable embeddings_create : list string -> Server.provider_result (list (list float)).
Variable writeFileSync : list entry -> Json.outcome unit.

(** Lines 28-35. *)
Definition embedMany (texts : list string) : M (list (list float)) :=
  if (List.length texts =? 0)%nat then ret []
  else emit (EmbeddingsCreate texts) ;; of_provider (embeddings_create texts).

(** Lines 53-61: [for(let j=0;j<embs.length;j++) vectors.push({...})],
    from the index [j] over the embeddings not yet visited. *)
Fixpoint push_loop (f : string) (i : nat) (batch : list string)
  (embs : list (list float)) (j : nat) : M unit :=
  match embs with
  | [] => ret tt
  | e :: embs' =>
      push (mk_entry (id_of f (i + j)) f (i + j) (nth_error batch j) e) ;;
      push_loop f i batch embs' (S j)
  end.

(** Lines 49-62: [for(let i=0;i<chunks.length;i+=BATCH)]. *)
Fixpoint batch_loop (fuel : nat) (f : string) (chunks : list string) (i : nat) : M unit :=
  match fuel with
  | O => ret tt
  | S fuel' =>
      if (i <? List.length chunks)%nat
      then
        let batch := slice chunks i (i + BATCH) in
        embs <- embedMany batch ;;
        push_loop f i batch embs 0 ;;
        batch_loop fuel' f chunks (i + BATCH)
      else ret tt
  end.

(** Lines 45-62: the body of [for(const f of files)]. *)
Definition index_file (f : string) : M unit :=
  emit (ReadFile f) ;;
  text <- of_outcome (readFileSync f) ;;
  let chunks := splitToChunks text in
  batch_loop (List.length chunks) f chunks 0.

Fixpoint file_loop (files : list string) : M unit :=
  match files with
  | [] => ret tt
  | f :: rest => index_file f ;; file_loop rest
  end.

(** Lines 37-68. *)
Definition main : list event * ending :=
  if negb existsSync_docs then ([], Exited 1)
  else
    run (entries <- of_outcome readdirSync_docs ;;
         file_loop (List.filter accepted entries) ;;
         vectors <- get_vectors ;;
         emit (WriteFile vectors) ;;
         of_outcome (writeFileSync vectors)).

End Main.

End Indexer.

(** ** scripts/index.js, extended: PDF and Word documents, a minimum
    chunk size *)

Module ExtendedIndexer.

Import JsText Script.
Local Open Scope string_scope.
Local Open Scope script_scope.

Definition CHUNK_SIZE_WORDS : nat := 400.
Definition CHUNK_MIN_WORDS : nat := 30.
Definition BATCH : nat := 16.

(** Lines 84-87: the [for] loop of [splitToChunks]; a slice is pushed
    only when [slice.split(/\s+/).length >= CHUNK_MIN_WORDS]. *)
Fixpoint chunk_loop (fuel : nat) (words : list string) (i : nat) (chunks : list string)
  : list string :=
  match fuel with
  | O => chunks
  | S fuel' =>
      if (i <? List.length words)%nat
      then
        let slice_ := join " " (slice words i (i + CHUNK_SIZE_WORDS)) in
        chunk_loop fuel' words (i + CHUNK_SIZE_WORDS)
          (if (CHUNK_MIN_WORDS <=? List.length (split_white_space slice_))%nat
           then chunks ++ [slice_] else chunks)
      else chunks
  end.

(** Lines 80-89. *)
Definition splitToChunks (text : string) : list string :=
  if text =? "" then []
  else
    let words :=
      filter_Boolean (split_at " " (JsString.trim (replace_white_space text))) in
    chunk_loop (List.length words) words 0 [].

(** [/\.(txt|md|pdf|docx?)$/i.test(f)] *)
Definition accepted (f : string) : bool :=
  ends_with_ci ".txt" f || ends_with_ci ".md" f || ends_with_ci ".pdf" f ||
  ends_with_ci ".doc" f || ends_with_ci ".docx" f.

(** The code units after the last dot of [s], and the rest of [s] up to
    and including that dot, both read backwards from [r], the reverse of
    [s]. *)
Fixpoint span_to_dot (r : list ascii) : list ascii * list ascii :=
  match r with
  | c :: r' =>
      if Ascii.eqb c "."
      then ([], r)
      else let '(ext, before) := span_to_dot r' in (c :: ext, before)
  | [] => ([], [])
  end.

(** [path.extname(path.join(DOCS_DIR, f))] for an entry name [f] (no
    separator in it): from the last dot to the end, and nothing when
    there is no dot, when the only dot leads the name, and for [..]. *)
Definition extname (f : string) : string :=
  match span_to_dot (rev (list_ascii_of_string f)) with
  | (ext, _ :: _ :: _) =>
      if f =? ".." then "" else string_of_list_ascii ("."%char :: rev ext)
  | _ => ""
  end.

(** [x || ''] for a string that may be missing. *)
Definition or_empty (x : option string) : string :=
  match x with
  | Some s => s
  | None => ""
  end.

Section Main.

(** The outside world, as for the simple indexer, and the two parsers
    applied to the bytes of an entry: [(await pdf(data)).text] and
    [(await mammoth.extractRawText({ buffer })).value], either of which
    can be missing, or throw (reading the entry included). *)
Variable existsSync_docs : bool.
Variable readdirSync_docs : Json.outcome (list string).
Variable readFileSync : string -> Json.outcome string.
Variable pdf_text : string -> Json.outcome (option string).
Variable extractRawText_value : string -> Json.outcome (option string).
Variable embeddings_create : list string -> Server.provider_result (list (list float)).
Variable writeFileSync : list entry -> Json.outcome unit.

(** Lines 91-99: [embedMany], as in the simple indexer. *)
Definition embedMany (texts : list string) : M (list (list float)) :=
  if (List.length texts =? 0)%nat then ret []
  else emit (EmbeddingsCreate texts) ;; of_provider (embeddings_create texts).

(** Lines 101-124: what [extractText] returns for the entry [f], the
    text by kind of entry; any failure is caught and gives the empty
    text. *)
Definition extracted (f : string) : string :=
  let ext := JsString.toLowerCase (extname f) in
  if ext =? ".pdf"
  then match pdf_text f with
       | Json.Normal t => or_empty t
       | Json.Throw _ => ""
       end
  else if (ext =? ".doc") || (ext =? ".docx")
  then match extractRawText_value f with
       | Json.Normal t => or_empty t
       | Json.Throw _ => ""
       end
  else match readFileSync f with
       | Json.Normal t => t
       | Json.Throw _ => ""
       end.

(** [extractText]: the entry is read, and the text returned. *)
Definition extractText (f : string) : M string :=
  emit (ReadFile f) ;; ret (extracted f).

(** Lines 158-166: the loop over the embeddings of a batch. *)
Fixpoint push_loop (f : string) (i : nat) (batch : list string)
  (embs : list (list float)) (j : nat) : M unit :=
  match embs with
  | [] => ret tt
  | e :: embs' =>
      push (mk_entry (id_of f (i + j)) f (i + j) (nth_error batch j) e) ;;
      push_loop f i batch embs' (S j)
  end.

(** Lines 154-169: the loop over the batches of an entry. *)
Fixpoint batch_loop (fuel : nat) (f : string) (chunks : list string) (i : nat) : M unit :=
  match fuel with
  | O => ret tt
  | S fuel' =>
      if (i <? List.length chunks)%nat
      then
        let batch := slice chunks i (i + BATCH) in
        embs <- embedMany batch ;;
        push_loop f i batch embs 0 ;;
        batch_loop fuel' f chunks (i + BATCH)
      else ret tt
  end.

(** Lines 139-170, the body of [for(const f of files)]: an entry without
    text, or without chunks, is skipped. *)
Definition index_file (f : string) : M unit :=
  text <- extractText f ;;
  if (text =? "") || (JsString.trim text =? "") then ret tt
  else
    let chunks := splitToChunks text in
    if (List.length chunks =? 0)%nat then ret tt
    else batch_loop (List.length chunks) f chunks 0.

Fixpoint file_loop (files : list string) : M unit :=
  match files with
  | [] => ret tt
  | f :: rest => index_file f ;; file_loop rest
  end.

(** Lines 126-176. *)
Definition main : list event * ending :=
  if negb existsSync_docs then ([], Exited 1)
  else
    match readdirSync_docs with
    | Json.Throw _ => ([], Exited 1)
    | Json.Normal entries =>
        let files := List.filter accepted entries in
        if (List.length files =? 0)%nat then ([], Exited 1)
        else
          run (file_loop files ;;
               vectors <- get_vectors ;;
               emit (WriteFile vectors) ;;
               of_outcome (writeFileSync vectors))
    end.

End Main.

End ExtendedIndexer.

(** ** Sample data for the indexer examples *)

Module IndexerFixtures.

(** A text of [n] words. *)
Definition text_of_words (n : nat) : string := JsText.join " " (List.repeat "word" n).

(** A tab, as a one-unit string. *)
Definition tab : string := String "009"%char EmptyString.

End IndexerFixtures.

(** ** Sample data used by the examples *)

Module Fixtures.

Local Open Scope string_scope.
Local Open Scope float_scope.

Definition cand (s : float) (ident d : string) (i : float) : Candidate.candidate :=
  Candidate.mk s ident d i "".

Definition stored (ident d : string) (i : float) (e : list float) : Chunk.chunk :=
  Chunk.mk ident d i "" e.

(** The survivors of section 8 of the specification: docs A, A, B. *)
Definition three_survivors : list Candidate.candidate :=
  [cand 0.5 "A#0" "A" 0; cand 0.4 "A#1" "A" 1; cand 0.45 "B#0" "B" 0].

(** A top-K result, best first, in which nothing reaches the default
    threshold 0.20. *)
Definition low_scores : list Candidate.candidate :=
  [cand 0.10 "A#0" "A" 0; cand 0.095 "B#0" "B" 0; cand 0.09 "B#1" "B" 1;
   cand 0.01 "C#0" "C" 0].

(** A top-K result whose second entry is the file a question names, with
    a negative similarity. *)
Definition with_negative_score : list Candidate.candidate :=
  [cand 0.9 "other.md#0" "other.md" 0; cand (-0.5) "simple.txt#0" "Simple.txt" 0].

(** A top-K result for a question that names [a.txt]. *)
Definition two_files : list Candidate.candidate :=
  [cand 0.9 "b.txt#0" "b.txt" 0; cand 0.25 "a.txt#0" "a.txt" 0].

(** Survivors two of which come from a document called [constructor]. *)
Definition with_inherited_name : list Candidate.candidate :=
  [cand 0.5 "constructor#0" "constructor" 0; cand 0.4 "constructor#1" "constructor" 1;
   cand 0.45 "notes.txt#0" "notes.txt" 0].

(** Candidates one of which has no defined score. *)
Definition with_nan_score : list Candidate.candidate :=
  [cand nan "A#0" "A" 0; cand 0.1 "B#0" "B" 0].

(** A collection whose first record has an all-zero embedding. *)
Definition store_with_zero_vector : list Chunk.chunk :=
  [stored "z.txt#0" "z.txt" 0 [0; 0]; stored "u.txt#0" "u.txt" 0 [1; 0]].

(** A collection with two records of equal score for the query [[1; 1]]. *)
Definition store_with_tie : list Chunk.chunk :=
  [stored "x.txt#0" "x.txt" 0 [1; 0]; stored "d.txt#0" "d.txt" 0 [2; 2];
   stored "y.txt#0" "y.txt" 0 [0; 1]].

(** A collection of two records, and a heap that holds them at the
    references 1 and 2. *)
Definition store_two : list Chunk.chunk :=
  [stored "a.txt#0" "a.txt" 0 [1; 0]; stored "b.txt#0" "b.txt" 0 [0.6; 0.8]].

Definition heap_two : gmap positive Heap.object :=
  <[2%positive := Heap.Stored (stored "b.txt#0" "b.txt" 0 [0.6; 0.8])]>
    (<[1%positive := Heap.Stored (stored "a.txt#0" "a.txt" 0 [1; 0])]> ∅).

(** Providers that answer: the embedding [[1; 0]] for any question, and a
    completion whose [output_text] is [text]. *)
Definition embed_ok (input : string) : Server.provider_result (list float) :=
  Server.Resolved [1; 0].

Definition generate_text (text : string) (system user : string)
  : Server.provider_result Server.completion :=
  Server.Resolved (Server.mk_completion (Some text) None "").

(** The text of a number that is a non-negative integer below [2 ^ 53],
    as [String] gives it; other numbers are not rendered here. *)
Definition integral_text (x : float) : string :=
  match Prim2SF x with
  | S754_zero _ => "0"
  | S754_finite false m e =>
      match e with
      | Zneg k =>
          if (Zpos m mod 2 ^ Zpos k =? 0)%Z
          then NilZero.string_of_uint (N.to_uint (Z.to_N (Zpos m / 2 ^ Zpos k)))
          else ""
      | _ => if (e <=? 0)%Z then NilZero.string_of_uint (Pos.to_uint m) else ""
      end
  | _ => ""
  end.

(** The text of an answer in the agreed shape:
    [{ "answer": "x", "sources": [] }]. *)
Definition good_answer_text : string :=
  String.concat (String JsonText.quote EmptyString)
    ["{"; "answer"; ":"; "x"; ","; "sources"; ":[]}"].

(** [{ "foo": 1 }] *)
Definition foo_text : string :=
  String.concat (String JsonText.quote EmptyString) ["{"; "foo"; ":1}"].

(** A question of [n] letters. *)
Definition question_of_length (n : nat) : Json.value :=
  Some (Json.JString (JsString.repeat "a"%char n)).

End Fixtures.

(* ================================================================== *)
(** * Part II: properties *)
(* ================================================================== *)

(** ** Numbers: comparisons, the sign of a difference, NaN and zero *)

Module NumberFacts.

Import JsNumber.
Local Open Scope float_scope.

Lemma digits2_pos_bounds (m : positive) :
  (2 ^ (Zpos (digits2_pos m) - 1) <= Zpos m < 2 ^ Zpos (digits2_pos m))%Z.
Proof.
  induction m as [p IH | p IH | ]; cbn [digits2_pos].
  - rewrite Pos2Z.inj_succ, Z.pow_succ_r by lia.
    replace (Z.succ (Zpos (digits2_pos p)) - 1)%Z with (Z.succ (Zpos (digits2_pos p) - 1))%Z by lia.
    rewrite Z.pow_succ_r by lia. lia.
  - rewrite Pos2Z.inj_succ, Z.pow_succ_r by lia.
    replace (Z.succ (Zpos (digits2_pos p)) - 1)%Z with (Z.succ (Zpos (digits2_pos p) - 1))%Z by lia.
    rewrite Z.pow_succ_r by lia. lia.
  - cbn. lia.
Qed.

Lemma bounded_inv (m : positive) (e : Z) :
  bounded prec emax m e = true ->
  (emin <= e <= emax - prec)%Z /\ (Zpos m < 2 ^ prec)%Z /\
  (emin < e -> 2 ^ (prec - 1) <= Zpos m)%Z.
Proof.
  unfold bounded, canonical_mantissa, fexp. intros H.
  apply andb_prop in H as [Hc He].
  apply Z.eqb_eq in Hc. apply Z.leb_le in He.
  pose proof (digits2_pos_bounds m) as [Hlo Hhi].
  assert (Hd : (Zpos (digits2_pos m) <= prec)%Z) by lia.
  split; [lia|]. split.
  - eapply Z.lt_le_trans; [exact Hhi|]. apply Z.pow_le_mono_r; lia.
  - intros Hgt. assert (Zpos (digits2_pos m) = prec) as <- by lia. exact Hlo.
Qed.


Lemma emin_val : emin = (-1074)%Z.
Proof. reflexivity. Qed.

Lemma SFcompare_rank (x y : spec_float) :
  valid_binary x = true -> valid_binary y = true ->
  x <> S754_nan -> y <> S754_nan ->
  SFcompare x y = Some (SFrank x ?= SFrank y)%Z.
Proof.
  intros Hx Hy Nx Ny.
  destruct x as [sx | sx | | sx mx ex]; try congruence;
  destruct y as [sy | sy | | sy my ey]; try congruence;
  cbn [valid_binary] in Hx, Hy;
  try (apply bounded_inv in Hx as (Hex & Hmx & _));
  try (apply bounded_inv in Hy as (Hey & Hmy & _));
  rewrite ?emin_val in *; change prec with 53%Z in *; change emax with 1024%Z in *;
  change (2 ^ 53)%Z with 9007199254740992%Z in *;
  unfold SFcompare, SFrank; rewrite ?emin_val; change prec with 53%Z; change emax with 1024%Z;
  change (2 ^ 53)%Z with 9007199254740992%Z;
  try (destruct sx); try (destruct sy); cbn [cond_Zopp]; f_equal; symmetry;
  try (apply Z.compare_eq_iff; lia);
  try (apply Z.compare_lt_iff; lia);
  try (apply Z.compare_gt_iff; lia).
  - destruct (Z.compare_spec ex ey) as [-> | Hlt | Hgt].
    + change (PosDef.Pos.compare_cont Eq mx my) with (Pos.compare mx my).
      destruct (Pos.compare_spec mx my); cbn [CompOpp];
        [apply Z.compare_eq_iff | apply Z.compare_gt_iff | apply Z.compare_lt_iff]; lia.
    + apply Z.compare_gt_iff; nia.
    + apply Z.compare_lt_iff; nia.
  - destruct (Z.compare_spec ex ey) as [-> | Hlt | Hgt].
    + change (PosDef.Pos.compare_cont Eq mx my) with (Pos.compare mx my).
      destruct (Pos.compare_spec mx my);
        [apply Z.compare_eq_iff | apply Z.compare_lt_iff | apply Z.compare_gt_iff]; lia.
    + apply Z.compare_lt_iff; nia.
    + apply Z.compare_gt_iff; nia.
Qed.


(** ** The sign of a rounded result *)

Lemma shr_1_m (mrs : shr_record) :
  (0 <= shr_m mrs)%Z -> shr_m (shr_1 mrs) = (shr_m mrs / 2)%Z.
Proof.
  destruct mrs as [m r s]. cbn [shr_m shr_1]. intros Hm.
  destruct m as [ | [p | p | ] | p]; cbn [shr_m]; try reflexivity; try lia.
  - apply Z.div_unique with 1%Z; lia.
  - apply Z.div_unique with 0%Z; lia.
Qed.

Lemma iter_shr_1_m (p : positive) (mrs : shr_record) :
  (0 <= shr_m mrs)%Z ->
  shr_m (SpecFloat.iter_pos shr_1 p mrs) = (shr_m mrs / 2 ^ Zpos p)%Z.
Proof.
  revert mrs. induction p as [p IH | p IH | ]; intros mrs Hm; cbn [SpecFloat.iter_pos].
  - assert (H1 : (0 <= shr_m (shr_1 mrs))%Z).
    { rewrite shr_1_m by assumption. apply Z.div_pos; lia. }
    assert (H2 : (0 <= shr_m (SpecFloat.iter_pos shr_1 p (shr_1 mrs)))%Z).
    { rewrite IH by assumption. apply Z.div_pos; lia. }
    rewrite IH, IH, shr_1_m by assumption.
    rewrite !Z.div_div by lia.
    f_equal. rewrite <- (Z.pow_1_r 2) at 1.
    rewrite <- !Z.pow_add_r by lia. f_equal. lia.
  - assert (H2 : (0 <= shr_m (SpecFloat.iter_pos shr_1 p mrs))%Z).
    { rewrite IH by assumption. apply Z.div_pos; lia. }
    rewrite IH, IH by assumption.
    rewrite !Z.div_div by lia.
    f_equal. rewrite <- Z.pow_add_r by lia. f_equal. lia.
  - rewrite shr_1_m by assumption. reflexivity.
Qed.

Lemma shr_record_of_loc_m (m : Z) (l : location) :
  shr_m (shr_record_of_loc m l) = m.
Proof. destruct l as [ | [ | | ]]; reflexivity. Qed.

Lemma shr_fexp_pos (m : positive) (e : Z) (l : location) :
  (emin <= e)%Z ->
  (0 < shr_m (fst (shr_fexp prec emax (Zpos m) e l)))%Z /\
  (emin <= snd (shr_fexp prec emax (Zpos m) e l))%Z.
Proof.
  intros He. unfold shr_fexp, shr, fexp. cbn [Zdigits2].
  pose proof (digits2_pos_bounds m) as [Hlo Hhi].
  set (d := Zpos (digits2_pos m)) in *.
  destruct (Z.max (d + e - prec) emin - e)%Z as [ | p | p] eqn:Hn;
    cbn [fst snd]; rewrite ?shr_record_of_loc_m; try lia.
  assert (Hp : Zpos p = (d - prec)%Z) by lia.
  split; [ | lia].
  rewrite iter_shr_1_m by (rewrite shr_record_of_loc_m; lia).
  rewrite shr_record_of_loc_m.
  apply Z.div_str_pos. split; [apply Z.pow_pos_nonneg; lia | ].
  eapply Z.le_trans; [ | exact Hlo].
  apply Z.pow_le_mono_r; [lia | ]. change prec with 53%Z in Hp. lia.
Qed.

Lemma round_nearest_even_pos (m : Z) (l : location) :
  (0 < m)%Z -> (0 < round_nearest_even m l)%Z.
Proof.
  intros Hm. destruct l as [ | [ | | ]]; cbn [round_nearest_even]; try lia.
  destruct (Z.even m); lia.
Qed.

Lemma binary_round_aux_signed (s : bool) (m : positive) (e : Z) (l : location) :
  (emin <= e)%Z -> signed s (binary_round_aux prec emax s (Zpos m) e l).
Proof.
  intros He. unfold binary_round_aux.
  pose proof (shr_fexp_pos m e l He) as [H1 H2].
  destruct (shr_fexp prec emax (Zpos m) e l) as [mrs' e']. cbn [fst snd] in H1, H2.
  pose proof (round_nearest_even_pos _ (loc_of_shr_record mrs') H1) as H3.
  destruct (round_nearest_even (shr_m mrs') (loc_of_shr_record mrs')) as [ | m1 | m1];
    try lia.
  pose proof (shr_fexp_pos m1 e' loc_Exact H2) as [H4 _].
  destruct (shr_fexp prec emax (Zpos m1) e' loc_Exact) as [mrs'' e''].
  cbn [fst] in H4.
  destruct (shr_m mrs'') as [ | m2 | m2]; try lia.
  destruct (e'' <=? emax - prec)%Z; reflexivity.
Qed.

Lemma binary_round_signed (s : bool) (m : positive) (e : Z) :
  (emin <= e)%Z -> signed s (binary_round prec emax s m e).
Proof.
  intros He. unfold binary_round, shl_align.
  destruct (fexp prec emax (Zpos (digits2_pos m) + e) - e)%Z as [ | p | p] eqn:Hn;
    apply binary_round_aux_signed; try assumption.
  unfold fexp in *. lia.
Qed.


(** ** Subtraction and comparison *)

Lemma iter_xO_pow (m d : positive) :
  Zpos (Pos.iter xO m d) = (Zpos m * 2 ^ Zpos d)%Z.
Proof.
  induction d as [ | d IH] using Pos.peano_ind.
  - cbn [Pos.iter]. lia.
  - rewrite Pos.iter_succ, Pos2Z.inj_xO, IH, Pos2Z.inj_succ, Z.pow_succ_r by lia. lia.
Qed.

Lemma shl_align_fst (m : positive) (e e' : Z) :
  (e' <= e)%Z -> Zpos (fst (shl_align m e e')) = (Zpos m * 2 ^ (e - e'))%Z.
Proof.
  intros He. unfold shl_align.
  destruct (e' - e)%Z as [ | p | p] eqn:Hd; cbn [fst]; try lia.
  - replace (e - e')%Z with 0%Z by lia. lia.
  - rewrite iter_xO_pow. f_equal. f_equal. lia.
Qed.

Lemma aligned_compare (mx my : positive) (ex ey : Z) :
  bounded prec emax mx ex = true -> bounded prec emax my ey = true ->
  (Zpos mx * 2 ^ (ex - Z.min ex ey) ?= Zpos my * 2 ^ (ey - Z.min ex ey))%Z =
  (magnitude mx ex ?= magnitude my ey)%Z.
Proof.
  intros Hx Hy. unfold magnitude.
  apply bounded_inv in Hx as (Hex & Hmx & Hnx).
  apply bounded_inv in Hy as (Hey & Hmy & Hny).
  rewrite emin_val in *. change prec with 53%Z in *.
  change (2 ^ (53 - 1))%Z with 4503599627370496%Z in *.
  change (2 ^ 53)%Z with 9007199254740992%Z in *.
  destruct (Z.lt_total ex ey) as [Hlt | [-> | Hgt]].
  - rewrite Z.min_l by lia. replace (ex - ex)%Z with 0%Z by lia.
    assert (H2 : (2 ^ 1 <= 2 ^ (ey - ex))%Z) by (apply Z.pow_le_mono_r; lia).
    change (2 ^ 1)%Z with 2%Z in H2. change (2 ^ 0)%Z with 1%Z.
    specialize (Hny ltac:(lia)).
    transitivity Lt; [apply Z.compare_lt_iff | symmetry; apply Z.compare_lt_iff]; nia.
  - rewrite Z.min_id. replace (ey - ey)%Z with 0%Z by lia. change (2 ^ 0)%Z with 1%Z.
    rewrite !Z.mul_1_r. symmetry. apply Z.add_compare_mono_l.
  - rewrite Z.min_r by lia. replace (ey - ey)%Z with 0%Z by lia.
    assert (H2 : (2 ^ 1 <= 2 ^ (ex - ey))%Z) by (apply Z.pow_le_mono_r; lia).
    change (2 ^ 1)%Z with 2%Z in H2. change (2 ^ 0)%Z with 1%Z.
    specialize (Hnx ltac:(lia)).
    transitivity Gt; [apply Z.compare_gt_iff | symmetry; apply Z.compare_gt_iff]; nia.
Qed.

Lemma signed_ltb_zero (s : bool) (x : spec_float) :
  signed s x -> SFltb x (S754_zero false) = s.
Proof. destruct x as [ | s' | | s' m e]; cbn; intros H; try contradiction; now destruct s', s. Qed.

Lemma SFltb_rank (x y : spec_float) :
  valid_binary x = true -> valid_binary y = true ->
  x <> S754_nan -> y <> S754_nan ->
  SFltb x y = (SFrank x <? SFrank y)%Z.
Proof.
  intros. unfold SFltb, Z.ltb. rewrite SFcompare_rank by assumption. reflexivity.
Qed.

Lemma SFleb_rank (x y : spec_float) :
  valid_binary x = true -> valid_binary y = true ->
  x <> S754_nan -> y <> S754_nan ->
  SFleb x y = (SFrank x <=? SFrank y)%Z.
Proof.
  intros. unfold SFleb, Z.leb. rewrite SFcompare_rank by assumption.
  now destruct (SFrank x ?= SFrank y)%Z.
Qed.

Lemma SFeqb_rank (x y : spec_float) :
  valid_binary x = true -> valid_binary y = true ->
  x <> S754_nan -> y <> S754_nan ->
  SFeqb x y = (SFrank x =? SFrank y)%Z.
Proof.
  intros. unfold SFeqb. rewrite SFcompare_rank by assumption.
  destruct (Z.compare_spec (SFrank x) (SFrank y));
    destruct (Z.eqb_spec (SFrank x) (SFrank y)); reflexivity || lia.
Qed.

Lemma SFsub_ltb_zero (x y : spec_float) :
  valid_binary x = true -> valid_binary y = true ->
  x <> S754_nan -> y <> S754_nan ->
  SFltb (SF64sub x y) (S754_zero false) = SFltb x y.
Proof.
  intros Hx Hy Nx Ny.
  destruct x as [sx | sx | | sx mx ex]; try congruence;
  destruct y as [sy | sy | | sy my ey]; try congruence;
  try (destruct sx); try (destruct sy); try reflexivity.
  all: rewrite (SFltb_rank _ _ Hx Hy Nx Ny).
  all: cbn [valid_binary] in Hx, Hy.
  all: pose proof (aligned_compare mx my ex ey Hx Hy) as Hc.
  all: pose proof (bounded_inv _ _ Hx) as (Hex & _ & _).
  all: pose proof (bounded_inv _ _ Hy) as (Hey & _ & _).
  all: unfold SF64sub, SFsub, SFrank, binary_normalize; cbn [cond_Zopp].
  all: rewrite !shl_align_fst by lia.
  all: fold (magnitude mx ex); fold (magnitude my ey).
  all: assert (Hpx : (0 < Zpos mx * 2 ^ (ex - Z.min ex ey))%Z)
         by (apply Z.mul_pos_pos; [lia | apply Z.pow_pos_nonneg; lia]).
  all: assert (Hpy : (0 < Zpos my * 2 ^ (ey - Z.min ex ey))%Z)
         by (apply Z.mul_pos_pos; [lia | apply Z.pow_pos_nonneg; lia]).
  all: assert (Hgx : (0 < magnitude mx ex)%Z) by (unfold magnitude; nia).
  all: assert (Hgy : (0 < magnitude my ey)%Z) by (unfold magnitude; nia).
  all: set (X := (Zpos mx * 2 ^ (ex - Z.min ex ey))%Z) in *.
  all: set (Y := (Zpos my * 2 ^ (ey - Z.min ex ey))%Z) in *.
  all: set (MX := magnitude mx ex) in *; set (MY := magnitude my ey) in *.
  all: assert (Hmin : (emin <= Z.min ex ey)%Z) by lia.
  all: match goal with
       | |- SFltb match ?d with _ => _ end _ = _ =>
           destruct d as [ | p | p] eqn:Hd;
           [ | rewrite (signed_ltb_zero false) by (apply binary_round_signed; exact Hmin)
             | rewrite (signed_ltb_zero true) by (apply binary_round_signed; exact Hmin) ]
       end.
  all: cbn [SFltb SFcompare]; symmetry.
  all: destruct (Z.compare_spec X Y) as [HXY | HXY | HXY];
       destruct (Z.compare_spec MX MY) as [HM | HM | HM]; try discriminate Hc.
  all: first [ apply Z.ltb_lt; lia | apply Z.ltb_ge; lia ].
Qed.


(** ** Facts about the primitive operations *)


Lemma SFcompare_refl (x : spec_float) :
  valid_binary x = true -> x <> S754_nan -> SFcompare x x = Some Eq.
Proof.
  intros Hx Nx. rewrite SFcompare_rank by assumption. now rewrite Z.compare_refl.
Qed.

Lemma is_nan_spec (x : float) : is_nan x = true <-> Prim2SF x = S754_nan.
Proof.
  unfold is_nan. rewrite FloatAxioms.eqb_spec. unfold SFeqb. split.
  - intros H. destruct (Prim2SF x) eqn:E; try reflexivity;
      rewrite SFcompare_refl in H; try discriminate;
      (rewrite <- E; apply Prim2SF_valid) || discriminate.
  - intros ->. reflexivity.
Qed.

Lemma not_nan_spec (x : float) : is_nan x = false <-> Prim2SF x <> S754_nan.
Proof.
  pose proof (is_nan_spec x) as [H1 H2].
  destruct (is_nan x); split; intros H; try congruence.
  - now elim H; apply H1.
  - intros E. now specialize (H2 E).
Qed.

Lemma sub_ltb_zero (a b : float) :
  is_nan a = false -> is_nan b = false -> (a - b <? 0)%float = (a <? b)%float.
Proof.
  intros Ha Hb. apply not_nan_spec in Ha, Hb.
  rewrite !FloatAxioms.ltb_spec, FloatAxioms.sub_spec.
  apply SFsub_ltb_zero; auto using Prim2SF_valid.
Qed.

Lemma ltb_rank (a b : float) :
  is_nan a = false -> is_nan b = false -> (a <? b)%float = (rank a <? rank b)%Z.
Proof.
  intros Ha Hb. apply not_nan_spec in Ha, Hb. rewrite FloatAxioms.ltb_spec.
  apply SFltb_rank; auto using Prim2SF_valid.
Qed.

Lemma leb_rank (a b : float) :
  is_nan a = false -> is_nan b = false -> (a <=? b)%float = (rank a <=? rank b)%Z.
Proof.
  intros Ha Hb. apply not_nan_spec in Ha, Hb. rewrite FloatAxioms.leb_spec.
  apply SFleb_rank; auto using Prim2SF_valid.
Qed.

Lemma eqb_rank (a b : float) :
  is_nan a = false -> is_nan b = false -> (a =? b)%float = (rank a =? rank b)%Z.
Proof.
  intros Ha Hb. apply not_nan_spec in Ha, Hb. rewrite FloatAxioms.eqb_spec.
  apply SFeqb_rank; auto using Prim2SF_valid.
Qed.

Lemma leb_nan_r (a b : float) : is_nan b = true -> (a <=? b)%float = false.
Proof.
  intros Hb. apply is_nan_spec in Hb. rewrite FloatAxioms.leb_spec, Hb.
  now destruct (Prim2SF a).
Qed.

Lemma leb_nan_l (a b : float) : is_nan a = true -> (a <=? b)%float = false.
Proof. intros Ha. apply is_nan_spec in Ha. now rewrite FloatAxioms.leb_spec, Ha. Qed.

Lemma ltb_true_leb_false (a b : float) :
  (a <? b)%float = true -> (b <=? a)%float = false.
Proof.
  intros H. destruct (is_nan a) eqn:Ea; [now apply leb_nan_r | ].
  destruct (is_nan b) eqn:Eb; [now apply leb_nan_l | ].
  rewrite ltb_rank in H by assumption. rewrite leb_rank by assumption.
  apply Z.ltb_lt in H. apply Z.leb_gt. exact H.
Qed.

Lemma add_nan_l (a b : float) : is_nan a = true -> is_nan (a + b) = true.
Proof.
  intros Ha. apply is_nan_spec in Ha. apply is_nan_spec.
  now rewrite FloatAxioms.add_spec, Ha.
Qed.

Lemma add_nan_r (a b : float) : is_nan b = true -> is_nan (a + b) = true.
Proof.
  intros Hb. apply is_nan_spec in Hb. apply is_nan_spec.
  rewrite FloatAxioms.add_spec, Hb. now destruct (Prim2SF a).
Qed.

Lemma mul_nan_r (a b : float) : is_nan b = true -> is_nan (a * b) = true.
Proof.
  intros Hb. apply is_nan_spec in Hb. apply is_nan_spec.
  rewrite FloatAxioms.mul_spec, Hb. now destruct (Prim2SF a).
Qed.

Lemma div_nan_l (a b : float) : is_nan a = true -> is_nan (a / b) = true.
Proof.
  intros Ha. apply is_nan_spec in Ha. apply is_nan_spec.
  now rewrite FloatAxioms.div_spec, Ha.
Qed.

Lemma is_zero_number_eqb (x : float) : is_zero_number x <-> (x =? 0) = true.
Proof.
  unfold is_zero_number. rewrite FloatAxioms.eqb_spec.
  change (Prim2SF 0) with (S754_zero false).
  destruct (Prim2SF x) as [ | [ | ] | | [ | ] ]; cbn; split; intros H;
    try exact I; try reflexivity; try contradiction; discriminate.
Qed.

Lemma mul_zero_l (a b : float) : is_zero_number a -> zero_or_nan (a * b).
Proof.
  unfold is_zero_number, zero_or_nan. rewrite FloatAxioms.mul_spec.
  destruct (Prim2SF a); try contradiction. intros _. now destruct (Prim2SF b).
Qed.

Lemma mul_zero_r (a b : float) : is_zero_number b -> zero_or_nan (a * b).
Proof.
  unfold is_zero_number, zero_or_nan. rewrite FloatAxioms.mul_spec.
  destruct (Prim2SF b); try contradiction. intros _. now destruct (Prim2SF a).
Qed.

Lemma mul_zero_or_nan_r (a b : float) : zero_or_nan b -> zero_or_nan (a * b).
Proof.
  unfold zero_or_nan. rewrite FloatAxioms.mul_spec.
  destruct (Prim2SF b); try contradiction; intros _; now destruct (Prim2SF a).
Qed.

Lemma add_zero_or_nan (a b : float) :
  zero_or_nan a -> zero_or_nan b -> zero_or_nan (a + b).
Proof.
  unfold zero_or_nan. rewrite FloatAxioms.add_spec.
  destruct (Prim2SF a) as [[ | ] | | | ]; try contradiction; intros _;
    destruct (Prim2SF b) as [[ | ] | | | ]; try contradiction; intros _; exact I.
Qed.

Lemma add_zero_number (a b : float) :
  is_zero_number a -> is_zero_number b -> is_zero_number (a + b).
Proof.
  unfold is_zero_number. rewrite FloatAxioms.add_spec.
  destruct (Prim2SF a) as [[ | ] | | | ]; try contradiction; intros _;
    destruct (Prim2SF b) as [[ | ] | | | ]; try contradiction; intros _; exact I.
Qed.

Lemma sqrt_zero_number (a : float) : is_zero_number a -> is_zero_number (sqrt a).
Proof.
  unfold is_zero_number. rewrite FloatAxioms.sqrt_spec.
  destruct (Prim2SF a); try contradiction. intros _. exact I.
Qed.

Lemma div_zero_or_nan (a b : float) :
  zero_or_nan a -> zero_or_nan b -> is_nan (a / b) = true.
Proof.
  unfold zero_or_nan. intros Ha Hb. apply is_nan_spec. rewrite FloatAxioms.div_spec.
  destruct (Prim2SF a); try contradiction;
    destruct (Prim2SF b); try contradiction; reflexivity.
Qed.


(** ** Counting upwards from zero *)

Lemma signed_false_nonnegative (x : spec_float) : signed false x -> nonnegative x.
Proof. destruct x as [ | [ | ] | | [ | ] ]; cbn; intros H; congruence || exact I. Qed.

Lemma add_one_signed (x : float) :
  nonnegative (Prim2SF x) -> signed false (Prim2SF (x + 1)).
Proof.
  intros Hx. rewrite FloatAxioms.add_spec.
  pose proof (Prim2SF_valid x) as Hv.
  change (Prim2SF 1) with (S754_finite false 4503599627370496 (-52)).
  destruct (Prim2SF x) as [sx | [ | ] | | [ | ] mx ex]; cbn in Hx; try contradiction;
    try reflexivity.
  cbn [valid_binary] in Hv. apply bounded_inv in Hv as (Hex & _ & _).
  unfold SF64add, SFadd, binary_normalize; cbn [cond_Zopp].
  rewrite emin_val in Hex.
  assert (Hmin : (emin <= Z.min ex (-52))%Z) by (rewrite emin_val; lia).
  match goal with
  | |- signed false match (Zpos ?a + Zpos ?b)%Z with _ => _ end =>
      change (Zpos a + Zpos b)%Z with (Zpos (a + b))
  end.
  apply binary_round_signed. exact Hmin.
Qed.

Lemma signed_false_not_falsy (x : float) :
  signed false (Prim2SF x) -> falsy x = false.
Proof.
  intros Hx. unfold falsy.
  assert (Hn : is_nan x = false).
  { apply not_nan_spec. intros E. rewrite E in Hx. exact Hx. }
  rewrite Hn, FloatAxioms.eqb_spec. cbn [orb].
  change (Prim2SF 0) with (S754_zero false).
  destruct (Prim2SF x) as [ | [ | ] | | [ | ] ]; cbn in Hx; try contradiction;
    try discriminate; reflexivity.
Qed.

(** ** Operations that cannot produce NaN *)

Lemma shr_fexp_nonneg (m e : Z) (l : location) :
  (0 <= m)%Z -> (0 <= shr_m (fst (shr_fexp prec emax m e l)))%Z.
Proof.
  intros Hm. unfold shr_fexp, shr.
  destruct (fexp prec emax (Zdigits2 m + e) - e)%Z as [ | p | p];
    cbn [fst]; rewrite ?shr_record_of_loc_m; try assumption.
  rewrite iter_shr_1_m by (rewrite shr_record_of_loc_m; assumption).
  rewrite shr_record_of_loc_m. apply Z.div_pos; [assumption | ].
  apply Z.pow_pos_nonneg; lia.
Qed.

Lemma round_nearest_even_nonneg (m : Z) (l : location) :
  (0 <= m)%Z -> (0 <= round_nearest_even m l)%Z.
Proof.
  intros Hm. destruct l as [ | [ | | ]]; cbn [round_nearest_even]; try lia.
  destruct (Z.even m); lia.
Qed.

Lemma binary_round_aux_not_nan (s : bool) (m e : Z) (l : location) :
  (0 <= m)%Z -> binary_round_aux prec emax s m e l <> S754_nan.
Proof.
  intros Hm. unfold binary_round_aux.
  pose proof (shr_fexp_nonneg m e l Hm) as H1.
  destruct (shr_fexp prec emax m e l) as [mrs' e']. cbn [fst] in H1.
  pose proof (round_nearest_even_nonneg _ (loc_of_shr_record mrs') H1) as H2.
  pose proof (shr_fexp_nonneg _ e' loc_Exact H2) as H3.
  destruct (shr_fexp prec emax _ e' loc_Exact) as [mrs'' e'']. cbn [fst] in H3.
  destruct (shr_m mrs'') as [ | m2 | m2]; try lia; try discriminate.
  destruct (e'' <=? emax - prec)%Z; discriminate.
Qed.

Lemma binary_normalize_not_nan (m e : Z) (sz : bool) :
  binary_normalize prec emax m e sz <> S754_nan.
Proof.
  unfold binary_normalize, binary_round.
  destruct m as [ | p | p]; try discriminate.
  - destruct (shl_align p e _) as [mz ez]. apply binary_round_aux_not_nan. lia.
  - destruct (shl_align p e _) as [mz ez]. apply binary_round_aux_not_nan. lia.
Qed.

Lemma add_finite_l (a b : float) :
  isFinite a = true -> is_nan b = false -> is_nan (a + b) = false.
Proof.
  unfold isFinite. intros Ha Hb. apply not_nan_spec in Hb. apply not_nan_spec.
  rewrite FloatAxioms.add_spec.
  destruct (Prim2SF a) as [sa | sa | | sa ma ea]; try discriminate;
    destruct (Prim2SF b) as [sb | sb | | sb mb eb]; try congruence;
    try (destruct sa, sb; discriminate).
  apply binary_normalize_not_nan.
Qed.

Lemma sub_finite_r (a b : float) :
  is_nan a = false -> isFinite b = true -> is_nan (a - b) = false.
Proof.
  unfold isFinite. intros Ha Hb. apply not_nan_spec in Ha. apply not_nan_spec.
  rewrite FloatAxioms.sub_spec.
  destruct (Prim2SF b) as [sb | sb | | sb mb eb]; try discriminate;
    destruct (Prim2SF a) as [sa | sa | | sa ma ea]; try congruence;
    try (destruct sa, sb; discriminate).
  apply binary_normalize_not_nan.
Qed.

Lemma mul_finite_nonzero_l (a b : float) :
  (exists s m e, Prim2SF a = S754_finite s m e) ->
  is_nan b = false -> is_nan (a * b) = false.
Proof.
  intros (s & m & e & Ha) Hb. apply not_nan_spec in Hb. apply not_nan_spec.
  rewrite FloatAxioms.mul_spec, Ha.
  destruct (Prim2SF b) as [sb | sb | | sb mb eb]; try congruence; try discriminate.
  apply binary_round_aux_not_nan. lia.
Qed.

End NumberFacts.

(** ** Arrays: what [sort] guarantees *)

Module ArrayFacts.

Import JsArray.

Section SortFacts.

Context {A : Type}.
Variable comparefn : A -> A -> float.
Variable key : A -> Z.

Lemma insert_Permutation (x : A) (l : list A) :
  Permutation (insert comparefn x l) (x :: l).
Proof.
  induction l as [ | y rest IH]; cbn [insert].
  - reflexivity.
  - destruct (comparefn x y <? 0)%float.
    + reflexivity.
    + rewrite IH. apply perm_swap.
Qed.

Lemma fold_insert_Permutation (l acc : list A) :
  Permutation (fold_left (fun acc x => insert comparefn x acc) l acc) (acc ++ l).
Proof.
  revert acc. induction l as [ | x l IH]; intros acc; cbn [fold_left].
  - now rewrite app_nil_r.
  - rewrite IH, insert_Permutation. cbn [app]. apply Permutation_middle.
Qed.

Lemma sort_Permutation (l : list A) : Permutation (sort comparefn l) l.
Proof. unfold sort. now rewrite fold_insert_Permutation. Qed.

Lemma sort_length (l : list A) : List.length (sort comparefn l) = List.length l.
Proof. apply Permutation_length, sort_Permutation. Qed.

Lemma sort_In (l : list A) (x : A) : In x (sort comparefn l) <-> In x l.
Proof.
  split; apply Permutation_in; [ | symmetry]; apply sort_Permutation.
Qed.

Lemma orders_by_incl (l l' : list A) :
  incl l' l -> orders_by comparefn key l -> orders_by comparefn key l'.
Proof. intros Hi Ho x y Hx Hy. apply Ho; apply Hi; assumption. Qed.

Lemma insert_descending (x : A) (l : list A) :
  orders_by comparefn key (x :: l) -> descending key l ->
  descending key (insert comparefn x l).
Proof.
  unfold descending. intros Ho Hs. induction l as [ | y rest IH]; cbn [insert].
  - constructor; constructor.
  - inversion Hs as [ | ? ? Hrest Hy]; subst.
    rewrite (Ho x y) by (cbn; auto).
    destruct (key y <? key x)%Z eqn:E.
    + apply Z.ltb_lt in E. constructor; [exact Hs | ].
      constructor; [lia | ].
      eapply List.Forall_impl; [ | exact Hy]. cbn. intros; lia.
    + apply Z.ltb_ge in E. constructor.
      * apply IH; [ | exact Hrest].
        eapply orders_by_incl; [ | exact Ho].
        intros a [-> | Ha]; cbn; auto.
      * apply List.Forall_forall. intros a Ha.
        apply (Permutation_in _ (insert_Permutation x rest)) in Ha.
        destruct Ha as [<- | Ha]; [exact E | ].
        rewrite List.Forall_forall in Hy. now apply Hy.
Qed.

Lemma fold_insert_descending (l acc : list A) :
  orders_by comparefn key (acc ++ l) -> descending key acc ->
  descending key (fold_left (fun acc x => insert comparefn x acc) l acc).
Proof.
  revert acc. induction l as [ | x l IH]; intros acc Ho Hs; cbn [fold_left].
  - exact Hs.
  - apply IH.
    + eapply orders_by_incl; [ | exact Ho].
      intros a Ha. apply in_app_or in Ha as [Ha | Ha].
      * apply (Permutation_in _ (insert_Permutation x acc)) in Ha.
        destruct Ha as [<- | Ha]; apply in_or_app; cbn; auto.
      * apply in_or_app; cbn; auto.
    + apply insert_descending; [ | exact Hs].
      eapply orders_by_incl; [ | exact Ho].
      intros a [<- | Ha]; apply in_or_app; cbn; auto.
Qed.

(** For a comparison function that agrees with a key, the result is in
    descending key order. *)
Lemma sort_descending (l : list A) :
  orders_by comparefn key l -> descending key (sort comparefn l).
Proof.
  intros Ho. apply fold_insert_descending; [exact Ho | constructor].
Qed.

Lemma with_key_none (z : Z) (l : list A) :
  Forall (fun a => key a <> z) l -> with_key key z l = [].
Proof.
  unfold with_key. induction 1 as [ | a l Ha _ IH]; cbn [List.filter].
  - reflexivity.
  - apply Z.eqb_neq in Ha. now rewrite Ha.
Qed.

Lemma insert_with_key (x : A) (l : list A) (z : Z) :
  orders_by comparefn key (x :: l) -> descending key l ->
  with_key key z (insert comparefn x l) =
  with_key key z l ++ with_key key z [x].
Proof.
  unfold descending. intros Ho Hs. induction l as [ | y rest IH]; cbn [insert].
  - reflexivity.
  - inversion Hs as [ | ? ? Hrest Hy]; subst.
    rewrite (Ho x y) by (cbn; auto).
    destruct (key y <? key x)%Z eqn:E.
    + apply Z.ltb_lt in E.
      change (x :: y :: rest) with ([x] ++ y :: rest).
      unfold with_key at 1. rewrite List.filter_app.
      fold (with_key key z [x]). fold (with_key key z (y :: rest)).
      destruct (Z.eqb_spec (key x) z) as [Hz | Hz].
      * rewrite (with_key_none z (y :: rest)); [now rewrite app_nil_r | ].
        constructor; [lia | ].
        eapply List.Forall_impl; [ | exact Hy]. cbn. intros; lia.
      * assert (with_key key z [x] = []) as ->
          by (apply with_key_none; constructor; [exact Hz | constructor]).
        now rewrite app_nil_r.
    + unfold with_key in *. cbn [List.filter].
      rewrite IH; [ | | exact Hrest].
      * now destruct (key y =? z)%Z.
      * eapply orders_by_incl; [ | exact Ho].
        intros a [-> | Ha]; cbn; auto.
Qed.

Lemma fold_insert_with_key (l acc : list A) (z : Z) :
  orders_by comparefn key (acc ++ l) -> descending key acc ->
  with_key key z (fold_left (fun acc x => insert comparefn x acc) l acc) =
  with_key key z acc ++ with_key key z l.
Proof.
  revert acc. induction l as [ | x l IH]; intros acc Ho Hs; cbn [fold_left].
  - cbn. now rewrite app_nil_r.
  - assert (Hox : orders_by comparefn key (x :: acc)).
    { eapply orders_by_incl; [ | exact Ho].
      intros a [<- | Ha]; apply in_or_app; cbn; auto. }
    rewrite IH.
    + rewrite insert_with_key by assumption.
      rewrite <- app_assoc. f_equal.
      change (x :: l) with ([x] ++ l). unfold with_key. now rewrite List.filter_app.
    + eapply orders_by_incl; [ | exact Ho].
      intros a Ha. apply in_app_or in Ha as [Ha | Ha].
      * apply (Permutation_in _ (insert_Permutation x acc)) in Ha.
        destruct Ha as [<- | Ha]; apply in_or_app; cbn; auto.
      * apply in_or_app; cbn; auto.
    + now apply insert_descending.
Qed.

(** Stability: the elements of one key keep their relative order. *)
Lemma sort_stable (l : list A) (z : Z) :
  orders_by comparefn key l ->
  with_key key z (sort comparefn l) = with_key key z l.
Proof.
  intros Ho. unfold sort. rewrite fold_insert_with_key; [reflexivity | exact Ho | constructor].
Qed.

Lemma insert_last (x : A) (l : list A) :
  orders_by comparefn key (x :: l) ->
  Forall (fun y => (key x <= key y)%Z) l ->
  insert comparefn x l = l ++ [x].
Proof.
  intros Ho Hl. induction Hl as [ | y rest Hy _ IH]; cbn [insert].
  - reflexivity.
  - rewrite (Ho x y) by (cbn; auto).
    apply Z.ltb_ge in Hy. rewrite Hy. cbn [app]. f_equal.
    apply IH. eapply orders_by_incl; [ | exact Ho].
    intros a [-> | Ha]; cbn; auto.
Qed.

Lemma descending_app_inv (l1 l2 : list A) :
  descending key (l1 ++ l2) ->
  descending key l1 /\ descending key l2 /\
  forall a b, In a l1 -> In b l2 -> (key b <= key a)%Z.
Proof.
  unfold descending. induction l1 as [ | x l1 IH]; cbn [app]; intros H.
  - repeat split; [constructor | exact H | intros a b []].
  - inversion H as [ | ? ? Hrest Hx]; subst.
    destruct (IH Hrest) as (H1 & H2 & H3).
    rewrite List.Forall_forall in Hx.
    repeat split; [ | exact H2 | ].
    + constructor; [exact H1 | ].
      apply List.Forall_forall. intros a Ha. apply Hx, in_or_app. now left.
    + intros a b [<- | Ha] Hb; [apply Hx, in_or_app; now right | now apply H3].
Qed.

Lemma fold_insert_descending_id (l acc : list A) :
  orders_by comparefn key (acc ++ l) -> descending key (acc ++ l) ->
  fold_left (fun acc x => insert comparefn x acc) l acc = acc ++ l.
Proof.
  revert acc. induction l as [ | x l IH]; intros acc Ho Hs; cbn [fold_left].
  - now rewrite app_nil_r.
  - rewrite insert_last.
    + rewrite IH; rewrite <- app_assoc; [reflexivity | exact Ho | exact Hs].
    + eapply orders_by_incl; [ | exact Ho].
      intros a [<- | Ha]; apply in_or_app; cbn; auto.
    + destruct (descending_app_inv _ _ Hs) as (_ & _ & H3).
      apply List.Forall_forall. intros y Hy. apply H3; cbn; auto.
Qed.

(** Sorting an array that is already in descending order changes nothing. *)
Lemma sort_descending_id (l : list A) :
  orders_by comparefn key l -> descending key l -> sort comparefn l = l.
Proof.
  intros Ho Hs. unfold sort. now rewrite fold_insert_descending_id.
Qed.

End SortFacts.

Lemma slice_to_length {A : Type} (l : list A) (k : Z) :
  (0 <= k)%Z ->
  (Z.of_nat (List.length (slice_to l k)) <= k)%Z /\
  (List.length (slice_to l k) <= List.length l)%nat.
Proof.
  intros Hk. unfold slice_to.
  destruct (Z.ltb_spec k 0) as [Hlt | _]; [lia | ].
  rewrite length_firstn. lia.
Qed.

Lemma slice_to_firstn {A : Type} (l : list A) (k : Z) :
  (0 <= k)%Z -> slice_to l k = firstn (Z.to_nat k) l.
Proof.
  intros Hk. unfold slice_to.
  destruct (Z.ltb_spec k 0) as [Hlt | _]; [lia | ].
  destruct (Z.le_gt_cases k (Z.of_nat (List.length l))) as [Hle | Hgt].
  - now rewrite Z.min_l.
  - rewrite Z.min_r, Nat2Z.id by lia.
    rewrite !firstn_all2; [reflexivity | lia | lia].
Qed.

Lemma firstn_In {A : Type} (n : nat) (l : list A) (x : A) :
  In x (firstn n l) -> In x l.
Proof.
  intros H. rewrite <- (firstn_skipn n l). apply in_or_app. now left.
Qed.

Lemma slice_to_In {A : Type} (l : list A) (k : Z) (x : A) :
  In x (slice_to l k) -> In x l.
Proof. unfold slice_to. apply firstn_In. Qed.

Lemma StronglySorted_firstn {A : Type} (R : A -> A -> Prop) (n : nat) (l : list A) :
  StronglySorted R l -> StronglySorted R (firstn n l).
Proof.
  intros Hs. revert n. induction Hs as [ | x l Hs IH Hx]; intros [ | n]; cbn [firstn];
    try constructor.
  - apply IH.
  - apply List.Forall_forall. intros y Hy.
    rewrite List.Forall_forall in Hx. apply Hx.
    rewrite <- (firstn_skipn n l). apply in_or_app. now left.
Qed.

Lemma StronglySorted_map {A B : Type} (R : B -> B -> Prop) (f : A -> B) (l : list A) :
  StronglySorted (fun a b => R (f a) (f b)) l -> StronglySorted R (map f l).
Proof.
  induction 1 as [ | x l Hs IH Hx]; cbn [map]; constructor.
  - exact IH.
  - apply List.Forall_forall. intros y Hy.
    apply in_map_iff in Hy as (a & <- & Ha).
    rewrite List.Forall_forall in Hx. now apply Hx.
Qed.

Lemma StronglySorted_weaken {A : Type} (R R' : A -> A -> Prop) (l : list A) :
  (forall a b, In a l -> In b l -> R a b -> R' a b) ->
  StronglySorted R l -> StronglySorted R' l.
Proof.
  intros Hi Hs. induction Hs as [ | x l Hs IH Hx]; constructor.
  - apply IH. intros a b Ha Hb. apply Hi; cbn; auto.
  - apply List.Forall_forall. intros y Hy.
    rewrite List.Forall_forall in Hx. apply Hi; cbn; auto.
Qed.

Lemma with_key_firstn {A : Type} (key : A -> Z) (z : Z) (n : nat) (l : list A) :
  with_key key z l = with_key key z (firstn n l) ++ with_key key z (skipn n l).
Proof.
  unfold with_key. rewrite <- List.filter_app. now rewrite firstn_skipn.
Qed.

End ArrayFacts.

(** ** server/vectorStore.js: scores and [topK] *)

Module VectorStoreFacts.

Import JsNumber NumberFacts JsArray ArrayFacts Chunk VectorStore.
Local Open Scope float_scope.

(** *** When [cosine] is NaN *)

Lemma dot_loop_nan (s : float) (a b : list float) :
  is_nan s = true -> is_nan (dot_loop s a b) = true.
Proof.
  revert s b. induction a as [ | x a IH]; intros s b Hs; cbn [dot_loop].
  - exact Hs.
  - destruct b as [ | y b]; apply IH; now apply add_nan_l.
Qed.

Lemma dot_loop_short (s : float) (a b : list float) :
  (List.length b < List.length a)%nat -> is_nan (dot_loop s a b) = true.
Proof.
  revert s b. induction a as [ | x a IH]; intros s b Hlen; cbn [dot_loop].
  - cbn in Hlen. lia.
  - destruct b as [ | y b].
    + apply dot_loop_nan, add_nan_r, mul_nan_r. reflexivity.
    + apply IH. cbn in Hlen. lia.
Qed.

Lemma nan_zero_or_nan (x : float) : is_nan x = true -> zero_or_nan x.
Proof. intros H. apply is_nan_spec in H. unfold zero_or_nan. now rewrite H. Qed.

Lemma dot_loop_zero_l (s : float) (a b : list float) :
  zero_or_nan s -> Forall is_zero_number a -> zero_or_nan (dot_loop s a b).
Proof.
  intros Hs Ha. revert s b Hs.
  induction Ha as [ | x a Hx _ IH]; intros s b Hs; cbn [dot_loop].
  - exact Hs.
  - destruct b as [ | y b]; apply IH; apply add_zero_or_nan;
      try assumption; now apply mul_zero_l.
Qed.

Lemma dot_loop_zero_r (s : float) (a b : list float) :
  zero_or_nan s -> Forall is_zero_number b -> zero_or_nan (dot_loop s a b).
Proof.
  intros Hs Hb. revert s b Hs Hb.
  induction a as [ | x a IH]; intros s b Hs Hb; cbn [dot_loop].
  - exact Hs.
  - destruct Hb as [ | y b Hy Hb].
    + apply IH; [ | constructor]. apply add_zero_or_nan; [assumption | ].
      apply mul_zero_or_nan_r, nan_zero_or_nan. reflexivity.
    + apply IH; [ | exact Hb]. apply add_zero_or_nan; [assumption | ].
      now apply mul_zero_r.
Qed.

Lemma mul_zero_zero (x y : float) :
  is_zero_number x -> is_zero_number y -> is_zero_number (x * y).
Proof.
  unfold is_zero_number. rewrite FloatAxioms.mul_spec.
  destruct (Prim2SF x); try contradiction; destruct (Prim2SF y); try contradiction.
  intros _ _. exact I.
Qed.

Lemma dot_loop_self_zero (s : float) (a : list float) :
  is_zero_number s -> Forall is_zero_number a -> is_zero_number (dot_loop s a a).
Proof.
  intros Hs Ha. revert s Hs.
  induction Ha as [ | x a Hx _ IH]; intros s Hs; cbn [dot_loop].
  - exact Hs.
  - apply IH. apply add_zero_number; [assumption | now apply mul_zero_zero].
Qed.

Lemma norm_zero (a : list float) : Forall is_zero_number a -> is_zero_number (norm a).
Proof.
  intros Ha. unfold norm, dot. apply sqrt_zero_number, dot_loop_self_zero; [exact I | exact Ha].
Qed.

Lemma cosine_zero_l (a b : list float) :
  Forall is_zero_number a -> is_nan (cosine a b) = true.
Proof.
  intros Ha. unfold cosine. apply div_zero_or_nan.
  - apply dot_loop_zero_l; [exact I | exact Ha].
  - apply mul_zero_l, norm_zero, Ha.
Qed.

Lemma cosine_zero_r (a b : list float) :
  Forall is_zero_number b -> is_nan (cosine a b) = true.
Proof.
  intros Hb. unfold cosine. apply div_zero_or_nan.
  - apply dot_loop_zero_r; [exact I | exact Hb].
  - apply mul_zero_r, norm_zero, Hb.
Qed.

Lemma cosine_longer_query (a b : list float) :
  (List.length b < List.length a)%nat -> is_nan (cosine a b) = true.
Proof.
  intros Hlen. unfold cosine. apply div_nan_l, dot_loop_short, Hlen.
Qed.

Lemma div_by_zero_or_nan (x d : float) : zero_or_nan d -> isFinite (x / d) = false.
Proof.
  unfold zero_or_nan, isFinite. rewrite FloatAxioms.div_spec.
  destruct (Prim2SF d); try contradiction; intros _; now destruct (Prim2SF x).
Qed.

Lemma cosine_zero_norm (a b : list float) :
  is_zero_number (norm a) \/ is_zero_number (norm b) -> isFinite (cosine a b) = false.
Proof.
  intros H. unfold cosine. apply div_by_zero_or_nan.
  destruct H as [H | H]; [now apply mul_zero_l | now apply mul_zero_r].
Qed.

(** C10, as stated, fails for a vector whose computed norm is zero by
    underflow: [norm [1e-200]] is [0], yet the score against [[1]] is
    [1e-200 / 0], which is [+Infinity] and passes a threshold test. *)
Lemma cosine_underflow_is_infinite :
  norm [1e-200] = 0 /\
  cosine [1e-200] [1] = infinity /\
  is_nan (cosine [1e-200] [1]) = false /\
  JsNumber.geb (cosine [1e-200] [1]) 0.2 = true.
Proof. repeat split; vm_compute; reflexivity. Qed.

(** *** [topK] *)

Lemma by_score_desc_orders (l : list (float * chunk)) :
  Forall (fun s => is_nan (fst s) = false) l ->
  orders_by by_score_desc score_key l.
Proof.
  intros Hl x y Hx Hy. rewrite List.Forall_forall in Hl.
  unfold by_score_desc, score_key.
  rewrite sub_ltb_zero by auto. apply ltb_rank; auto.
Qed.

Lemma scored_not_nan (vectors : list chunk) (queryEmb : list float) :
  Forall (fun v => is_nan (cosine queryEmb (embedding v)) = false) vectors ->
  Forall (fun s => is_nan (fst s) = false) (scored vectors queryEmb).
Proof.
  intros H. unfold scored. apply List.Forall_forall. intros s Hs.
  apply in_map_iff in Hs as (v & <- & Hv).
  rewrite List.Forall_forall in H. now apply H.
Qed.

Lemma topK_length (vectors : list chunk) (queryEmb : list float) (k : Z) :
  (0 <= k)%Z ->
  (Z.of_nat (List.length (topK vectors queryEmb k)) <= k)%Z /\
  (List.length (topK vectors queryEmb k) <= List.length vectors)%nat.
Proof.
  intros Hk. unfold topK. rewrite length_map.
  destruct (slice_to_length (sort by_score_desc (scored vectors queryEmb)) k Hk) as [H1 H2].
  split; [exact H1 | ].
  rewrite sort_length in H2. unfold scored in H2. now rewrite length_map in H2.
Qed.

Lemma topK_sorted (vectors : list chunk) (queryEmb : list float) (k : Z) :
  (0 <= k)%Z ->
  Forall (fun v => is_nan (cosine queryEmb (embedding v)) = false) vectors ->
  StronglySorted (fun a b => (Candidate.score b <=? Candidate.score a) = true)
    (topK vectors queryEmb k).
Proof.
  intros Hk Hv. apply scored_not_nan in Hv.
  pose proof (sort_descending _ _ _ (by_score_desc_orders _ Hv)) as Hs.
  unfold topK. rewrite slice_to_firstn by assumption.
  apply StronglySorted_map, StronglySorted_firstn.
  eapply StronglySorted_weaken; [ | exact Hs].
  intros a b Ha Hb Hab. cbn.
  rewrite List.Forall_forall in Hv.
  apply sort_In in Ha, Hb.
  rewrite leb_rank by auto. now apply Z.leb_le.
Qed.

Lemma eqb_nan_r (x s : float) : is_nan s = true -> (x =? s) = false.
Proof.
  intros H. apply is_nan_spec in H. rewrite FloatAxioms.eqb_spec, H.
  now destruct (Prim2SF x).
Qed.

Lemma filter_score_with_key (s : float) (l : list (float * chunk)) :
  is_nan s = false ->
  Forall (fun x => is_nan (fst x) = false) l ->
  List.filter (fun x => fst x =? s) l = with_key score_key (rank s) l.
Proof.
  intros Hs Hl. unfold with_key. apply filter_ext_in. intros x Hx.
  rewrite List.Forall_forall in Hl. unfold score_key.
  apply eqb_rank; auto.
Qed.

Lemma filter_map_comm {A B : Type} (f : A -> B) (p : B -> bool) (l : list A) :
  List.filter p (map f l) = map f (List.filter (fun a => p (f a)) l).
Proof.
  induction l as [ | a l IH]; cbn; [reflexivity | ].
  destruct (p (f a)); cbn; now rewrite IH.
Qed.

Lemma filter_none {A : Type} (p : A -> bool) (l : list A) :
  (forall x, In x l -> p x = false) -> List.filter p l = [].
Proof.
  induction l as [ | a l IH]; intros H; cbn; [reflexivity | ].
  rewrite (H a) by (cbn; auto). apply IH. intros x Hx. apply H. cbn; auto.
Qed.

Lemma topK_ties (vectors : list chunk) (queryEmb : list float) (k : Z) (s : float) :
  (0 <= k)%Z ->
  Forall (fun v => is_nan (cosine queryEmb (embedding v)) = false) vectors ->
  exists rest,
    List.filter (fun c => Candidate.score c =? s) (map to_candidate (scored vectors queryEmb)) =
    List.filter (fun c => Candidate.score c =? s) (topK vectors queryEmb k) ++ rest.
Proof.
  intros Hk Hv. apply scored_not_nan in Hv.
  pose proof (by_score_desc_orders _ Hv) as Ho.
  unfold topK. rewrite slice_to_firstn by assumption.
  rewrite !filter_map_comm. cbn [to_candidate Candidate.score].
  set (n := Z.to_nat k).
  set (sorted := sort by_score_desc (scored vectors queryEmb)).
  destruct (is_nan s) eqn:Es.
  - exists []. rewrite app_nil_r.
    rewrite !filter_none; [reflexivity | | ]; intros x _; now apply eqb_nan_r.
  - exists (map to_candidate (with_key score_key (rank s) (skipn n sorted))).
    rewrite <- map_app. f_equal.
    rewrite !filter_score_with_key; try assumption.
    + rewrite <- (sort_stable by_score_desc score_key _ _ Ho).
      apply with_key_firstn.
    + apply List.Forall_forall. intros x Hx.
      rewrite List.Forall_forall in Hv. apply Hv.
      apply (sort_In by_score_desc). unfold sorted in Hx.
      rewrite <- (firstn_skipn n (sort by_score_desc (scored vectors queryEmb))).
      apply in_or_app. now left.
Qed.

Lemma topK_scores (vectors : list chunk) (queryEmb : list float) (k : Z)
  (c : Candidate.candidate) :
  In c (topK vectors queryEmb k) ->
  exists v, In v vectors /\ Candidate.score c = cosine queryEmb (embedding v).
Proof.
  unfold topK. intros H.
  apply in_map_iff in H as ([x v] & <- & H).
  apply slice_to_In in H. apply (proj1 (sort_In by_score_desc _ _)) in H.
  unfold scored in H.
  apply in_map_iff in H as (v' & [= <- <-] & Hv'). now exists v'.
Qed.

(** C5, as amended.  For every collection, query embedding and [k >= 1],
    [topK] returns at most [k] and at most as many records as the
    collection holds, and none for an empty collection.  When no cosine
    score is NaN, the result is in non-increasing score order and, for
    every score value, the returned records with that score are the first
    of the collection's records with that score, in insertion order. *)
Theorem topK_bounded_sorted_stable (vectors : list chunk) (queryEmb : list float) (k : Z) :
  (1 <= k)%Z ->
  let result := topK vectors queryEmb k in
  (Z.of_nat (List.length result) <= k)%Z /\
  (List.length result <= List.length vectors)%nat /\
  topK [] queryEmb k = [] /\
  (Forall (fun v => is_nan (cosine queryEmb (embedding v)) = false) vectors ->
   StronglySorted (fun a b => (Candidate.score b <=? Candidate.score a) = true) result /\
   forall s, exists rest,
     List.filter (fun c => Candidate.score c =? s) (map to_candidate (scored vectors queryEmb)) =
     List.filter (fun c => Candidate.score c =? s) result ++ rest).
Proof.
  intros Hk result.
  assert (Hk0 : (0 <= k)%Z) by lia.
  destruct (topK_length vectors queryEmb k Hk0) as [H1 H2].
  repeat split; try assumption.
  - unfold topK, slice_to. cbn. now rewrite firstn_nil.
  - now apply topK_sorted.
  - intros s. now apply topK_ties.
Qed.

(** C5, an instance: the collection [store_with_tie], query [[1; 1]],
    [k = 2]; no score is NaN there. *)
Lemma topK_bounded_sorted_stable_witness :
  let result := topK Fixtures.store_with_tie [1; 1] 2 in
  (Z.of_nat (List.length result) <= 2)%Z /\
  (List.length result <= List.length Fixtures.store_with_tie)%nat /\
  topK [] [1; 1] 2 = [] /\
  StronglySorted (fun a b => (Candidate.score b <=? Candidate.score a) = true) result /\
  forall s, exists rest,
    List.filter (fun c => Candidate.score c =? s)
      (map to_candidate (scored Fixtures.store_with_tie [1; 1])) =
    List.filter (fun c => Candidate.score c =? s) result ++ rest.
Proof.
  destruct (topK_bounded_sorted_stable Fixtures.store_with_tie [1; 1] 2)
    as (H1 & H2 & H3 & H4); [lia | ].
  destruct H4 as [H5 H6]; [vm_compute; repeat constructor | ].
  repeat split; assumption.
Defined.

(** With the tie of [store_with_tie], the record inserted first wins. *)
Example topK_tie_keeps_insertion_order :
  map Candidate.doc (topK Fixtures.store_with_tie [1; 1] 2) = ["d.txt"; "x.txt"]%string.
Proof. vm_compute. reflexivity. Qed.

(** C5, as stated, fails: a record with an all-zero embedding scores NaN,
    and the result [NaN, 1] is not in non-increasing order; nor is any
    other arrangement of the two scored records. *)
Lemma topK_not_sorted_with_NaN :
  List.map Candidate.score (topK Fixtures.store_with_zero_vector [1; 0] 5) = [nan; 1] /\
  ~ StronglySorted (fun a b => (Candidate.score b <=? Candidate.score a) = true)
      (topK Fixtures.store_with_zero_vector [1; 0] 5) /\
  forall l,
    Permutation (map to_candidate (scored Fixtures.store_with_zero_vector [1; 0])) l ->
    ~ StronglySorted (fun a b => (Candidate.score b <=? Candidate.score a) = true) l.
Proof.
  split; [vm_compute; reflexivity | ]. split.
  - intros H. vm_compute in H.
    inversion H as [ | ? ? _ Hall]; subst.
    inversion Hall as [ | ? ? Hle _]; subst.
    discriminate Hle.
  - intros l Hp H. cbn in Hp.
    apply Permutation_length_2_inv in Hp as [-> | ->];
      inversion H as [ | ? ? _ Hall]; subst;
      inversion Hall as [ | ? ? Hle _]; subst;
      vm_compute in Hle; discriminate Hle.
Qed.

End VectorStoreFacts.

(** ** The ranking pass *)

Module RankerFacts.

Import JsNumber NumberFacts JsArray ArrayFacts Candidate Ranker.
Local Open Scope float_scope.

(** *** The file-name pattern *)

Lemma first_match_leftmost (s m : list ascii) :
  first_match s = Some m ->
  exists pre post,
    s = pre ++ post /\ match_at post = Some m /\
    forall pre' post', s = pre' ++ post' ->
      (List.length pre' < List.length pre)%nat -> match_at post' = None.
Proof.
  induction s as [ | c s IH]; cbn [first_match].
  - destruct (match_at []) eqn:E; [ | discriminate].
    intros [= ->]. exists [], []. repeat split; [exact E | ].
    intros pre' post' _ Hlen. cbn in Hlen. lia.
  - destruct (match_at (c :: s)) eqn:E.
    + intros [= ->]. exists [], (c :: s). repeat split; [exact E | ].
      intros pre' post' _ Hlen. cbn in Hlen. lia.
    + intros H. destruct (IH H) as (pre & post & -> & Hm & Hleft).
      exists (c :: pre), post. repeat split; [exact Hm | ].
      intros [ | c' pre'] post' Heq Hlen.
      * cbn in Heq. now subst post'.
      * cbn in Heq. injection Heq as <- Heq. apply (Hleft pre' post' Heq).
        cbn in Hlen. lia.
Qed.

Lemma match_at_nonempty (s m : list ascii) : match_at s = Some m -> m <> [].
Proof.
  unfold match_at. destruct (span_name s) as [[ | c name] [ | [[ | ] [ | ] [ | ] [ | ] [ | ] [ | ] [ | ] [ | ]] rest]];
    try discriminate.
  destruct (extension_at rest); [ | discriminate]. intros [= <-]. discriminate.
Qed.

Lemma first_match_nonempty (s m : list ascii) : first_match s = Some m -> m <> [].
Proof.
  intros H. destruct (first_match_leftmost s m H) as (_ & post & _ & Hm & _).
  eapply match_at_nonempty, Hm.
Qed.

Lemma toLowerCase_nonempty (m : string) : m <> ""%string -> JsString.toLowerCase m <> ""%string.
Proof.
  destruct m as [ | c m]; [congruence | ]. intros _. cbn. discriminate.
Qed.

Lemma fileMentionMatch_nonempty (q m : string) :
  fileMentionMatch q = Some m -> m <> ""%string.
Proof.
  unfold fileMentionMatch.
  destruct (first_match (list_ascii_of_string q)) as [l | ] eqn:E; [ | discriminate].
  cbn. intros [= <-]. apply first_match_nonempty in E.
  destruct l; [congruence | discriminate].
Qed.

Lemma mentioned_iff (filename : string) (rc : candidate) :
  filename <> ""%string ->
  mentioned filename rc = true <-> JsString.toLowerCase (doc rc) = filename.
Proof.
  intros Hne. unfold mentioned. split.
  - intros H. apply andb_prop in H as [_ H]. now apply String.eqb_eq in H.
  - intros H. apply andb_true_intro. split.
    + destruct (doc rc) eqn:E; [ | reflexivity].
      cbn in H. congruence.
    + now apply String.eqb_eq.
Qed.

Lemma span_name_run (name rest : list ascii) :
  forallb name_unit name = true ->
  span_name (name ++ "."%char :: rest) = (name, "."%char :: rest).
Proof.
  induction name as [ | c name IH]; cbn [forallb app span_name]; intros H.
  - reflexivity.
  - apply andb_prop in H as [Hc Hn]. now rewrite Hc, (IH Hn).
Qed.

Lemma starts_with_ci_app (p ext post : list ascii) :
  JsString.toLowerCase_list ext = p -> starts_with_ci p (ext ++ post) = true.
Proof.
  intros <-. unfold starts_with_ci, JsString.toLowerCase_list.
  apply andb_true_intro. split.
  - apply Nat.leb_le. rewrite length_map, length_app. lia.
  - induction ext as [ | c ext IH]; cbn [map app combine forallb]; [reflexivity | ].
    now rewrite Ascii.eqb_refl, IH.
Qed.

Lemma extension_at_found (ext post : list ascii) :
  In (JsString.toLowerCase_list ext)
     [list_ascii_of_string "txt"; list_ascii_of_string "md"; list_ascii_of_string "pdf"] ->
  extension_at (ext ++ post) <> None.
Proof.
  intros H. unfold extension_at.
  destruct (starts_with_ci (list_ascii_of_string "txt") (ext ++ post)) eqn:E1;
    [discriminate | ].
  destruct (starts_with_ci (list_ascii_of_string "md") (ext ++ post)) eqn:E2;
    [discriminate | ].
  destruct (starts_with_ci (list_ascii_of_string "pdf") (ext ++ post)) eqn:E3;
    [discriminate | ].
  destruct H as [H | [H | [H | []]]]; symmetry in H;
    apply (starts_with_ci_app _ ext post) in H; congruence.
Qed.

Lemma first_match_suffix (pre s m : list ascii) :
  match_at s = Some m -> first_match (pre ++ s) <> None.
Proof.
  intros H. induction pre as [ | c pre IH]; cbn [app].
  - destruct s; cbn [first_match]; now rewrite H.
  - cbn [first_match]. destruct (match_at (c :: pre ++ s)); [discriminate | exact IH].
Qed.

(** X2.  Every question that contains a token [name.ext], with [name] a
    non-empty run of the units [a-z A-Z 0-9 _ -] and [ext] one of [txt],
    [md], [pdf] in any letter case, has a file mention. *)
Theorem file_name_token_found (pre name ext post : list ascii) :
  name <> [] -> forallb name_unit name = true ->
  In (JsString.toLowerCase_list ext)
     [list_ascii_of_string "txt"; list_ascii_of_string "md"; list_ascii_of_string "pdf"] ->
  fileMentionMatch (string_of_list_ascii (pre ++ name ++ "."%char :: ext ++ post)) <> None.
Proof.
  intros Hne Hname Hext. unfold fileMentionMatch.
  rewrite list_ascii_of_string_of_list_ascii.
  assert (Hm : exists m, match_at (name ++ "."%char :: ext ++ post) = Some m).
  { unfold match_at. rewrite (span_name_run name _ Hname).
    destruct name as [ | c name]; [congruence | ].
    pose proof (extension_at_found ext post Hext) as He.
    destruct (extension_at (ext ++ post)); [eexists; reflexivity | congruence]. }
  destruct Hm as (m & Hm).
  pose proof (first_match_suffix pre _ m Hm) as Hf.
  destruct (first_match (pre ++ name ++ "."%char :: ext ++ post)); [discriminate | congruence].
Qed.

(** X2, an instance. *)
Lemma file_name_token_found_witness :
  fileMentionMatch
    (string_of_list_ascii
       (list_ascii_of_string "see " ++ list_ascii_of_string "Notes_2" ++
        "."%char :: list_ascii_of_string "PDF" ++ list_ascii_of_string ", please")) <> None.
Proof.
  apply (file_name_token_found (list_ascii_of_string "see ") (list_ascii_of_string "Notes_2")
           (list_ascii_of_string "PDF") (list_ascii_of_string ", please")).
  - discriminate.
  - reflexivity.
  - right. right. left. reflexivity.
Defined.

(** *** The boosting loop *)

Lemma boost_as_map (q : string) (rawContexts : list candidate) :
  boost q rawContexts =
  map (fun rc => if mentioned_by q rc then set_score rc (score rc + exactMentionBoost) else rc)
    rawContexts.
Proof.
  unfold boost, mentioned_by. destruct (fileMentionMatch q) as [m | ].
  - reflexivity.
  - now rewrite map_id.
Qed.

Lemma boost_length (q : string) (rawContexts : list candidate) :
  List.length (boost q rawContexts) = List.length rawContexts.
Proof. rewrite boost_as_map. apply length_map. Qed.

Lemma boost_unmentioned (q : string) (l : list candidate) :
  Forall (fun rc => mentioned_by q rc = false) l -> boost q l = l.
Proof.
  intros H. rewrite boost_as_map. rewrite <- (map_id l) at 2.
  apply map_ext_in. intros rc Hrc. rewrite List.Forall_forall in H.
  now rewrite (H rc Hrc).
Qed.

(** *** Filter and fallback *)

Lemma survivors_filtered (thr : float) (l : list candidate) :
  List.filter (passes thr) l <> [] -> survivors thr l = List.filter (passes thr) l.
Proof.
  intros H. unfold survivors.
  destruct (List.filter (passes thr) l); [congruence | reflexivity].
Qed.

Lemma survivors_fallback (thr : float) (l : list candidate) :
  List.filter (passes thr) l = [] ->
  survivors thr l = firstn (Nat.min fallbackCount (List.length l)) l.
Proof. intros H. unfold survivors. now rewrite H. Qed.

Lemma survivors_incl (thr : float) (l : list candidate) (c : candidate) :
  In c (survivors thr l) -> In c l.
Proof.
  unfold survivors.
  destruct (List.length (List.filter (passes thr) l) =? 0)%nat; intros H.
  - rewrite <- (firstn_skipn (Nat.min fallbackCount (List.length l)) l).
    apply in_or_app. now left.
  - now apply filter_In in H.
Qed.

Lemma passes_nan (thr : float) (c : candidate) :
  is_nan (score c) = true -> passes thr c = false.
Proof. intros H. unfold passes, geb. now apply leb_nan_r. Qed.

(** *** Document counts *)

Lemma count_number_S (n : nat) : count_number (S n) = count_number n + 1.
Proof. reflexivity. Qed.

Lemma count_number_nonnegative (n : nat) : nonnegative (Prim2SF (count_number n)).
Proof.
  induction n as [ | n IH].
  - exact I.
  - rewrite count_number_S. now apply signed_false_nonnegative, add_one_signed.
Qed.

Lemma count_number_not_falsy (n : nat) : falsy (count_number (S n)) = false.
Proof.
  rewrite count_number_S.
  apply signed_false_not_falsy, add_one_signed, count_number_nonnegative.
Qed.

Lemma count_number_not_nan (n : nat) : is_nan (count_number n) = false.
Proof.
  apply not_nan_spec. intros E.
  pose proof (count_number_nonnegative n) as H. now rewrite E in H.
Qed.

Lemma sharing_doc_cons (d : string) (c : candidate) (l : list candidate) :
  sharing_doc d (c :: l) =
  ((if (doc c =? d)%string then 1 else 0) + sharing_doc d l)%nat.
Proof.
  unfold sharing_doc. cbn [List.filter]. now destruct (doc c =? d)%string.
Qed.

Lemma proto_inherited (d : string) :
  (d =? "__proto__")%string = true -> JsObject.inherited d = true.
Proof. intros H. apply String.eqb_eq in H. now subst d. Qed.

Lemma count_doc_same (m : JsObject.object) (c : candidate) (n : nat) :
  m !! doc c = counted (doc c) n -> count_doc m c !! doc c = counted (doc c) (S n).
Proof.
  intros Hm. unfold count_doc, JsObject.set, JsObject.get. rewrite Hm.
  destruct (doc c =? "__proto__")%string eqn:Ep.
  - rewrite Hm. unfold counted. rewrite Ep. now destruct n.
  - rewrite lookup_insert_eq. unfold counted. rewrite Ep.
    destruct (JsObject.inherited (doc c)) eqn:Ei.
    + destruct n; reflexivity.
    + destruct n as [ | n]; cbn [JsObject.or_zero JsObject.plus_one].
      * reflexivity.
      * now rewrite count_number_not_falsy.
Qed.

Lemma count_doc_other (m : JsObject.object) (c : candidate) (d : string) :
  doc c <> d -> count_doc m c !! d = m !! d.
Proof.
  intros Hne. unfold count_doc, JsObject.set.
  destruct (doc c =? "__proto__")%string; [reflexivity | ].
  now rewrite lookup_insert_ne.
Qed.

Lemma fold_count_doc (l : list candidate) (m : JsObject.object) (f : string -> nat) :
  (forall d, m !! d = counted d (f d)) ->
  forall d, fold_left count_doc l m !! d = counted d (f d + sharing_doc d l).
Proof.
  revert m f. induction l as [ | c l IH]; intros m f Hm d; cbn [fold_left].
  - unfold sharing_doc. cbn. rewrite Nat.add_0_r. apply Hm.
  - rewrite (IH _ (fun d => ((if (doc c =? d)%string then 1 else 0) + f d)%nat)).
    + rewrite sharing_doc_cons.
      replace ((if (doc c =? d)%string then 1 else 0) + f d + sharing_doc d l)%nat
        with (f d + ((if (doc c =? d)%string then 1 else 0) + sharing_doc d l))%nat by lia.
      reflexivity.
    + intros d'.
      destruct (String.eqb_spec (doc c) d') as [<- | Hne].
      * cbn [Nat.add]. apply count_doc_same, Hm.
      * rewrite count_doc_other by assumption. cbn [Nat.add]. apply Hm.
Qed.

Lemma docCounts_of_lookup (l : list candidate) (d : string) :
  docCounts_of l !! d = counted d (sharing_doc d l).
Proof.
  unfold docCounts_of.
  rewrite (fold_count_doc l ∅ (fun _ => O)); [reflexivity | ].
  intros d'. apply lookup_empty.
Qed.

Lemma sharing_doc_In (c : candidate) (l : list candidate) :
  In c l -> (0 < sharing_doc (doc c) l)%nat.
Proof.
  intros H. unfold sharing_doc.
  assert (Hin : In c (List.filter (fun c' => (doc c' =? doc c)%string) l)).
  { apply filter_In. split; [exact H | apply String.eqb_refl]. }
  destruct (List.filter _ l); [destruct Hin | cbn; lia].
Qed.

Lemma read_number_count (c : candidate) (l : list candidate) :
  In c l -> JsObject.inherited (doc c) = false ->
  read_number (docCounts_of l) (doc c) = count_number (sharing_doc (doc c) l).
Proof.
  intros H Hi. unfold read_number, JsObject.get. rewrite docCounts_of_lookup.
  pose proof (sharing_doc_In c l H). unfold counted.
  destruct (sharing_doc (doc c) l); [lia | ].
  destruct (doc c =? "__proto__")%string eqn:Ep.
  - apply proto_inherited in Ep. congruence.
  - now rewrite Hi.
Qed.

(** Under an inherited name the dictionary never reads as a number. *)
Lemma read_number_inherited (l : list candidate) (d : string) :
  JsObject.inherited d = true -> read_number (docCounts_of l) d = nan.
Proof.
  intros Hi. unfold read_number, JsObject.get. rewrite docCounts_of_lookup.
  unfold counted.
  destruct (sharing_doc d l); [now rewrite Hi | ].
  destruct (d =? "__proto__")%string; now rewrite Hi.
Qed.

Lemma filter_Permutation {A : Type} (p : A -> bool) (l l' : list A) :
  Permutation l l' -> Permutation (List.filter p l) (List.filter p l').
Proof.
  induction 1 as [ | x l l' _ IH | x y l | l l' l'' _ IH1 _ IH2]; cbn [List.filter].
  - constructor.
  - destruct (p x); [now constructor | exact IH].
  - destruct (p x), (p y); try reflexivity. apply perm_swap.
  - now transitivity (List.filter p l').
Qed.

Lemma sharing_doc_Permutation (d : string) (l l' : list candidate) :
  Permutation l l' -> sharing_doc d l = sharing_doc d l'.
Proof.
  intros H. unfold sharing_doc. now apply Permutation_length, filter_Permutation.
Qed.

Lemma docCounts_of_Permutation (l l' : list candidate) :
  Permutation l l' -> docCounts_of l = docCounts_of l'.
Proof.
  intros H. apply map_eq. intros d.
  now rewrite !docCounts_of_lookup, (sharing_doc_Permutation d l l' H).
Qed.

(** *** The re-rank *)

Lemma map_base_with_reRankScore (m : JsObject.object) (l : list candidate) :
  map Ranked.base (map (with_reRankScore m) l) = l.
Proof. rewrite map_map. cbn. apply map_id. Qed.

Lemma reRank_Permutation (l : list candidate) :
  Permutation (reRank l) (map (with_reRankScore (docCounts_of l)) l).
Proof. apply sort_Permutation. Qed.

Lemma reRank_base_Permutation (l : list candidate) :
  Permutation (map Ranked.base (reRank l)) l.
Proof.
  rewrite <- (map_base_with_reRankScore (docCounts_of l) l) at 2.
  apply Permutation_map, reRank_Permutation.
Qed.

Lemma reRank_length (l : list candidate) : List.length (reRank l) = List.length l.
Proof.
  rewrite (Permutation_length (reRank_Permutation l)). apply length_map.
Qed.

Lemma reRank_In (l : list candidate) (r : Ranked.ranked) :
  In r (reRank l) ->
  In (Ranked.base r) l /\ r = with_reRankScore (docCounts_of l) (Ranked.base r).
Proof.
  intros H. apply (Permutation_in _ (reRank_Permutation l)) in H.
  apply in_map_iff in H as (c & <- & Hc). now split.
Qed.

Lemma reRank_formula (l : list candidate) (r : Ranked.ranked) :
  In r (reRank l) -> JsObject.inherited (doc (Ranked.base r)) = false ->
  Ranked.reRankScore r =
  score (Ranked.base r) +
  docFrequencyBoostUnit *
    (count_number (sharing_doc (doc (Ranked.base r)) l) - 1).
Proof.
  intros H Hi. destruct (reRank_In l r H) as [Hin Hr].
  rewrite Hr at 1. cbn [with_reRankScore Ranked.reRankScore].
  now rewrite read_number_count.
Qed.

Lemma reRank_inherited (l : list candidate) (r : Ranked.ranked) :
  In r (reRank l) -> JsObject.inherited (doc (Ranked.base r)) = true ->
  is_nan (Ranked.reRankScore r) = true.
Proof.
  intros H Hi. destruct (reRank_In l r H) as [_ Hr].
  rewrite Hr. cbn [with_reRankScore Ranked.reRankScore].
  rewrite read_number_inherited by assumption.
  apply add_nan_r, mul_nan_r. reflexivity.
Qed.

Lemma by_reRankScore_desc_orders (l : list Ranked.ranked) :
  Forall (fun r => is_nan (Ranked.reRankScore r) = false) l ->
  orders_by by_reRankScore_desc reRank_key l.
Proof.
  intros Hl x y Hx Hy. rewrite List.Forall_forall in Hl.
  unfold by_reRankScore_desc, reRank_key.
  rewrite sub_ltb_zero by auto. apply ltb_rank; auto.
Qed.

Lemma descending_reRankScore (l : list Ranked.ranked) :
  Forall (fun r => is_nan (Ranked.reRankScore r) = false) l ->
  descending reRank_key l <->
  StronglySorted (fun a b => (Ranked.reRankScore b <=? Ranked.reRankScore a) = true) l.
Proof.
  intros Hl. rewrite List.Forall_forall in Hl. unfold descending, reRank_key.
  split; apply StronglySorted_weaken; intros a b Ha Hb Hab.
  - rewrite leb_rank by auto. now apply Z.leb_le.
  - rewrite leb_rank in Hab by auto. now apply Z.leb_le.
Qed.

Lemma reRank_not_nan (l : list candidate) :
  Forall (fun r => is_nan (Ranked.reRankScore r) = false) (reRank l) ->
  Forall (fun r => is_nan (Ranked.reRankScore r) = false)
    (map (with_reRankScore (docCounts_of l)) l).
Proof.
  intros H. rewrite List.Forall_forall in *. intros r Hr. apply H.
  now apply (Permutation_in _ (Permutation_sym (reRank_Permutation l))).
Qed.

Lemma reRank_sorted (l : list candidate) :
  Forall (fun r => is_nan (Ranked.reRankScore r) = false) (reRank l) ->
  StronglySorted (fun a b => (Ranked.reRankScore b <=? Ranked.reRankScore a) = true)
    (reRank l).
Proof.
  intros H. apply descending_reRankScore; [exact H | ].
  apply sort_descending, by_reRankScore_desc_orders, reRank_not_nan, H.
Qed.

Lemma filter_reRankScore_with_key (s : float) (l : list Ranked.ranked) :
  is_nan s = false ->
  Forall (fun r => is_nan (Ranked.reRankScore r) = false) l ->
  List.filter (fun r => Ranked.reRankScore r =? s) l = with_key reRank_key (JsNumber.rank s) l.
Proof.
  intros Hs Hl. unfold with_key. apply filter_ext_in. intros x Hx.
  rewrite List.Forall_forall in Hl. unfold reRank_key.
  apply eqb_rank; auto.
Qed.

Lemma reRank_stable (l : list candidate) (s : float) :
  Forall (fun r => is_nan (Ranked.reRankScore r) = false) (reRank l) ->
  List.filter (fun r => Ranked.reRankScore r =? s) (reRank l) =
  List.filter (fun r => Ranked.reRankScore r =? s)
    (map (with_reRankScore (docCounts_of l)) l).
Proof.
  intros H. pose proof (reRank_not_nan l H) as H'.
  destruct (is_nan s) eqn:Es.
  - rewrite !VectorStoreFacts.filter_none; [reflexivity | | ];
      intros x _; now apply VectorStoreFacts.eqb_nan_r.
  - rewrite !filter_reRankScore_with_key by assumption.
    apply sort_stable, by_reRankScore_desc_orders, H'.
Qed.

Lemma reRankScore_defined (m : JsObject.object) (c : candidate) (n : nat) :
  isFinite (score c) = true -> read_number m (doc c) = count_number n ->
  is_nan (Ranked.reRankScore (with_reRankScore m c)) = false.
Proof.
  intros Hf Hn. cbn [with_reRankScore Ranked.reRankScore]. rewrite Hn.
  apply add_finite_l; [exact Hf | ].
  apply mul_finite_nonzero_l; [do 3 eexists; vm_compute; reflexivity | ].
  apply sub_finite_r; [apply count_number_not_nan | reflexivity].
Qed.

(** X3.  When every score is finite and no [doc] is the name of a
    property that an object literal inherits ([constructor], [toString],
    [__proto__], ...), every re-rank score is a number, and the re-rank
    returns the candidates in non-increasing [reRankScore] order. *)
Theorem reRank_sorted_for_finite_scores (candidates : list candidate) :
  Forall (fun c => isFinite (score c) = true) candidates ->
  Forall (fun c => JsObject.inherited (doc c) = false) candidates ->
  Forall (fun r => is_nan (Ranked.reRankScore r) = false) (reRank candidates) /\
  StronglySorted (fun a b => (Ranked.reRankScore b <=? Ranked.reRankScore a) = true)
    (reRank candidates).
Proof.
  intros Hf Hi.
  assert (Hn : Forall (fun r => is_nan (Ranked.reRankScore r) = false) (reRank candidates)).
  { rewrite List.Forall_forall in *. intros r Hr.
    destruct (reRank_In candidates r Hr) as [Hin ->].
    eapply reRankScore_defined; [now apply Hf | ].
    apply read_number_count; [exact Hin | now apply Hi]. }
  split; [exact Hn | now apply reRank_sorted].
Qed.

(** X3, an instance: the survivors of section 8. *)
Lemma reRank_sorted_for_finite_scores_witness :
  Forall (fun r => is_nan (Ranked.reRankScore r) = false) (reRank Fixtures.three_survivors) /\
  StronglySorted (fun a b => (Ranked.reRankScore b <=? Ranked.reRankScore a) = true)
    (reRank Fixtures.three_survivors).
Proof.
  apply (reRank_sorted_for_finite_scores Fixtures.three_survivors);
    repeat constructor.
Defined.

(** A re-ranked list is left as it is by a second re-rank of its candidates. *)
Lemma reRank_idempotent (l : list candidate) :
  Forall (fun r => is_nan (Ranked.reRankScore r) = false) (reRank l) ->
  reRank (map Ranked.base (reRank l)) = reRank l.
Proof.
  intros H. unfold reRank at 1.
  rewrite (docCounts_of_Permutation _ _ (reRank_base_Permutation l)).
  assert (E : map (with_reRankScore (docCounts_of l)) (map Ranked.base (reRank l)) = reRank l).
  { rewrite map_map. rewrite <- (map_id (reRank l)) at 2.
    apply map_ext_in. intros r Hr. symmetry. now apply reRank_In. }
  rewrite E. apply (sort_descending_id by_reRankScore_desc reRank_key).
  - now apply by_reRankScore_desc_orders.
  - apply sort_descending, by_reRankScore_desc_orders, reRank_not_nan, H.
Qed.

(** *** The claims about the ranking pass *)

Lemma filter_all {A : Type} (p : A -> bool) (l : list A) :
  (forall x, In x l -> p x = true) -> List.filter p l = l.
Proof.
  induction l as [ | a l IH]; intros H; cbn; [reflexivity | ].
  rewrite (H a) by (cbn; auto). f_equal. apply IH. intros x Hx. apply H. cbn; auto.
Qed.

Lemma below_threshold_fails (thr : float) (c : candidate) :
  (score c <? thr) = true -> passes thr c = false.
Proof. intros H. unfold passes, geb. now apply ltb_true_leb_false. Qed.

(** C2, as amended.  When the top-K list is not empty and every boosted
    score is below the threshold, the candidates kept by the filter step
    are the first [min 3 n] boosted top-K entries in top-K order; the
    final output is the re-rank of these: it is not empty, has [min 3 n]
    entries and is a reordering of them by re-rank score, which need not
    be the top-K order; it is the top-K order when the re-rank scores of
    these entries are numbers that never increase along that order. *)
Theorem fallback_when_all_below (q : string) (thr : float) (rawContexts : list candidate) :
  rawContexts <> [] ->
  Forall (fun c => (score c <? thr) = true) (boost q rawContexts) ->
  let fallback := firstn (Nat.min 3 (List.length rawContexts)) (boost q rawContexts) in
  let scored := map (with_reRankScore (docCounts_of fallback)) fallback in
  survivors thr (boost q rawContexts) = fallback /\
  rank q thr rawContexts = reRank fallback /\
  rank q thr rawContexts <> [] /\
  List.length (rank q thr rawContexts) = Nat.min 3 (List.length rawContexts) /\
  Permutation (map Ranked.base (rank q thr rawContexts)) fallback /\
  (Forall (fun r => is_nan (Ranked.reRankScore r) = false) scored ->
   StronglySorted (fun a b => (Ranked.reRankScore b <=? Ranked.reRankScore a) = true) scored ->
   map Ranked.base (rank q thr rawContexts) = fallback).
Proof.
  intros Hne Hall fallback scored.
  assert (Hs : survivors thr (boost q rawContexts) = fallback).
  { rewrite survivors_fallback.
    - unfold fallback, fallbackCount. now rewrite boost_length.
    - apply VectorStoreFacts.filter_none. intros c Hc.
      rewrite List.Forall_forall in Hall. now apply below_threshold_fails, Hall. }
  assert (Hr : rank q thr rawContexts = reRank fallback) by (unfold rank; now rewrite Hs).
  assert (Hlen : List.length (rank q thr rawContexts) = Nat.min 3 (List.length rawContexts)).
  { rewrite Hr, reRank_length. unfold fallback.
    rewrite length_firstn, boost_length. lia. }
  split; [exact Hs | ]. split; [exact Hr | ]. split; [ | split; [exact Hlen | split]].
  - intros E. rewrite E in Hlen. cbn in Hlen.
    destruct rawContexts; [congruence | cbn in Hlen; lia].
  - rewrite Hr. apply reRank_base_Permutation.
  - intros Hnan Hsorted. rewrite Hr. unfold reRank. fold scored.
    rewrite (sort_descending_id by_reRankScore_desc reRank_key).
    + apply map_base_with_reRankScore.
    + now apply by_reRankScore_desc_orders.
    + now apply descending_reRankScore.
Qed.

(** C2, an instance: four low scores, the default threshold. *)
Lemma fallback_when_all_below_witness :
  let fallback :=
    firstn (Nat.min 3 (List.length Fixtures.low_scores))
      (boost "what is this about" Fixtures.low_scores) in
  let scored := map (with_reRankScore (docCounts_of fallback)) fallback in
  survivors 0.2 (boost "what is this about" Fixtures.low_scores) = fallback /\
  rank "what is this about" 0.2 Fixtures.low_scores = reRank fallback /\
  rank "what is this about" 0.2 Fixtures.low_scores <> [] /\
  List.length (rank "what is this about" 0.2 Fixtures.low_scores) =
    Nat.min 3 (List.length Fixtures.low_scores) /\
  Permutation (map Ranked.base (rank "what is this about" 0.2 Fixtures.low_scores)) fallback /\
  (Forall (fun r => is_nan (Ranked.reRankScore r) = false) scored ->
   StronglySorted (fun a b => (Ranked.reRankScore b <=? Ranked.reRankScore a) = true) scored ->
   map Ranked.base (rank "what is this about" 0.2 Fixtures.low_scores) = fallback).
Proof.
  apply (fallback_when_all_below "what is this about" 0.2 Fixtures.low_scores).
  - discriminate.
  - vm_compute. repeat constructor.
Defined.

(** C2, as stated, fails: with everything below the threshold the three
    fallback entries A, B, B leave the pass in the order B, B, A. *)
Lemma fallback_order_changed :
  Fixtures.low_scores <> [] /\
  Forall (fun c => (score c <? 0.2) = true) (boost "what is this about" Fixtures.low_scores) /\
  map Ranked.base (rank "what is this about" 0.2 Fixtures.low_scores) <>
  firstn (Nat.min 3 (List.length Fixtures.low_scores)) Fixtures.low_scores /\
  map (fun r => doc (Ranked.base r)) (rank "what is this about" 0.2 Fixtures.low_scores) =
  ["B"; "B"; "A"]%string.
Proof.
  split; [discriminate | ]. split; [vm_compute; repeat constructor | ].
  split; [ | vm_compute; reflexivity].
  intros E. apply (f_equal (map doc)) in E. vm_compute in E. discriminate E.
Qed.

(** C3, as amended.  When the question contains a file-name token, the
    leftmost match [m] of the pattern is the only boost key; a candidate is
    boosted exactly when its [doc], lower-cased, is [m] lower-cased; the
    boosted candidates get [0.6] added to their score and nothing else
    changes, before filtering; and a boosted candidate of the raw top-K
    is in the final output whenever its boosted score reaches the
    threshold, and also when no score reaches it and the candidate is
    among the first three. *)
Theorem exact_mention_boost (q m : string) (thr : float) (rawContexts : list candidate) :
  fileMentionMatch q = Some m ->
  (exists pre post,
     list_ascii_of_string q = pre ++ post /\
     match_at post = Some (list_ascii_of_string m) /\
     forall pre' post', list_ascii_of_string q = pre' ++ post' ->
       (List.length pre' < List.length pre)%nat -> match_at post' = None) /\
  (forall rc, mentioned (JsString.toLowerCase m) rc = true <->
              JsString.toLowerCase (doc rc) = JsString.toLowerCase m) /\
  boost q rawContexts =
    map (fun rc => if mentioned (JsString.toLowerCase m) rc
                   then set_score rc (score rc + 0.6) else rc) rawContexts /\
  (forall rc, In rc rawContexts ->
     mentioned (JsString.toLowerCase m) rc = true ->
     (thr <=? score rc + 0.6) = true ->
     In (set_score rc (score rc + 0.6)) (map Ranked.base (rank q thr rawContexts))) /\
  (forall rc,
     List.filter (passes thr) (boost q rawContexts) = [] ->
     In (set_score rc (score rc + 0.6))
        (firstn (Nat.min 3 (List.length rawContexts)) (boost q rawContexts)) ->
     In (set_score rc (score rc + 0.6)) (map Ranked.base (rank q thr rawContexts))).
Proof.
  intros Hm.
  assert (Hb : boost q rawContexts =
    map (fun rc => if mentioned (JsString.toLowerCase m) rc
                   then set_score rc (score rc + 0.6) else rc) rawContexts).
  { unfold boost. now rewrite Hm. }
  split; [ | split; [ | split; [exact Hb | split]]].
  - unfold fileMentionMatch in Hm.
    destruct (first_match (list_ascii_of_string q)) as [l | ] eqn:E; [ | discriminate].
    cbn in Hm. injection Hm as <-. rewrite list_ascii_of_string_of_list_ascii.
    now apply first_match_leftmost.
  - intros rc. apply mentioned_iff, toLowerCase_nonempty.
    eapply fileMentionMatch_nonempty, Hm.
  - intros rc Hin Hment Hthr.
    set (rc' := set_score rc (score rc + 0.6)).
    assert (Hin' : In rc' (boost q rawContexts)).
    { rewrite Hb. apply in_map_iff. exists rc. now rewrite Hment. }
    assert (Hf : In rc' (List.filter (passes thr) (boost q rawContexts))).
    { apply filter_In. split; [exact Hin' | exact Hthr]. }
    apply (Permutation_in _ (Permutation_sym (reRank_base_Permutation _))).
    rewrite survivors_filtered; [exact Hf | ].
    intros E. now rewrite E in Hf.
  - intros rc Hnone Hin.
    apply (Permutation_in _ (Permutation_sym (reRank_base_Permutation _))).
    rewrite survivors_fallback by assumption.
    unfold fallbackCount. now rewrite boost_length.
Qed.

(** C3, an instance: the question names [simple.txt] before [report.pdf];
    the candidate [Simple.txt] is boosted from 0.1 to 0.7 and is kept. *)
Lemma exact_mention_boost_witness :
  let q := "What does simple.txt say about report.pdf?"%string in
  let m := "simple.txt"%string in
  let rawContexts := [Fixtures.cand 0.9 "report.pdf#0" "report.pdf" 0;
                      Fixtures.cand 0.1 "simple.txt#0" "Simple.txt" 0] in
  (exists pre post,
     list_ascii_of_string q = pre ++ post /\
     match_at post = Some (list_ascii_of_string m) /\
     forall pre' post', list_ascii_of_string q = pre' ++ post' ->
       (List.length pre' < List.length pre)%nat -> match_at post' = None) /\
  (forall rc, mentioned (JsString.toLowerCase m) rc = true <->
              JsString.toLowerCase (doc rc) = JsString.toLowerCase m) /\
  boost q rawContexts =
    map (fun rc => if mentioned (JsString.toLowerCase m) rc
                   then set_score rc (score rc + 0.6) else rc) rawContexts /\
  (forall rc, In rc rawContexts ->
     mentioned (JsString.toLowerCase m) rc = true ->
     (0.2 <=? score rc + 0.6) = true ->
     In (set_score rc (score rc + 0.6)) (map Ranked.base (rank q 0.2 rawContexts))) /\
  (forall rc,
     List.filter (passes 0.2) (boost q rawContexts) = [] ->
     In (set_score rc (score rc + 0.6))
        (firstn (Nat.min 3 (List.length rawContexts)) (boost q rawContexts)) ->
     In (set_score rc (score rc + 0.6)) (map Ranked.base (rank q 0.2 rawContexts))).
Proof.
  apply (exact_mention_boost "What does simple.txt say about report.pdf?" "simple.txt" 0.2).
  vm_compute. reflexivity.
Defined.

(** C3, as stated, fails: the named file is in the raw top-K with score
    [-0.5]; boosted to about [0.1] it stays below the threshold [0.2]
    while another candidate passes, so it is not in the final output. *)
Lemma boosted_candidate_dropped :
  fileMentionMatch "What does simple.txt say?" = Some "simple.txt"%string /\
  (exists rc, In rc Fixtures.with_negative_score /\
              mentioned (JsString.toLowerCase "simple.txt") rc = true) /\
  map (fun r => doc (Ranked.base r))
    (rank "What does simple.txt say?" 0.2 Fixtures.with_negative_score) = ["other.md"]%string.
Proof.
  split; [vm_compute; reflexivity | ]. split; [ | vm_compute; reflexivity].
  exists (Fixtures.cand (-0.5) "simple.txt#0" "Simple.txt" 0).
  split; [cbn; auto | vm_compute; reflexivity].
Qed.

(** C4, as amended.  The re-rank returns the candidates reordered.  A
    candidate whose [doc] is not the name of a property that the object
    literal [docCounts] inherits has
    [reRankScore = score + 0.02 * (n - 1)] computed in binary64, where [n]
    counts the candidates that have the same [doc]; a candidate whose
    [doc] is such a name ([constructor], [toString], [__proto__], ...) has
    the re-rank score NaN, whatever its score.  When no re-rank score
    is NaN the output is in non-increasing [reRankScore] order and
    candidates with equal [reRankScore] keep their relative order.  For
    the survivors A, A, B with scores 0.5, 0.4, 0.45 the re-rank scores are
    0.52, 0.4 + 0.02 (which is 0.42000000000000004, not 0.42) and 0.45, and
    the final order is A, B, A. *)
Theorem reRank_scores_and_order (candidates : list candidate) :
  let ranked := reRank candidates in
  Permutation (map Ranked.base ranked) candidates /\
  (forall r, In r ranked ->
     JsObject.inherited (doc (Ranked.base r)) = false ->
     Ranked.reRankScore r =
     score (Ranked.base r) +
     0.02 * (count_number (sharing_doc (doc (Ranked.base r)) candidates) - 1)) /\
  (forall r, In r ranked ->
     JsObject.inherited (doc (Ranked.base r)) = true ->
     is_nan (Ranked.reRankScore r) = true) /\
  (Forall (fun r => is_nan (Ranked.reRankScore r) = false) ranked ->
   StronglySorted (fun a b => (Ranked.reRankScore b <=? Ranked.reRankScore a) = true) ranked /\
   forall s,
     List.filter (fun r => Ranked.reRankScore r =? s) ranked =
     List.filter (fun r => Ranked.reRankScore r =? s)
       (map (with_reRankScore (docCounts_of candidates)) candidates)) /\
  map (fun r => (doc (Ranked.base r), Ranked.reRankScore r)) (reRank Fixtures.three_survivors) =
  [("A"%string, 0.52); ("B"%string, 0.45); ("A"%string, 0.4 + 0.02)].
Proof.
  intros ranked.
  split; [apply reRank_base_Permutation | ].
  split; [intros r Hr Hi; now apply reRank_formula | ].
  split; [intros r Hr Hi; now apply (reRank_inherited candidates) | ].
  split; [ | vm_compute; reflexivity].
  intros Hnan. split; [now apply reRank_sorted | ].
  intros s. now apply reRank_stable.
Qed.

(** Two survivors of a document called [constructor]: the dictionary
    holds the text of the inherited method followed by two ones, and
    both re-rank scores are NaN; the third survivor is counted once. *)
Example reRank_of_inherited_name :
  docCounts_of Fixtures.with_inherited_name !! "constructor"%string =
    Some (JsObject.Text "constructor" 2) /\
  docCounts_of Fixtures.with_inherited_name !! "notes.txt"%string =
    Some (JsObject.Number 1) /\
  map (fun r => (doc (Ranked.base r), is_nan (Ranked.reRankScore r)))
    (map (with_reRankScore (docCounts_of Fixtures.with_inherited_name))
       Fixtures.with_inherited_name) =
  [("constructor"%string, true); ("constructor"%string, true); ("notes.txt"%string, false)].
Proof. repeat split; vm_compute; reflexivity. Qed.

(** The number [count_number n] is the integer [n] for every count that a
    top-K list of up to 4096 entries can produce. *)
Lemma count_number_exact :
  forallb (fun n => Leibniz.eqb (count_number n) (of_uint63 (Uint63.of_Z (Z.of_nat n))))
    (seq 0 4097) = true.
Proof. vm_compute. reflexivity. Qed.

(** C4, as stated, fails on its own example: the second re-rank score is
    [0.4 + 0.02], one unit in the last place above [0.42].  And a
    candidate list with a NaN score does not come out in descending
    order, however its two entries are arranged. *)
Lemma reRank_example_is_not_decimal :
  map Ranked.reRankScore
    (map (with_reRankScore (docCounts_of Fixtures.three_survivors)) Fixtures.three_survivors)
  <> [0.52; 0.42; 0.45] /\
  ~ StronglySorted (fun a b => (Ranked.reRankScore b <=? Ranked.reRankScore a) = true)
      (reRank Fixtures.with_nan_score) /\
  forall l,
    Permutation
      (map (with_reRankScore (docCounts_of Fixtures.with_nan_score)) Fixtures.with_nan_score) l ->
    ~ StronglySorted (fun a b => (Ranked.reRankScore b <=? Ranked.reRankScore a) = true) l.
Proof.
  split; [ | split].
  - intros E.
    apply (f_equal (fun l => match l with
                             | [_; x; _] => x =? 0.42
                             | _ => false
                             end)) in E.
    vm_compute in E. discriminate E.
  - intros H. vm_compute in H.
    inversion H as [ | ? ? _ Hall]; subst.
    inversion Hall as [ | ? ? Hle _]; subst.
    discriminate Hle.
  - intros l Hp H. cbn [map Fixtures.with_nan_score] in Hp.
    apply Permutation_length_2_inv in Hp as [-> | ->];
      inversion H as [ | ? ? _ Hall]; subst;
      inversion Hall as [ | ? ? Hle _]; subst;
      vm_compute in Hle; discriminate Hle.
Qed.

Lemma survivors_fixed (thr : float) (l kept : list candidate) :
  Permutation kept (survivors thr l) -> survivors thr kept = kept.
Proof.
  intros Hp. destruct (List.filter (passes thr) l) as [ | c f] eqn:Ef.
  - rewrite survivors_fallback in Hp by assumption.
    assert (Hnone : forall x, In x kept -> passes thr x = false).
    { intros x Hx. apply (Permutation_in _ Hp) in Hx. apply firstn_In in Hx.
      destruct (passes thr x) eqn:E; [ | reflexivity].
      assert (In x (List.filter (passes thr) l)) by (apply filter_In; now split).
      rewrite Ef in H. destruct H. }
    rewrite survivors_fallback by (now apply VectorStoreFacts.filter_none).
    apply firstn_all2.
    rewrite (Permutation_length Hp), length_firstn. unfold fallbackCount. lia.
  - rewrite survivors_filtered in Hp by (rewrite Ef; discriminate).
    assert (Hall : forall x, In x kept -> passes thr x = true).
    { intros x Hx. apply (Permutation_in _ Hp) in Hx. now apply filter_In in Hx. }
    rewrite survivors_filtered; rewrite (filter_all _ _ Hall); [reflexivity | ].
    intros E. rewrite E, Ef in Hp. apply Permutation_nil in Hp. discriminate.
Qed.

(** C6, as amended.  When the question names no candidate's file (so that
    the boosting loop changes nothing) and no re-rank score is NaN,
    ranking the output of the ranking pass again, with the same question
    and threshold, returns the same sequence. *)
Theorem rank_idempotent_without_mention (q : string) (thr : float)
  (rawContexts : list candidate) :
  Forall (fun rc => mentioned_by q rc = false) rawContexts ->
  Forall (fun r => is_nan (Ranked.reRankScore r) = false) (rank q thr rawContexts) ->
  rank q thr (map Ranked.base (rank q thr rawContexts)) = rank q thr rawContexts.
Proof.
  intros Hun Hnan. unfold rank in *.
  rewrite (boost_unmentioned q rawContexts Hun) in *.
  set (kept := survivors thr rawContexts) in *.
  assert (Hun' : Forall (fun rc => mentioned_by q rc = false) (map Ranked.base (reRank kept))).
  { rewrite List.Forall_forall in *. intros rc Hrc. apply Hun.
    apply (Permutation_in _ (reRank_base_Permutation kept)) in Hrc.
    now apply survivors_incl in Hrc. }
  rewrite (boost_unmentioned _ _ Hun').
  rewrite (survivors_fixed thr rawContexts) by apply reRank_base_Permutation.
  now apply reRank_idempotent.
Qed.

(** C6, an instance: no file is named, the default threshold. *)
Lemma rank_idempotent_without_mention_witness :
  rank "what is this about" 0.2
    (map Ranked.base (rank "what is this about" 0.2 Fixtures.two_files)) =
  rank "what is this about" 0.2 Fixtures.two_files.
Proof.
  apply (rank_idempotent_without_mention "what is this about" 0.2 Fixtures.two_files);
    vm_compute; repeat constructor.
Defined.

(** C6, as stated, fails: the question names [a.txt]; the first pass
    lifts it from 0.25 to 0.85, behind [b.txt] at 0.9; the second pass
    lifts it again, to 1.45, and it overtakes [b.txt]. *)
Lemma rank_twice_reorders :
  map (fun r => doc (Ranked.base r)) (rank "what is in a.txt" 0.2 Fixtures.two_files) =
    ["b.txt"; "a.txt"]%string /\
  map (fun r => doc (Ranked.base r))
    (rank "what is in a.txt" 0.2
       (map Ranked.base (rank "what is in a.txt" 0.2 Fixtures.two_files))) =
    ["a.txt"; "b.txt"]%string.
Proof. split; vm_compute; reflexivity. Qed.

(** C10, as amended.  [cosine] is a total function on embeddings: every
    operation it performs is arithmetic on numbers (an index past the end
    of an array reads [undefined], which arithmetic turns into NaN), so
    no error is signalled.  Its value is NaN when one of the vectors has
    only zero components or when the query is longer than the stored
    embedding; when a computed norm is zero the value is NaN or an
    infinity; the scores [topK] returns are these cosines; a NaN score
    stays NaN under the boost and never satisfies the threshold test,
    whatever the threshold; and a candidate with a NaN score is in the
    final output only when nothing passed the filter, that is, on the
    fallback path. *)
Theorem NaN_scores_only_through_fallback :
  (forall x : float, is_zero_number x <-> (x =? 0) = true) /\
  (forall a b : list float,
     Forall is_zero_number a \/ Forall is_zero_number b \/
     (List.length b < List.length a)%nat ->
     is_nan (VectorStore.cosine a b) = true) /\
  (forall a b : list float,
     is_zero_number (VectorStore.norm a) \/ is_zero_number (VectorStore.norm b) ->
     isFinite (VectorStore.cosine a b) = false) /\
  (forall vectors queryEmb k c, In c (VectorStore.topK vectors queryEmb k) ->
     exists v, In v vectors /\
               score c = VectorStore.cosine queryEmb (Chunk.embedding v)) /\
  (forall filename c, is_nan (score c) = true ->
     is_nan (score (boost_one filename c)) = true) /\
  (forall thr c, is_nan (score c) = true -> passes thr c = false) /\
  (forall q thr rawContexts r,
     In r (rank q thr rawContexts) -> is_nan (score (Ranked.base r)) = true ->
     List.filter (passes thr) (boost q rawContexts) = [] /\
     survivors thr (boost q rawContexts) =
       firstn (Nat.min 3 (List.length rawContexts)) (boost q rawContexts)).
Proof.
  split; [apply is_zero_number_eqb | ].
  repeat split.
  - intros a b [H | [H | H]].
    + now apply VectorStoreFacts.cosine_zero_l.
    + now apply VectorStoreFacts.cosine_zero_r.
    + now apply VectorStoreFacts.cosine_longer_query.
  - apply VectorStoreFacts.cosine_zero_norm.
  - apply VectorStoreFacts.topK_scores.
  - intros filename c H. unfold boost_one.
    destruct (mentioned filename c); [ | exact H].
    cbn. now apply add_nan_l.
  - apply passes_nan.
  - destruct (List.filter (passes thr) (boost q rawContexts)) as [ | c f] eqn:Ef;
      [reflexivity | exfalso].
    apply reRank_In in H as [H _]. unfold rank in H.
    rewrite survivors_filtered in H by (rewrite Ef; discriminate).
    apply filter_In in H as [_ H]. now rewrite passes_nan in H.
  - destruct (List.filter (passes thr) (boost q rawContexts)) as [ | c f] eqn:Ef.
    + rewrite survivors_fallback by assumption.
      unfold fallbackCount. now rewrite boost_length.
    + exfalso. apply reRank_In in H as [H _]. unfold rank in H.
      rewrite survivors_filtered in H by (rewrite Ef; discriminate).
      apply filter_In in H as [_ H]. now rewrite passes_nan in H.
Qed.

(** A zero query: every score is NaN and the three fallback entries are
    what the pass returns. *)
Example zero_query_takes_fallback :
  map Candidate.score (VectorStore.topK Fixtures.store_with_tie [0; 0] 5) = [nan; nan; nan] /\
  map (fun r => doc (Ranked.base r))
    (rank "what is this about" 0.2 (VectorStore.topK Fixtures.store_with_tie [0; 0] 5)) =
  ["x.txt"; "d.txt"; "y.txt"]%string.
Proof. split; vm_compute; reflexivity. Qed.

End RankerFacts.

(** ** The handler: input validation and the answer contract *)

Module ServerFacts.

Import Json Server.
Local Open Scope string_scope.

Lemma string_length_zero (s : string) : String.length s = 0%nat -> s = "".
Proof. destruct s; [reflexivity | discriminate]. Qed.

Lemma validate_string (s : string) :
  validate (Some (JString s)) =
  if (JsString.length (JsString.trim s) =? 0)%nat
  then Some (bad_request "question required")
  else if (2000 <? JsString.length s)%nat
  then Some (bad_request "question too long")
  else None.
Proof.
  unfold validate. cbn [truthy typeof as_string].
  change ("string" =? "string") with true. cbn [negb orb].
  destruct s as [ | c s].
  - reflexivity.
  - cbn [String.eqb negb orb]. reflexivity.
Qed.

Lemma validate_not_string (q : value) :
  typeof q <> "string" -> validate q = Some (bad_request "question required").
Proof.
  intros H. unfold validate.
  destruct q as [[ | b | n | s | items | members] | ]; cbn [typeof] in *;
    try congruence; cbn; rewrite ?orb_true_r; reflexivity.
Qed.

(** C7.  A question that is a string with some non-blank character is
    accepted when its length is at most 2000 (in particular exactly 2000)
    and rejected with status 400 and ['question too long'] when it is
    longer (in particular 2001); a missing question, one that is not a
    string, and a string that is empty or all white space are rejected
    with status 400 and ['question required']; whenever the validation
    rejects, the handler returns that response without having called a
    provider, and when it accepts, the first thing the handler does is to
    request the embedding of the question. *)
Theorem question_validation (question : value) :
  (forall s, question = Some (JString s) -> JsString.trim s <> "" ->
     (JsString.length s <= 2000)%nat -> validate question = None) /\
  (forall s, question = Some (JString s) -> JsString.trim s <> "" ->
     (2000 < JsString.length s)%nat ->
     validate question = Some (mk_response 400 (JObject [("error", JString "question too long")]))) /\
  (question = None \/ typeof question <> "string" \/
   (exists s, question = Some (JString s) /\ JsString.trim s = "") ->
   validate question = Some (mk_response 400 (JObject [("error", JString "question required")]))) /\
  (forall JSON_parse Number_toString embeddings_create responses_create latency vectors cfg r,
     validate question = Some r ->
     ask JSON_parse Number_toString embeddings_create responses_create latency vectors cfg
       question = ([], r)) /\
  (forall JSON_parse Number_toString embeddings_create responses_create latency vectors cfg,
     validate question = None ->
     exists calls r,
       ask JSON_parse Number_toString embeddings_create responses_create latency vectors cfg
         question = (EmbeddingsCreate (as_string question) :: calls, r)).
Proof.
  split; [ | split; [ | split; [ | split]]].
  - intros s -> Hne Hlen. rewrite validate_string.
    destruct (Nat.eqb_spec (JsString.length (JsString.trim s)) 0) as [E | _].
    + now apply string_length_zero in E.
    + apply Nat.ltb_ge in Hlen. now rewrite Hlen.
  - intros s -> Hne Hlen. rewrite validate_string.
    destruct (Nat.eqb_spec (JsString.length (JsString.trim s)) 0) as [E | _].
    + now apply string_length_zero in E.
    + apply Nat.ltb_lt in Hlen. now rewrite Hlen.
  - intros [-> | [H | (s & -> & H)]].
    + reflexivity.
    + now apply validate_not_string.
    + rewrite validate_string, H. reflexivity.
  - intros JSON_parse Number_toString embeddings_create responses_create latency vectors cfg
      r H.
    unfold ask. now rewrite H.
  - intros JSON_parse Number_toString embeddings_create responses_create latency vectors cfg H.
    unfold ask. rewrite H.
    destruct (embeddings_create (as_string question)) as [qEmb | details].
    + destruct (responses_create _ _); eexists; eexists; reflexivity.
    + eexists; eexists; reflexivity.
Qed.

(** The boundary: 2000 letters pass, 2001 do not, and neither do 2000 blanks. *)
Example question_boundary :
  validate (Fixtures.question_of_length 2000) = None /\
  validate (Fixtures.question_of_length 2001) = Some (bad_request "question too long") /\
  validate (Some (JString (JsString.repeat " "%char 2000))) = Some (bad_request "question required") /\
  validate (Some (JNumber 7)) = Some (bad_request "question required") /\
  validate None = Some (bad_request "question required").
Proof. repeat split; vm_compute; reflexivity. Qed.

(** *** The responses after generation *)

(** C9.  The elements of [used_contexts] in the
    [invalid_model_json_shape] response have exactly the members [doc],
    [chunkIndex] and [score]; those of the [model_response_not_json]
    response and of the success response have [reRankScore] as well. *)
Theorem used_contexts_members (JSON_parse : string -> parse_result) (latency : float)
  (candidates : list Ranked.ranked) (raw : string) :
  let r := respond JSON_parse latency candidates raw in
  (forall c, keys (used_context_short c) = ["doc"; "chunkIndex"; "score"]) /\
  (forall c, keys (used_context_full c) = ["doc"; "chunkIndex"; "score"; "reRankScore"]) /\
  (forall description, JSON_parse raw = SyntaxError description ->
     error_of r = Some (JString "model_response_not_json") /\
     used_contexts_of r = map used_context_full candidates) /\
  (forall parsed, JSON_parse raw = Parsed parsed -> invalid_shape parsed = Normal true ->
     error_of r = Some (JString "invalid_model_json_shape") /\
     used_contexts_of r = map used_context_short candidates) /\
  (forall parsed, JSON_parse raw = Parsed parsed -> invalid_shape parsed = Normal false ->
     status r = 200%Z /\ error_of r = None /\
     used_contexts_of r = map used_context_full candidates).
Proof.
  intros r. unfold r, respond, respond_parsed.
  split; [reflexivity | ]. split; [reflexivity | ].
  split; [ | split].
  - intros description ->. split; reflexivity.
  - intros parsed -> ->. split; reflexivity.
  - intros parsed -> ->.
    destruct (read parsed "answer"), (read parsed "sources"); repeat split; reflexivity.
Qed.

(** *** Classification of the generated text *)

(** C1.  The generated text [null] parses, and the parsed value is not an
    object of the agreed shape; the claim files it under
    [invalid_model_json_shape].  The handler instead answers
    [server_error]: [typeof null] is ['object'], so the shape test goes on
    to read [parsed.answer], which throws, and the [catch] of the handler
    turns the exception into the unexpected-failure response. *)
Theorem null_answer_is_server_error (latency : float) (candidates : list Ranked.ranked) :
  JsonText.parse "null" = Parsed JNull /\
  invalid_shape JNull = Throw "Cannot read properties of null (reading 'answer')" /\
  respond JsonText.parse latency candidates "null" =
    mk_response 500
      (JObject [("error", JString "server_error");
                ("details", JString "Cannot read properties of null (reading 'answer')")]).
Proof. repeat split; reflexivity. Qed.

Lemma invalid_shape_not_null (parsed : json) :
  parsed <> JNull ->
  invalid_shape parsed =
  Normal (negb (typeof (Some parsed) =? "object")
          || negb (typeof (read parsed "answer") =? "string")
          || negb (isArray (read parsed "sources"))).
Proof.
  intros Hne. unfold invalid_shape, read.
  destruct parsed as [ | b | n | s | items | members]; try congruence; try reflexivity.
  cbn [typeof get]. change ("object" =? "object") with true. cbn [negb orb].
  now destruct (negb (typeof (member "answer" members) =? "string")).
Qed.

(** X1.  What the handler answers to a generated text, case by case: a text
    that does not parse; a parsed value other than [null] that is not an
    object, or whose [answer] is not a string, or whose [sources] is not
    an array; a parsed object of the agreed shape; and [null]. *)
Theorem answer_contract_classification (JSON_parse : string -> parse_result)
  (latency : float) (candidates : list Ranked.ranked) (raw : string) :
  let r := respond JSON_parse latency candidates raw in
  (forall description, JSON_parse raw = SyntaxError description ->
     r = mk_response 500
           (JObject [("error", JString "model_response_not_json");
                     ("raw", JString raw);
                     ("parseError", JString description);
                     ("used_contexts", JArray (map used_context_full candidates));
                     ("latency_ms", JNumber latency)])) /\
  (forall parsed, JSON_parse raw = Parsed parsed -> parsed <> JNull ->
     typeof (Some parsed) <> "object" \/ typeof (read parsed "answer") <> "string" \/
     isArray (read parsed "sources") = false ->
     r = mk_response 500
           (JObject [("error", JString "invalid_model_json_shape");
                     ("parsed", parsed);
                     ("used_contexts", JArray (map used_context_short candidates));
                     ("latency_ms", JNumber latency)])) /\
  (forall parsed answer sources, JSON_parse raw = Parsed parsed ->
     typeof (Some parsed) = "object" -> parsed <> JNull ->
     read parsed "answer" = Some (JString answer) ->
     read parsed "sources" = Some (JArray sources) ->
     r = mk_response 200
           (JObject [("answer", JString answer);
                     ("sources", JArray sources);
                     ("used_contexts", JArray (map used_context_full candidates));
                     ("latency_ms", JNumber latency)])) /\
  (JSON_parse raw = Parsed JNull ->
     r = server_error "Cannot read properties of null (reading 'answer')").
Proof.
  intros r. unfold r, respond, respond_parsed.
  split; [ | split; [ | split]].
  - intros description ->. reflexivity.
  - intros parsed -> Hne Hbad. rewrite (invalid_shape_not_null parsed Hne).
    assert (E : negb (typeof (Some parsed) =? "object")
                || negb (typeof (read parsed "answer") =? "string")
                || negb (isArray (read parsed "sources")) = true).
    { destruct Hbad as [H | [H | H]].
      - apply String.eqb_neq in H. now rewrite H.
      - apply String.eqb_neq in H. rewrite H. cbn. now rewrite orb_true_r.
      - rewrite H. cbn. now rewrite !orb_true_r. }
    now rewrite E.
  - intros parsed answer sources -> Hobj Hne Ha Hs.
    rewrite (invalid_shape_not_null parsed Hne), Hobj, Ha, Hs. reflexivity.
  - intros ->. reflexivity.
Qed.

(** The texts of section 8 of the specification, and [null], run through
    the whole handler with providers that answer. *)
Example contract_examples :
  let run text :=
    snd (ask JsonText.parse Fixtures.integral_text Fixtures.embed_ok
           (Fixtures.generate_text text) 12
           Fixtures.store_two default_config (Some (JString "what is this about"))) in
  error_of (run "not json") = Some (JString "model_response_not_json") /\
  error_of (run Fixtures.foo_text) = Some (JString "invalid_model_json_shape") /\
  (status (run Fixtures.good_answer_text) = 200%Z /\
   member "answer" (match body (run Fixtures.good_answer_text) with
                    | JObject members => members
                    | _ => []
                    end) = Some (JString "x")) /\
  error_of (run "[1, 2]") = Some (JString "invalid_model_json_shape") /\
  error_of (run "42") = Some (JString "invalid_model_json_shape") /\
  error_of (run " null ") = Some (JString "server_error").
Proof. vm_compute. repeat split; reflexivity. Qed.

End ServerFacts.

(** ** The heap: [topK] returns fresh objects *)

Module HeapFacts.

Import Heap.
Local Open Scope float_scope.

Lemma alloc_spec (h : heap) (o : object) :
  h !! snd (alloc h o) = None /\ fst (alloc h o) = <[snd (alloc h o) := o]> h.
Proof.
  unfold alloc. cbn [fst snd]. split; [ | reflexivity].
  apply not_elem_of_dom, is_fresh.
Qed.

Lemma alloc_subseteq (h : heap) (o : object) : h ⊆ fst (alloc h o).
Proof.
  destruct (alloc_spec h o) as [Hf ->]. now apply insert_subseteq.
Qed.

Lemma alloc_lookup (h : heap) (o : object) : fst (alloc h o) !! snd (alloc h o) = Some o.
Proof.
  destruct (alloc_spec h o) as [_ ->]. apply lookup_insert_eq.
Qed.

Lemma lookup_mono (h h' : heap) (l : loc) (o : object) :
  h ⊆ h' -> h !! l = Some o -> h' !! l = Some o.
Proof. intros Hs. now apply map_subseteq_spec. Qed.

Lemma lookup_None_mono (h h' : heap) (l : loc) :
  h ⊆ h' -> h' !! l = None -> h !! l = None.
Proof.
  intros Hs Hn. destruct (h !! l) as [o | ] eqn:E; [ | reflexivity].
  apply (lookup_mono h h' l o Hs) in E. congruence.
Qed.

Lemma read_stored_cons (h : heap) (v : loc) (vs : list loc) (cs : list Chunk.chunk) :
  read_stored h (v :: vs) = map Some cs ->
  exists c cs', cs = c :: cs' /\ h !! v = Some (Stored c) /\ read_stored h vs = map Some cs'.
Proof.
  destruct cs as [ | c cs']; cbn; [discriminate | ].
  intros [= H1 H2]. exists c, cs'. repeat split; [ | exact H2].
  destruct (h !! v) as [[ | | ] | ]; try discriminate. now injection H1 as ->.
Qed.

Lemma read_stored_mono (h h' : heap) (vs : list loc) (cs : list Chunk.chunk) :
  h ⊆ h' -> read_stored h vs = map Some cs -> read_stored h' vs = map Some cs.
Proof.
  intros Hs. revert cs. induction vs as [ | v vs IH]; intros cs H.
  - exact H.
  - destruct (read_stored_cons h v vs cs H) as (c & cs' & -> & Hv & Hvs).
    cbn. rewrite (lookup_mono h h' v _ Hs Hv). f_equal. now apply IH.
Qed.

(** The first [map] of [topK]: one fresh [{score, v}] per stored record. *)
Lemma map_scored_spec (queryEmb : list float) (vs : list loc) :
  forall (h : heap) (cs : list Chunk.chunk),
    read_stored h vs = map Some cs ->
    exists h1 ls,
      map_scored h vs queryEmb = Some (h1, ls) /\
      h ⊆ h1 /\
      map (scored_view h1) ls = VectorStore.scored cs queryEmb /\
      Forall (fun l => h !! l = None /\
                       exists x v c, h1 !! l = Some (Scored x v) /\ h1 !! v = Some (Stored c)) ls.
Proof.
  induction vs as [ | v vs IH]; intros h cs H.
  - destruct cs; [ | discriminate]. exists h, [].
    split; [reflexivity | ]. split; [reflexivity | ]. split; [reflexivity | constructor].
  - destruct (read_stored_cons h v vs cs H) as (c & cs' & -> & Hv & Hvs).
    cbn [map_scored]. rewrite Hv.
    set (o := Scored (VectorStore.cosine queryEmb (Chunk.embedding c)) v).
    pose proof (alloc_subseteq h o) as Hsub.
    pose proof (alloc_lookup h o) as Hl.
    destruct (alloc_spec h o) as [Hfresh _].
    destruct (alloc h o) as [h0 l]. cbn [fst snd] in *.
    destruct (IH h0 cs' (read_stored_mono _ _ _ _ Hsub Hvs)) as (h1 & ls & -> & Hsub1 & Hview & Hall).
    exists h1, (l :: ls). repeat split.
    + now transitivity h0.
    + cbn [map VectorStore.scored]. f_equal; [ | exact Hview].
      unfold scored_view.
      rewrite (lookup_mono h0 h1 l _ Hsub1 Hl). unfold o.
      now rewrite (lookup_mono h h1 v (Stored c)) by (try assumption; now transitivity h0).
    + constructor.
      * split; [exact Hfresh | ].
        exists (VectorStore.cosine queryEmb (Chunk.embedding c)), v, c. split.
        -- apply (lookup_mono h0 h1 l _ Hsub1 Hl).
        -- apply (lookup_mono h h1 v); [now transitivity h0 | exact Hv].
      * eapply List.Forall_impl; [ | exact Hall]. cbn.
        intros l' [Hn He]. split; [ | exact He].
        now apply (lookup_None_mono h h0).
Qed.

(** The second [map] of [topK]: one fresh candidate per scored record. *)
Lemma map_returned_spec (ss : list loc) :
  forall h : heap,
    Forall (fun s => exists x v c, h !! s = Some (Scored x v) /\ h !! v = Some (Stored c)) ss ->
    exists h2 res,
      map_returned h ss = Some (h2, res) /\
      h ⊆ h2 /\
      read_returned h2 res = map (fun s => Some (VectorStore.to_candidate (scored_view h s))) ss /\
      Forall (fun l => h !! l = None) res /\
      List.NoDup res.
Proof.
  induction ss as [ | s ss IH]; intros h Hall.
  - exists h, [].
    split; [reflexivity | ]. split; [reflexivity | ]. split; [reflexivity | ].
    split; constructor.
  - inversion Hall as [ | ? ? (x & v & c & Hs & Hv) Hall']; subst.
    cbn [map_returned]. rewrite Hs, Hv.
    set (o := Returned (Candidate.mk x (Chunk.id c) (Chunk.doc c) (Chunk.chunkIndex c) (Chunk.text c))).
    pose proof (alloc_subseteq h o) as Hsub.
    pose proof (alloc_lookup h o) as Hl.
    destruct (alloc_spec h o) as [Hfresh _].
    destruct (alloc h o) as [h0 l]. cbn [fst snd] in *.
    assert (Hall0 : Forall (fun s => exists x v c, h0 !! s = Some (Scored x v) /\
                                                   h0 !! v = Some (Stored c)) ss).
    { eapply List.Forall_impl; [ | exact Hall']. cbn.
      intros s' (x' & v' & c' & H1 & H2). exists x', v', c'.
      split; eapply lookup_mono; eassumption. }
    destruct (IH h0 Hall0) as (h2 & res & -> & Hsub2 & Hread & Hf & Hnd).
    exists h2, (l :: res). repeat split.
    + now transitivity h0.
    + cbn [read_returned map]. rewrite (lookup_mono h0 h2 l _ Hsub2 Hl). f_equal.
      * unfold scored_view. now rewrite Hs, Hv.
      * unfold read_returned in Hread. rewrite Hread.
        apply map_ext_in. intros s' Hs'. rewrite List.Forall_forall in Hall'.
        destruct (Hall' s' Hs') as (x' & v' & c' & H1 & H2).
        unfold scored_view.
        now rewrite H1, H2, (lookup_mono h h0 s' _ Hsub H1), (lookup_mono h h0 v' _ Hsub H2).
    + constructor; [exact Hfresh | ].
      eapply List.Forall_impl; [ | exact Hf]. cbn. intros l'. now apply lookup_None_mono.
    + constructor; [ | exact Hnd].
      intros Hin. rewrite List.Forall_forall in Hf. specialize (Hf l Hin). congruence.
Qed.

Lemma insert_map_comm {A B : Type} (cmp : A -> A -> float) (cmp' : B -> B -> float)
  (f : A -> B) (x : A) (l : list A) :
  (forall a b, cmp' (f a) (f b) = cmp a b) ->
  JsArray.insert cmp' (f x) (map f l) = map f (JsArray.insert cmp x l).
Proof.
  intros H. induction l as [ | y l IH]; cbn [JsArray.insert map].
  - reflexivity.
  - rewrite H. destruct (cmp x y <? 0); cbn [map]; [reflexivity | now rewrite IH].
Qed.

Lemma sort_map_comm {A B : Type} (cmp : A -> A -> float) (cmp' : B -> B -> float)
  (f : A -> B) (l : list A) :
  (forall a b, cmp' (f a) (f b) = cmp a b) ->
  JsArray.sort cmp' (map f l) = map f (JsArray.sort cmp l).
Proof.
  intros H. unfold JsArray.sort.
  change (@nil B) with (map f []). generalize (@nil A).
  induction l as [ | x l IH]; intros acc; cbn [fold_left map].
  - reflexivity.
  - rewrite (insert_map_comm cmp cmp' f x acc H). apply IH.
Qed.

Lemma slice_to_map {A B : Type} (f : A -> B) (l : list A) (k : Z) :
  JsArray.slice_to (map f l) k = map f (JsArray.slice_to l k).
Proof. unfold JsArray.slice_to. now rewrite length_map, firstn_map. Qed.

Lemma by_score_desc_view (h : heap) (a b : loc) :
  VectorStore.by_score_desc (scored_view h a) (scored_view h b) = by_score_desc h a b.
Proof.
  unfold VectorStore.by_score_desc, by_score_desc, score_at, scored_view.
  destruct (h !! a) as [[ | xa va | ] | ], (h !! b) as [[ | xb vb | ] | ];
    try reflexivity;
    repeat match goal with
           | |- context [h !! ?v] => destruct (h !! v) as [[ | | ] | ]
           end; reflexivity.
Qed.

(** [topK] on the heap succeeds, computes what [VectorStore.topK] computes,
    and returns references to objects that did not exist before. *)
Lemma topK_spec (h : heap) (vs : list loc) (cs : list Chunk.chunk)
  (queryEmb : list float) (k : Z) :
  read_stored h vs = map Some cs ->
  exists h2 res,
    topK h vs queryEmb k = Some (h2, res) /\
    h ⊆ h2 /\
    read_returned h2 res = map Some (VectorStore.topK cs queryEmb k) /\
    Forall (fun l => h !! l = None) res /\
    List.NoDup res.
Proof.
  intros H. unfold topK.
  destruct (map_scored_spec queryEmb vs h cs H) as (h1 & ls & -> & Hsub1 & Hview & Hall).
  set (sorted := JsArray.slice_to (JsArray.sort (by_score_desc h1) ls) k).
  assert (Hs : Forall (fun s => exists x v c, h1 !! s = Some (Scored x v) /\
                                              h1 !! v = Some (Stored c)) sorted).
  { apply List.Forall_forall. intros s Hin. unfold sorted in Hin.
    apply ArrayFacts.slice_to_In in Hin.
    apply (proj1 (ArrayFacts.sort_In _ _ _)) in Hin.
    rewrite List.Forall_forall in Hall. now destruct (Hall s Hin). }
  destruct (map_returned_spec sorted h1 Hs) as (h2 & res & -> & Hsub2 & Hread & Hf & Hnd).
  exists h2, res. repeat split.
  - now transitivity h1.
  - rewrite Hread. unfold VectorStore.topK.
    rewrite <- Hview.
    rewrite (sort_map_comm (by_score_desc h1) VectorStore.by_score_desc (scored_view h1))
      by apply by_score_desc_view.
    rewrite slice_to_map, !map_map. reflexivity.
  - eapply List.Forall_impl; [ | exact Hf]. cbn. intros l. now apply lookup_None_mono.
  - exact Hnd.
Qed.

Lemma boost_at_other (filename : string) (h : heap) (rc l : loc) :
  l <> rc -> boost_at filename h rc !! l = h !! l.
Proof.
  intros Hne. unfold boost_at.
  destruct (h !! rc) as [[ | | c] | ]; try reflexivity.
  destruct (Ranker.mentioned filename c); [ | reflexivity].
  now rewrite lookup_insert_ne.
Qed.

Lemma fold_boost_at_other (filename : string) (rcs : list loc) (h : heap) (l : loc) :
  ~ In l rcs -> fold_left (boost_at filename) rcs h !! l = h !! l.
Proof.
  revert h. induction rcs as [ | rc rcs IH]; intros h Hn; cbn [fold_left].
  - reflexivity.
  - rewrite IH by (intros Hin; apply Hn; now right).
    apply boost_at_other. intros ->. apply Hn. now left.
Qed.

Lemma boost_other (q : string) (h : heap) (rcs : list loc) (l : loc) :
  ~ In l rcs -> boost q h rcs !! l = h !! l.
Proof.
  intros Hn. unfold boost. destruct (Ranker.fileMentionMatch q); [ | reflexivity].
  now apply fold_boost_at_other.
Qed.

Lemma boost_at_self (filename : string) (h : heap) (rc : loc) (c : Candidate.candidate) :
  h !! rc = Some (Returned c) ->
  boost_at filename h rc !! rc = Some (Returned (Ranker.boost_one filename c)).
Proof.
  intros H. unfold boost_at, Ranker.boost_one. rewrite H.
  destruct (Ranker.mentioned filename c); [apply lookup_insert_eq | exact H].
Qed.

Lemma fold_boost_at_read (filename : string) (rcs : list loc) :
  forall (h : heap) (cs : list Candidate.candidate),
    List.NoDup rcs -> read_returned h rcs = map Some cs ->
    read_returned (fold_left (boost_at filename) rcs h) rcs =
    map Some (map (Ranker.boost_one filename) cs).
Proof.
  induction rcs as [ | rc rcs IH]; intros h cs Hnd H.
  - destruct cs; [reflexivity | discriminate].
  - destruct cs as [ | c cs]; [discriminate | ].
    inversion Hnd as [ | ? ? Hnotin Hnd']; subst.
    cbn [read_returned map] in H. injection H as Hrc Hrest.
    assert (Hc : h !! rc = Some (Returned c)).
    { destruct (h !! rc) as [[ | | ] | ]; try discriminate. now injection Hrc as ->. }
    cbn [fold_left read_returned map]. f_equal.
    + rewrite fold_boost_at_other by assumption.
      now rewrite (boost_at_self filename h rc c Hc).
    + apply IH; [exact Hnd' | ].
      unfold read_returned in *. rewrite <- Hrest.
      apply map_ext_in. intros l Hl.
      rewrite boost_at_other; [reflexivity | ]. intros ->. contradiction.
Qed.

Lemma read_stored_In (h : heap) (vs : list loc) (cs : list Chunk.chunk) (v : loc) :
  read_stored h vs = map Some cs -> In v vs -> exists c, h !! v = Some (Stored c).
Proof.
  revert cs. induction vs as [ | v' vs IH]; intros cs H Hin; [destruct Hin | ].
  destruct (read_stored_cons h v' vs cs H) as (c & cs' & -> & Hv & Hvs).
  destruct Hin as [<- | Hin]; [now exists c | now apply (IH cs')].
Qed.

(** C8.  Let the references [vs] of the loaded collection lead to the
    records [cs].  Then [topK] succeeds and returns references to
    candidates that hold what [VectorStore.topK] computes; every returned
    reference is new (no object existed at it before the call, so it is
    none of the collection's records); after the boosting loop has written
    to the [score] of returned candidates, every object that existed
    before the call is unchanged, in particular the collection still
    reads [cs], while the returned candidates hold the boosted scores. *)
Theorem topK_returns_fresh_copies (h : heap) (vs : list loc) (cs : list Chunk.chunk)
  (queryEmb : list float) (k : Z) (q : string) :
  read_stored h vs = map Some cs ->
  exists h1 rawContexts,
    topK h vs queryEmb k = Some (h1, rawContexts) /\
    read_returned h1 rawContexts = map Some (VectorStore.topK cs queryEmb k) /\
    (forall l, In l rawContexts -> h !! l = None /\ ~ In l vs) /\
    (forall l o, h !! l = Some o -> boost q h1 rawContexts !! l = Some o) /\
    read_stored (boost q h1 rawContexts) vs = map Some cs /\
    read_returned (boost q h1 rawContexts) rawContexts =
      map Some (Ranker.boost q (VectorStore.topK cs queryEmb k)).
Proof.
  intros H.
  destruct (topK_spec h vs cs queryEmb k H) as (h1 & res & Htop & Hsub & Hread & Hfresh & Hnd).
  rewrite List.Forall_forall in Hfresh.
  assert (Hkeep : forall l o, h !! l = Some o -> boost q h1 res !! l = Some o).
  { intros l o Hl. rewrite boost_other.
    - now apply (lookup_mono h h1).
    - intros Hin. specialize (Hfresh l Hin). congruence. }
  exists h1, res. split; [exact Htop | ]. split; [exact Hread | ].
  split; [ | split; [exact Hkeep | split]].
  - intros l Hin. split; [now apply Hfresh | ].
    intros Hv. destruct (read_stored_In h vs cs l H Hv) as (c & Hc).
    specialize (Hfresh l Hin). congruence.
  - rewrite <- H. unfold read_stored. apply map_ext_in. intros v Hv.
    destruct (read_stored_In h vs cs v H Hv) as (c & Hc).
    now rewrite Hc, (Hkeep v _ Hc).
  - unfold boost, Ranker.boost. destruct (Ranker.fileMentionMatch q) as [m | ].
    + now apply fold_boost_at_read.
    + exact Hread.
Qed.

(** C8, an instance: the two-record collection, a question that names [b.txt]. *)
Lemma topK_returns_fresh_copies_witness :
  exists h1 rawContexts,
    topK Fixtures.heap_two [1%positive; 2%positive] [1; 0] 5 = Some (h1, rawContexts) /\
    read_returned h1 rawContexts = map Some (VectorStore.topK Fixtures.store_two [1; 0] 5) /\
    (forall l, In l rawContexts ->
       Fixtures.heap_two !! l = None /\ ~ In l [1%positive; 2%positive]) /\
    (forall l o, Fixtures.heap_two !! l = Some o ->
       boost "what is in b.txt" h1 rawContexts !! l = Some o) /\
    read_stored (boost "what is in b.txt" h1 rawContexts) [1%positive; 2%positive] =
      map Some Fixtures.store_two /\
    read_returned (boost "what is in b.txt" h1 rawContexts) rawContexts =
      map Some (Ranker.boost "what is in b.txt" (VectorStore.topK Fixtures.store_two [1; 0] 5)).
Proof.
  apply (topK_returns_fresh_copies Fixtures.heap_two [1%positive; 2%positive]
           Fixtures.store_two [1; 0] 5 "what is in b.txt").
  vm_compute. reflexivity.
Defined.

(** The same run, computed: the returned candidate for [b.txt] goes from
    0.6 to 1.2 while the stored records read as before. *)
Example boost_leaves_store_alone :
  match topK Fixtures.heap_two [1%positive; 2%positive] [1; 0] 5 with
  | Some (h1, rawContexts) =>
      let h2 := boost "what is in b.txt" h1 rawContexts in
      map (option_map Candidate.score) (read_returned h1 rawContexts) = [Some 1; Some 0.6] /\
      map (option_map Candidate.score) (read_returned h2 rawContexts) = [Some 1; Some 1.2] /\
      read_stored h2 [1%positive; 2%positive] = map Some Fixtures.store_two
  | None => False
  end.
Proof. vm_compute. repeat split; reflexivity. Qed.

End HeapFacts.

(** ** The words of a text *)

Module TextFacts.

Import JsText.
Local Open Scope string_scope.

(** [split], [replace] and [slice] on small inputs, as the language
    defines them. *)
Example split_examples :
  split_white_space "  a b   c " = [""; "a"; "b"; "c"; ""] /\
  split_white_space "" = [""] /\
  split_white_space " " = [""; ""] /\
  split_white_space ("a" ++ IndexerFixtures.tab ++ " b") = ["a"; "b"] /\
  split_at " " " a  b " = [""; "a"; ""; "b"; ""] /\
  replace_white_space ("  a" ++ IndexerFixtures.tab ++ " b  ") = " a b " /\
  slice [1; 2; 3; 4; 5]%nat 1 3 = [2; 3]%nat /\
  slice [1; 2; 3; 4; 5]%nat 4 9 = [5]%nat /\
  slice [1; 2; 3; 4; 5]%nat 7 9 = [].
Proof. repeat split. Qed.

Lemma split_white_space_not_nil (s : string) : split_white_space s <> [].
Proof.
  induction s as [ | c s IH]; cbn [split_white_space]; [discriminate | ].
  destruct (JsString.is_white_space c).
  - destruct s as [ | c' s']; [discriminate | ].
    destruct (JsString.is_white_space c'); [exact IH | discriminate].
  - destruct (split_white_space s); discriminate.
Qed.

Lemma solid_cons (c : ascii) (s : string) :
  solid (String c s) = negb (JsString.is_white_space c) && solid s.
Proof. reflexivity. Qed.

Lemma split_white_space_solid (s : string) : solid s = true -> split_white_space s = [s].
Proof.
  induction s as [ | c s IH]; [reflexivity | ].
  rewrite solid_cons. intros [Hc Hs]%andb_prop. apply negb_true_iff in Hc.
  cbn [split_white_space]. rewrite Hc, (IH Hs). reflexivity.
Qed.

Lemma split_white_space_cons (c : ascii) (s : string) :
  split_white_space (String c s) =
  if JsString.is_white_space c
  then match s with
       | String c' _ =>
           if JsString.is_white_space c' then split_white_space s
           else "" :: split_white_space s
       | EmptyString => [""; ""]
       end
  else match split_white_space s with
       | piece :: pieces => String c piece :: pieces
       | [] => [String c ""]
       end.
Proof. reflexivity. Qed.

(** A text that starts with white space has an empty first piece. *)
Lemma split_white_space_leading (c : ascii) (s : string) :
  JsString.is_white_space c = true ->
  exists rest, split_white_space (String c s) = "" :: rest.
Proof.
  revert c. induction s as [ | c' s' IH]; intros c Hc;
    rewrite split_white_space_cons, Hc.
  - now exists [""].
  - destruct (JsString.is_white_space c') eqn:Hc'.
    + apply (IH c' Hc').
    + now eexists.
Qed.

Lemma words_cons_word (s : string) :
  words s = cons_word (fst (head_and_words (split_white_space s)))
                      (snd (head_and_words (split_white_space s))).
Proof.
  unfold words, head_and_words, cons_word.
  destruct (split_white_space s) as [ | p ps] eqn:E;
    [now apply split_white_space_not_nil in E | ].
  cbn. now destruct (p =? "").
Qed.

(** The pieces of [String c s], seen as a first piece and the words that
    follow it. *)
Lemma scan_cons (c : ascii) (s : string) :
  head_and_words (split_white_space (String c s)) =
  if JsString.is_white_space c then ("", words s)
  else (String c (fst (head_and_words (split_white_space s))),
        snd (head_and_words (split_white_space s))).
Proof.
  rewrite split_white_space_cons.
  destruct (JsString.is_white_space c) eqn:Hc.
  - destruct s as [ | c' s']; [reflexivity | ].
    destruct (JsString.is_white_space c') eqn:Hc'; [ | reflexivity].
    destruct (split_white_space_leading c' s' Hc') as [rest E].
    unfold words. rewrite E. reflexivity.
  - destruct (split_white_space s) as [ | p ps] eqn:E;
      [now apply split_white_space_not_nil in E | ].
    reflexivity.
Qed.

Lemma words_cons_white_space (c : ascii) (s : string) :
  JsString.is_white_space c = true -> words (String c s) = words s.
Proof.
  intros Hc. rewrite (words_cons_word (String c s)), scan_cons, Hc. reflexivity.
Qed.

Lemma words_empty : words "" = [].
Proof. reflexivity. Qed.

Lemma pieces_solid (s : string) :
  Forall (fun p => solid p = true) (split_white_space s).
Proof.
  induction s as [ | c s IH]; [repeat constructor | ].
  rewrite split_white_space_cons.
  destruct (JsString.is_white_space c) eqn:Hc.
  - destruct s as [ | c' s']; [repeat constructor | ].
    destruct (JsString.is_white_space c'); [exact IH | now constructor].
  - destruct (split_white_space s) as [ | p ps].
    + repeat constructor. rewrite solid_cons, Hc. reflexivity.
    + inversion IH as [ | ? ? Hp Hps]; subst. constructor; [ | exact Hps].
      rewrite solid_cons, Hc. exact Hp.
Qed.

Lemma filter_Boolean_words (pieces : list string) :
  Forall (fun p => solid p = true) pieces ->
  Forall (fun w => is_word w = true) (filter_Boolean pieces).
Proof.
  unfold filter_Boolean. induction 1 as [ | p ps Hp _ IH]; cbn; [constructor | ].
  destruct (p =? "") eqn:E; cbn; [exact IH | ].
  constructor; [ | exact IH]. unfold is_word. now rewrite E, Hp.
Qed.

Lemma words_are_words (s : string) : Forall (fun w => is_word w = true) (words s).
Proof. apply filter_Boolean_words, pieces_solid. Qed.

Lemma filter_Boolean_id (ws : list string) :
  Forall (fun w => is_word w = true) ws -> filter_Boolean ws = ws.
Proof.
  unfold filter_Boolean. induction 1 as [ | w ws Hw _ IH]; [reflexivity | ].
  cbn. unfold is_word in Hw. apply andb_prop in Hw as [Hw _]. now rewrite Hw, IH.
Qed.

Lemma is_word_head (w : string) :
  is_word w = true ->
  exists c t, w = String c t /\ JsString.is_white_space c = false.
Proof.
  unfold is_word. destruct w as [ | c t]; [discriminate | ].
  rewrite solid_cons. intros [_ [Hc _]%andb_prop]%andb_prop.
  exists c, t. split; [reflexivity | now apply negb_true_iff].
Qed.

Lemma append_empty_l (s : string) : "" ++ s = s.
Proof. reflexivity. Qed.

Lemma append_String (c : ascii) (s t : string) : String c s ++ t = String c (s ++ t).
Proof. reflexivity. Qed.

Lemma split_white_space_app (w : string) (c : ascii) (t : string) :
  solid w = true -> JsString.is_white_space c = false ->
  split_white_space (w ++ String " " (String c t)) = w :: split_white_space (String c t).
Proof.
  intros Hw Hc. induction w as [ | a w IH].
  - rewrite append_empty_l, split_white_space_cons.
    change (JsString.is_white_space " ") with true. cbv iota. now rewrite Hc.
  - rewrite solid_cons in Hw. apply andb_prop in Hw as [Ha Hw].
    apply negb_true_iff in Ha.
    rewrite append_String, split_white_space_cons, Ha, (IH Hw). reflexivity.
Qed.

Lemma join_cons2 (sep w w' : string) (ws : list string) :
  join sep (w :: w' :: ws) = w ++ sep ++ join sep (w' :: ws).
Proof. reflexivity. Qed.

Lemma join_head (w : string) (ws : list string) :
  is_word w = true ->
  exists c t, join " " (w :: ws) = String c t /\ JsString.is_white_space c = false.
Proof.
  intros Hw. destruct (is_word_head w Hw) as (c & t & -> & Hc).
  destruct ws as [ | w' ws].
  - now exists c, t.
  - rewrite join_cons2, append_String. exists c. eexists. split; [reflexivity | exact Hc].
Qed.

(** Splitting undoes joining with single spaces. *)
Lemma split_join (ws : list string) :
  Forall (fun w => is_word w = true) ws -> ws <> [] ->
  split_white_space (join " " ws) = ws.
Proof.
  induction 1 as [ | w ws Hw Hws IH]; [congruence | intros _].
  assert (Hs : solid w = true) by (unfold is_word in Hw; now apply andb_prop in Hw).
  destruct ws as [ | w' ws].
  - cbn. now apply split_white_space_solid.
  - inversion Hws as [ | ? ? Hw' _]; subst.
    destruct (join_head w' ws Hw') as (c & t & E & Hc).
    rewrite join_cons2.
    change (" " ++ join " " (w' :: ws)) with (String " " (join " " (w' :: ws))).
    rewrite E.
    rewrite (split_white_space_app w c t Hs Hc), <- E, IH by discriminate.
    reflexivity.
Qed.

Lemma words_join (ws : list string) :
  Forall (fun w => is_word w = true) ws -> words (join " " ws) = ws.
Proof.
  intros H. destruct ws as [ | w ws]; [reflexivity | ].
  unfold words. rewrite split_join by (assumption || discriminate).
  now apply filter_Boolean_id.
Qed.

Lemma blank_cons (c : ascii) (s : string) :
  blank (String c s) = JsString.is_white_space c && blank s.
Proof. reflexivity. Qed.

Lemma words_blank (s : string) : blank s = true -> words s = [].
Proof.
  induction s as [ | c s IH]; [reflexivity | ].
  rewrite blank_cons. intros [Hc Hs]%andb_prop.
  rewrite words_cons_white_space by exact Hc. now apply IH.
Qed.

Lemma words_blank_app (pre s : string) : blank pre = true -> words (pre ++ s) = words s.
Proof.
  induction pre as [ | c pre IH]; [reflexivity | ].
  rewrite blank_cons. intros [Hc Hp]%andb_prop.
  rewrite append_String, words_cons_white_space by exact Hc. now apply IH.
Qed.

Lemma scan_app_blank (s post : string) :
  blank post = true ->
  head_and_words (split_white_space (s ++ post)) = head_and_words (split_white_space s).
Proof.
  intros Hp. induction s as [ | c s IH].
  - rewrite append_empty_l. destruct post as [ | c post]; [reflexivity | ].
    rewrite blank_cons in Hp. apply andb_prop in Hp as [Hc Hp].
    rewrite scan_cons, Hc, (words_blank post Hp). reflexivity.
  - rewrite append_String, !scan_cons.
    destruct (JsString.is_white_space c); [ | now rewrite IH].
    now rewrite (words_cons_word (s ++ post)), (words_cons_word s), IH.
Qed.

Lemma words_app_blank (s post : string) : blank post = true -> words (s ++ post) = words s.
Proof.
  intros Hp. now rewrite (words_cons_word (s ++ post)), (words_cons_word s), scan_app_blank.
Qed.

Lemma string_of_list_ascii_app (a b : list ascii) :
  string_of_list_ascii (a ++ b)%list = string_of_list_ascii a ++ string_of_list_ascii b.
Proof. induction a as [ | c a IH]; [reflexivity | ]. cbn. now rewrite IH. Qed.

Lemma trimStart_list_decompose (l : list ascii) :
  exists pre, l = (pre ++ JsString.trimStart_list l)%list /\
              forallb JsString.is_white_space pre = true.
Proof.
  induction l as [ | c l (pre & E & Hpre)]; [now exists [] | ].
  cbn [JsString.trimStart_list]. destruct (JsString.is_white_space c) eqn:Hc.
  - exists (c :: pre). split; [cbn; now rewrite <- E | cbn; now rewrite Hc].
  - now exists [].
Qed.

Lemma forallb_rev {A : Type} (p : A -> bool) (l : list A) :
  forallb p (rev l) = forallb p l.
Proof.
  induction l as [ | x l IH]; [reflexivity | ].
  cbn. rewrite forallb_app, IH. cbn. rewrite andb_true_r. apply andb_comm.
Qed.

(** What [trim] removes is white space in front and behind. *)
Lemma trim_decompose (s : string) :
  exists pre post, s = pre ++ JsString.trim s ++ post /\ blank pre = true /\ blank post = true.
Proof.
  unfold JsString.trim, JsString.trim_list.
  destruct (trimStart_list_decompose (list_ascii_of_string s)) as (pre & E & Hpre).
  set (m := JsString.trimStart_list (list_ascii_of_string s)) in *.
  destruct (trimStart_list_decompose (rev m)) as (post & E' & Hpost).
  exists (string_of_list_ascii pre), (string_of_list_ascii (rev post)).
  split; [ | split].
  - rewrite <- !string_of_list_ascii_app, <- rev_app_distr, <- E', rev_involutive, <- E.
    symmetry. apply string_of_list_ascii_of_string.
  - unfold blank. now rewrite list_ascii_of_string_of_list_ascii.
  - unfold blank. now rewrite list_ascii_of_string_of_list_ascii, forallb_rev.
Qed.

Lemma words_trim (s : string) : words (JsString.trim s) = words s.
Proof.
  destruct (trim_decompose s) as (pre & post & E & Hpre & Hpost).
  rewrite E at 2. now rewrite words_blank_app, words_app_blank.
Qed.

Lemma split_at_not_nil (sep : ascii) (s : string) : split_at sep s <> [].
Proof.
  induction s as [ | c s IH]; cbn [split_at]; [discriminate | ].
  destruct (Ascii.eqb c sep); [discriminate | ].
  destruct (split_at sep s); discriminate.
Qed.

Lemma white_space_not_space (c : ascii) :
  JsString.is_white_space c = false -> Ascii.eqb c " " = false.
Proof.
  intros Hc. destruct (Ascii.eqb_spec c " ") as [-> | ]; [discriminate | reflexivity].
Qed.

(** Once every run of white space is a single space, splitting at the
    space is splitting at white space. *)
Lemma split_at_replace_white_space (s : string) :
  split_at " " (replace_white_space s) = split_white_space s.
Proof.
  induction s as [ | c s IH]; [reflexivity | ].
  rewrite split_white_space_cons. cbn [replace_white_space].
  destruct (JsString.is_white_space c) eqn:Hc.
  - destruct s as [ | c' s']; [reflexivity | ].
    destruct (JsString.is_white_space c'); [exact IH | ].
    cbn [split_at]. change (Ascii.eqb " " " ") with true. cbv iota. now rewrite IH.
  - cbn [split_at]. rewrite (white_space_not_space c Hc), IH. reflexivity.
Qed.

Lemma filter_Boolean_cons_word (pieces : list string) :
  pieces <> [] ->
  filter_Boolean pieces =
  cons_word (fst (head_and_words pieces)) (snd (head_and_words pieces)).
Proof.
  destruct pieces as [ | p ps]; [congruence | intros _].
  unfold filter_Boolean, head_and_words, cons_word. cbn. now destruct (p =? "").
Qed.

Lemma spaced_cons (c : ascii) (s : string) :
  spaced (String c s) =
  (negb (JsString.is_white_space c) || Ascii.eqb c " ") && spaced s.
Proof. reflexivity. Qed.

Lemma scan_split_at (s : string) :
  spaced s = true ->
  head_and_words (split_at " " s) = head_and_words (split_white_space s).
Proof.
  induction s as [ | c s IH]; [reflexivity | ].
  rewrite spaced_cons. intros [Hc Hs]%andb_prop. specialize (IH Hs).
  rewrite scan_cons. cbn [split_at].
  destruct (Ascii.eqb_spec c " ") as [-> | Hne].
  - change (JsString.is_white_space " ") with true. cbv iota.
    unfold head_and_words at 1. cbn [hd tl].
    rewrite (filter_Boolean_cons_word _ (split_at_not_nil " " s)), IH.
    now rewrite <- words_cons_word.
  - cbn [orb] in Hc. rewrite orb_false_r in Hc. apply negb_true_iff in Hc. rewrite Hc.
    destruct (split_at " " s) as [ | p ps] eqn:E;
      [now apply split_at_not_nil in E | ].
    rewrite <- IH. reflexivity.
Qed.

Lemma filter_split_at_spaced (s : string) :
  spaced s = true -> filter_Boolean (split_at " " s) = words s.
Proof.
  intros Hs.
  rewrite (filter_Boolean_cons_word _ (split_at_not_nil " " s)), (scan_split_at s Hs).
  symmetry. apply words_cons_word.
Qed.

Lemma spaced_replace_white_space (s : string) : spaced (replace_white_space s) = true.
Proof.
  induction s as [ | c s IH]; [reflexivity | ].
  cbn [replace_white_space].
  destruct (JsString.is_white_space c) eqn:Hc.
  - destruct s as [ | c' s']; [reflexivity | ].
    destruct (JsString.is_white_space c'); [exact IH | ].
    rewrite spaced_cons, IH. reflexivity.
  - rewrite spaced_cons, Hc, IH. reflexivity.
Qed.

Lemma list_ascii_of_string_app (a b : string) :
  list_ascii_of_string (a ++ b) = (list_ascii_of_string a ++ list_ascii_of_string b)%list.
Proof. induction a as [ | c a IH]; [reflexivity | ]. rewrite append_String. cbn. now rewrite IH. Qed.

Lemma spaced_app (a b : string) : spaced (a ++ b) = spaced a && spaced b.
Proof. unfold spaced. now rewrite list_ascii_of_string_app, forallb_app. Qed.

Lemma spaced_trim (s : string) : spaced s = true -> spaced (JsString.trim s) = true.
Proof.
  destruct (trim_decompose s) as (pre & post & E & _ & _).
  rewrite E at 1. rewrite !spaced_app.
  intros [_ [H _]%andb_prop]%andb_prop. exact H.
Qed.

Lemma words_replace_white_space (s : string) : words (replace_white_space s) = words s.
Proof.
  rewrite <- (filter_split_at_spaced _ (spaced_replace_white_space s)).
  now rewrite split_at_replace_white_space.
Qed.

(** The two ways of cutting a text into words agree. *)
Lemma words_by_replace (s : string) :
  filter_Boolean (split_at " " (JsString.trim (replace_white_space s))) = words s.
Proof.
  rewrite filter_split_at_spaced by apply spaced_trim, spaced_replace_white_space.
  now rewrite words_trim, words_replace_white_space.
Qed.

End TextFacts.

(** ** Slices of an array *)

Module SliceFacts.

Import JsText.

Section Slices.

Context {A : Type}.
Variable step : nat.
Hypothesis step_pos : (0 < step)%nat.
Variable arr : list A.

Lemma slices_count_step (i : nat) :
  (i < List.length arr)%nat ->
  ((List.length arr - i + (step - 1)) / step =
   S ((List.length arr - (i + step) + (step - 1)) / step))%nat.
Proof.
  intros Hi.
  destruct (Nat.le_gt_cases step (List.length arr - i)) as [Hle | Hgt].
  - replace (List.length arr - i + (step - 1))%nat
      with (List.length arr - (i + step) + (step - 1) + 1 * step)%nat by lia.
    rewrite Nat.div_add by lia. lia.
  - replace (List.length arr - (i + step))%nat with 0%nat by lia.
    rewrite (Nat.div_small (0 + (step - 1)) step) by lia.
    replace (List.length arr - i + (step - 1))%nat
      with ((List.length arr - i - 1) + 1 * step)%nat by lia.
    rewrite Nat.div_add, Nat.div_small by lia. reflexivity.
Qed.

Lemma slices_from_step (i : nat) :
  (i < List.length arr)%nat ->
  slices_from step arr i = slice arr i (i + step) :: slices_from step arr (i + step).
Proof.
  intros Hi. unfold slices_from. rewrite (slices_count_step i Hi).
  cbn [seq map]. rewrite Nat.add_0_r. f_equal.
  rewrite <- seq_shift, map_map. apply map_ext. intros k. f_equal; cbn; lia.
Qed.

Lemma slices_from_end (i : nat) :
  (List.length arr <= i)%nat -> slices_from step arr i = [].
Proof.
  intros Hi. unfold slices_from.
  replace (List.length arr - i)%nat with 0%nat by lia.
  rewrite Nat.div_small by lia. reflexivity.
Qed.

Lemma slice_length (i j : nat) :
  List.length (slice arr i j) = Nat.min (j - i) (List.length arr - i).
Proof. unfold slice. now rewrite length_firstn, length_skipn. Qed.

Lemma slice_skipn (i : nat) :
  (slice arr i (i + step) ++ skipn (i + step) arr = skipn i arr)%list.
Proof.
  unfold slice. replace (i + step - i)%nat with step by lia.
  rewrite Nat.add_comm, <- skipn_skipn. apply firstn_skipn.
Qed.

(** The slices, put end to end, are the array from [i] on. *)
Lemma concat_slices_from (i : nat) : concat (slices_from step arr i) = skipn i arr.
Proof.
  remember (List.length arr - i)%nat as m eqn:Hm.
  revert i Hm. induction m as [m IH] using lt_wf_ind. intros i Hm.
  destruct (Nat.lt_ge_cases i (List.length arr)) as [Hi | Hi].
  - rewrite (slices_from_step i Hi). cbn [concat].
    rewrite (IH (List.length arr - (i + step))%nat) by lia.
    apply slice_skipn.
  - rewrite (slices_from_end i Hi). symmetry. now apply skipn_all2.
Qed.

Lemma slices_from_sizes (i : nat) :
  Forall (fun s => (1 <= List.length s <= step)%nat) (slices_from step arr i).
Proof.
  remember (List.length arr - i)%nat as m eqn:Hm.
  revert i Hm. induction m as [m IH] using lt_wf_ind. intros i Hm.
  destruct (Nat.lt_ge_cases i (List.length arr)) as [Hi | Hi].
  - rewrite (slices_from_step i Hi). constructor.
    + rewrite slice_length. lia.
    + apply (IH (List.length arr - (i + step))%nat); lia.
  - rewrite (slices_from_end i Hi). constructor.
Qed.

Lemma firstn_add (a b : nat) (l : list A) :
  firstn (a + b) l = (firstn a l ++ firstn b (skipn a l))%list.
Proof.
  revert l. induction a as [ | a IH]; intros l; [reflexivity | ].
  destruct l as [ | x l]; [cbn; now rewrite firstn_nil | ].
  cbn. now rewrite IH.
Qed.

Variable least : nat.
Hypothesis least_le : (least <= step)%nat.

(** Dropping the slices of fewer than [least] elements drops at most a
    short last one. *)
Lemma concat_long_slices_from (i : nat) :
  let m := (List.length arr - i)%nat in
  concat (List.filter (fun g => (least <=? List.length g)%nat) (slices_from step arr i)) =
  firstn (m - (if (m mod step <? least)%nat then m mod step else 0)) (skipn i arr).
Proof.
  cbv zeta.
  remember (List.length arr - i)%nat as m eqn:Hm.
  revert i Hm. induction m as [m IH] using lt_wf_ind. intros i Hm.
  destruct (Nat.lt_ge_cases i (List.length arr)) as [Hi | Hi].
  - rewrite (slices_from_step i Hi). cbn [List.filter].
    rewrite slice_length. replace (i + step - i)%nat with step by lia. rewrite <- Hm.
    destruct (Nat.le_gt_cases step m) as [Hle | Hgt].
    + rewrite Nat.min_l by lia.
      destruct (Nat.leb_spec least step) as [_ | ?]; [ | lia].
      cbn [concat]. rewrite (IH (m - step)%nat) by lia.
      assert (Emod : ((m - step) mod step = m mod step)%nat).
      { rewrite <- (Nat.Div0.mod_add (m - step) 1 step). f_equal. lia. }
      rewrite Emod.
      pose proof (Nat.Div0.mod_le (m - step) step) as Hd. rewrite Emod in Hd.
      set (d := if (m mod step <? least)%nat then (m mod step)%nat else 0%nat).
      assert (Hd' : (d <= m - step)%nat) by (unfold d; destruct (m mod step <? least)%nat; lia).
      replace (m - d)%nat with (step + (m - step - d))%nat by lia.
      rewrite firstn_add. unfold slice. replace (i + step - i)%nat with step by lia.
      now rewrite skipn_skipn, (Nat.add_comm step i).
    + rewrite Nat.min_r by lia. rewrite Nat.mod_small by lia.
      rewrite (slices_from_end (i + step)) by lia.
      assert (Eg : slice arr i (i + step) = skipn i arr).
      { unfold slice. apply firstn_all2. rewrite length_skipn. lia. }
      destruct (Nat.leb_spec least m) as [Hl | Hl].
      * destruct (Nat.ltb_spec m least) as [? | _]; [lia | ].
        cbn. rewrite app_nil_r, Eg, Nat.sub_0_r.
        symmetry. apply firstn_all2. rewrite length_skipn. lia.
      * destruct (Nat.ltb_spec m least) as [_ | ?]; [ | lia].
        cbn. now rewrite Nat.sub_diag.
  - rewrite (slices_from_end i Hi). replace m with 0%nat by lia. reflexivity.
Qed.

End Slices.

End SliceFacts.

(** ** scripts/index.js: the chunks of a text *)

Module ChunkFacts.

Import JsText TextFacts SliceFacts.
Local Open Scope string_scope.

Lemma chunk_size_pos : (0 < Indexer.CHUNK_SIZE_WORDS)%nat.
Proof. unfold Indexer.CHUNK_SIZE_WORDS. lia. Qed.

Lemma chunk_loop_spec (fuel : nat) (ws : list string) (i : nat) (chunks : list string) :
  (List.length ws - i <= fuel)%nat ->
  Indexer.chunk_loop fuel ws i chunks =
  (chunks ++ map (join " ") (slices_from Indexer.CHUNK_SIZE_WORDS ws i))%list.
Proof.
  revert i chunks. induction fuel as [ | fuel IH]; intros i chunks Hf; cbn [Indexer.chunk_loop].
  - rewrite (slices_from_end _ chunk_size_pos) by lia.
    cbn. now rewrite app_nil_r.
  - destruct (Nat.ltb_spec i (List.length ws)) as [Hi | Hi].
    + rewrite IH by (pose proof chunk_size_pos; lia).
      rewrite (slices_from_step _ chunk_size_pos ws i Hi).
      cbn [map]. now rewrite <- app_assoc.
    + rewrite (slices_from_end _ chunk_size_pos) by lia.
      cbn. now rewrite app_nil_r.
Qed.

(** The loop is over once the words are used up: more turns change
    nothing. *)
Lemma chunk_loop_enough_fuel (fuel : nat) (ws : list string) (i : nat)
  (chunks : list string) :
  (List.length ws - i <= fuel)%nat ->
  Indexer.chunk_loop fuel ws i chunks =
  Indexer.chunk_loop (List.length ws - i) ws i chunks.
Proof. intros Hf. now rewrite !chunk_loop_spec. Qed.

Lemma splitToChunks_slices (text : string) :
  Indexer.splitToChunks text =
  map (join " ") (slices Indexer.CHUNK_SIZE_WORDS (words text)).
Proof.
  unfold Indexer.splitToChunks. fold (words text).
  rewrite chunk_loop_spec by lia. reflexivity.
Qed.

Lemma Forall_slice {A : Type} (P : A -> Prop) (arr : list A) (i j : nat) :
  Forall P arr -> Forall P (slice arr i j).
Proof.
  intros H. unfold slice. apply List.Forall_forall. intros x Hx.
  apply (proj1 (List.Forall_forall P arr) H).
  apply ArrayFacts.firstn_In in Hx.
  rewrite <- (firstn_skipn i arr). apply in_or_app. now right.
Qed.

Lemma Forall_slices_from {A : Type} (P : A -> Prop) (step : nat) (arr : list A) (i : nat) :
  Forall P arr -> Forall (Forall P) (slices_from step arr i).
Proof.
  intros H. unfold slices_from. apply List.Forall_forall. intros s Hs.
  apply in_map_iff in Hs as (k & <- & _). now apply Forall_slice.
Qed.

Lemma flat_map_words_join (groups : list (list string)) :
  Forall (Forall (fun w => is_word w = true)) groups ->
  flat_map words (map (join " ") groups) = concat groups.
Proof.
  induction 1 as [ | g groups Hg _ IH]; [reflexivity | ].
  cbn. now rewrite words_join, IH.
Qed.

Lemma chunk_words (text c : string) :
  In c (Indexer.splitToChunks text) ->
  exists g, In g (slices Indexer.CHUNK_SIZE_WORDS (words text)) /\
            c = join " " g /\ words c = g.
Proof.
  rewrite splitToChunks_slices. intros (g & <- & Hg)%in_map_iff.
  exists g. repeat split; [exact Hg | ].
  apply words_join.
  pose proof (Forall_slices_from _ Indexer.CHUNK_SIZE_WORDS _ 0 (words_are_words text)) as H.
  exact (proj1 (List.Forall_forall _ _) H g Hg).
Qed.

Lemma chunk_size (text c : string) :
  In c (Indexer.splitToChunks text) -> (1 <= List.length (words c) <= 400)%nat.
Proof.
  intros Hc. destruct (chunk_words text c Hc) as (g & Hg & _ & ->).
  pose proof (slices_from_sizes _ chunk_size_pos (words text) 0) as H.
  exact (proj1 (List.Forall_forall _ _) H g Hg).
Qed.

(** X4.  [splitToChunks] of the simple indexer loses no word and invents
    none: the words of the chunks, chunk after chunk, are the words of the
    text in their order; and each chunk is its own words joined by single
    spaces. *)
Theorem splitToChunks_keeps_every_word (text : string) :
  let chunks := Indexer.splitToChunks text in
  flat_map words chunks = words text /\
  Forall (fun c => c = join " " (words c)) chunks.
Proof.
  intros chunks. split.
  - unfold chunks. rewrite splitToChunks_slices, flat_map_words_join.
    + unfold slices. now rewrite (concat_slices_from _ chunk_size_pos).
    + apply Forall_slices_from, words_are_words.
  - apply List.Forall_forall. intros c Hc.
    destruct (chunk_words text c Hc) as (g & _ & E & ->). exact E.
Qed.

Lemma splitToChunks_length (text : string) :
  List.length (Indexer.splitToChunks text) =
  ((List.length (words text) + 399) / 400)%nat.
Proof.
  rewrite splitToChunks_slices. unfold slices, slices_from.
  rewrite !length_map, length_seq, Nat.sub_0_r. reflexivity.
Qed.

(** X5.  The simple indexer cuts [n] words into [ceil(n / 400)] chunks of at
    least one and at most 400 words, every chunk but the last holding
    exactly 400; a text that is empty or all white space gives no chunk. *)
Theorem splitToChunks_sizes (text : string) :
  let chunks := Indexer.splitToChunks text in
  let n := List.length (words text) in
  List.length chunks = ((n + 399) / 400)%nat /\
  Forall (fun c => (1 <= List.length (words c) <= 400)%nat) chunks /\
  (forall k c, (S k < List.length chunks)%nat -> nth_error chunks k = Some c ->
     List.length (words c) = 400%nat) /\
  (JsString.trim text = "" -> chunks = []).
Proof.
  intros chunks n. split; [apply splitToChunks_length | ]. split; [ | split].
  - apply List.Forall_forall. intros c Hc. now apply (chunk_size text).
  - intros k c Hk Hc. unfold chunks in Hk, Hc.
    rewrite splitToChunks_length in Hk. fold n in Hk.
    rewrite splitToChunks_slices in Hc. unfold slices, slices_from in Hc.
    rewrite !nth_error_map in Hc.
    rewrite Nat.sub_0_r in Hc. fold n in Hc.
    change (Indexer.CHUNK_SIZE_WORDS - 1)%nat with 399%nat in Hc.
    change Indexer.CHUNK_SIZE_WORDS with 400%nat in Hc.
    rewrite (nth_error_nth' _ 0%nat) in Hc by (rewrite length_seq; lia).
    rewrite seq_nth in Hc by lia. cbn [option_map] in Hc. injection Hc as <-.
    rewrite words_join.
    + rewrite slice_length. fold n.
      pose proof (Nat.Div0.mul_div_le (n + 399) 400). lia.
    + apply Forall_slice, words_are_words.
  - intros Hblank. unfold chunks. rewrite splitToChunks_slices.
    rewrite <- words_trim, Hblank. reflexivity.
Qed.

End ChunkFacts.

(** ** scripts/index.js, extended: the chunks of a text *)

Module ExtendedChunkFacts.

Import JsText TextFacts SliceFacts ChunkFacts.
Local Open Scope string_scope.

Lemma extended_chunk_size_pos : (0 < ExtendedIndexer.CHUNK_SIZE_WORDS)%nat.
Proof. unfold ExtendedIndexer.CHUNK_SIZE_WORDS. lia. Qed.

Lemma extended_chunk_loop_spec (fuel : nat) (ws : list string) (i : nat)
  (chunks : list string) :
  (List.length ws - i <= fuel)%nat ->
  ExtendedIndexer.chunk_loop fuel ws i chunks =
  (chunks ++
   List.filter
     (fun c => (ExtendedIndexer.CHUNK_MIN_WORDS <=? List.length (split_white_space c))%nat)
     (map (join " ") (slices_from ExtendedIndexer.CHUNK_SIZE_WORDS ws i)))%list.
Proof.
  revert i chunks. induction fuel as [ | fuel IH]; intros i chunks Hf;
    cbn [ExtendedIndexer.chunk_loop].
  - rewrite (slices_from_end _ extended_chunk_size_pos) by lia.
    cbn. now rewrite app_nil_r.
  - destruct (Nat.ltb_spec i (List.length ws)) as [Hi | Hi].
    + cbv zeta. rewrite IH by (pose proof extended_chunk_size_pos; lia).
      rewrite (slices_from_step _ extended_chunk_size_pos ws i Hi).
      cbn [map List.filter].
      destruct (ExtendedIndexer.CHUNK_MIN_WORDS <=? _)%nat; [ | reflexivity].
      now rewrite <- app_assoc.
    + rewrite (slices_from_end _ extended_chunk_size_pos) by lia.
      cbn. now rewrite app_nil_r.
Qed.

Lemma extended_splitToChunks_slices (text : string) :
  ExtendedIndexer.splitToChunks text =
  List.filter
    (fun c => (ExtendedIndexer.CHUNK_MIN_WORDS <=? List.length (split_white_space c))%nat)
    (map (join " ") (slices ExtendedIndexer.CHUNK_SIZE_WORDS (words text))).
Proof.
  unfold ExtendedIndexer.splitToChunks.
  destruct (String.eqb_spec text "") as [-> | _]; [reflexivity | ].
  rewrite words_by_replace, extended_chunk_loop_spec by lia. reflexivity.
Qed.

Lemma filter_map_join (least : nat) (groups : list (list string)) :
  Forall (fun g => Forall (fun w => is_word w = true) g /\ g <> []) groups ->
  List.filter (fun c => (least <=? List.length (split_white_space c))%nat)
    (map (join " ") groups) =
  map (join " ") (List.filter (fun g => (least <=? List.length g)%nat) groups).
Proof.
  induction 1 as [ | g groups [Hg Hne] _ IH]; [reflexivity | ].
  cbn [map List.filter]. rewrite (split_join g Hg Hne), IH.
  now destruct (least <=? List.length g)%nat.
Qed.

Lemma slices_of_words (text : string) :
  Forall (fun g => Forall (fun w => is_word w = true) g /\ g <> [])
    (slices Indexer.CHUNK_SIZE_WORDS (words text)).
Proof.
  apply List.Forall_forall. intros g Hg. split.
  - pose proof (Forall_slices_from _ Indexer.CHUNK_SIZE_WORDS _ 0 (words_are_words text)) as H.
    exact (proj1 (List.Forall_forall _ _) H g Hg).
  - pose proof (slices_from_sizes _ chunk_size_pos (words text) 0) as H.
    pose proof (proj1 (List.Forall_forall _ _) H g Hg) as Hs. cbv beta in Hs.
    intros ->. cbn in Hs. lia.
Qed.

Lemma extended_splitToChunks_groups (text : string) :
  ExtendedIndexer.splitToChunks text =
  map (join " ")
    (List.filter (fun g => (ExtendedIndexer.CHUNK_MIN_WORDS <=? List.length g)%nat)
       (slices Indexer.CHUNK_SIZE_WORDS (words text))).
Proof.
  rewrite extended_splitToChunks_slices.
  change ExtendedIndexer.CHUNK_SIZE_WORDS with Indexer.CHUNK_SIZE_WORDS.
  apply filter_map_join, slices_of_words.
Qed.

Lemma Forall_filter {A : Type} (P : A -> Prop) (p : A -> bool) (l : list A) :
  Forall P l -> Forall P (List.filter p l).
Proof.
  intros H. apply List.Forall_forall. intros x Hx. apply List.filter_In in Hx as [Hx _].
  exact (proj1 (List.Forall_forall _ _) H x Hx).
Qed.

Lemma extended_splitToChunks_filter (text : string) :
  ExtendedIndexer.splitToChunks text =
  List.filter (fun c => (30 <=? List.length (words c))%nat) (Indexer.splitToChunks text).
Proof.
  rewrite extended_splitToChunks_groups, splitToChunks_slices.
  pose proof (slices_of_words text) as H.
  induction H as [ | g groups [Hg Hne] _ IH]; [reflexivity | ].
  cbn [map List.filter]. rewrite (words_join g Hg), <- IH.
  change ExtendedIndexer.CHUNK_MIN_WORDS with 30%nat.
  now destruct (30 <=? List.length g)%nat.
Qed.

Lemma extended_kept_words (text : string) :
  let n := List.length (words text) in
  flat_map words (ExtendedIndexer.splitToChunks text) =
  firstn (n - (if (n mod 400 <? 30)%nat then n mod 400 else 0)) (words text).
Proof.
  intros n. rewrite extended_splitToChunks_groups, flat_map_words_join.
  - unfold slices.
    rewrite (concat_long_slices_from Indexer.CHUNK_SIZE_WORDS chunk_size_pos (words text)
               ExtendedIndexer.CHUNK_MIN_WORDS).
    + cbv zeta. rewrite Nat.sub_0_r. reflexivity.
    + unfold ExtendedIndexer.CHUNK_MIN_WORDS, Indexer.CHUNK_SIZE_WORDS. lia.
  - apply Forall_filter.
    eapply List.Forall_impl; [ | apply slices_of_words].
    intros g [Hg _]. exact Hg.
Qed.

Lemma extended_chunk_size (text c : string) :
  In c (ExtendedIndexer.splitToChunks text) -> (30 <= List.length (words c) <= 400)%nat.
Proof.
  rewrite extended_splitToChunks_filter. intros [Hc Hlen]%List.filter_In.
  apply Nat.leb_le in Hlen. pose proof (chunk_size text c Hc). lia.
Qed.

Lemma extended_short_text (text : string) :
  (List.length (words text) < 30)%nat -> ExtendedIndexer.splitToChunks text = [].
Proof.
  intros Hn.
  destruct (ExtendedIndexer.splitToChunks text) as [ | c cs] eqn:E; [reflexivity | ].
  exfalso.
  assert (Hc : In c (ExtendedIndexer.splitToChunks text)) by (rewrite E; now left).
  rewrite extended_splitToChunks_groups in Hc.
  apply in_map_iff in Hc as (g & _ & Hg). apply List.filter_In in Hg as [Hg Hlen].
  apply Nat.leb_le in Hlen. change ExtendedIndexer.CHUNK_MIN_WORDS with 30%nat in Hlen.
  unfold slices, slices_from in Hg. apply in_map_iff in Hg as (k & <- & _).
  rewrite slice_length in Hlen. lia.
Qed.

(** X6.  The extended indexer keeps the chunks of the simple one that hold at
    least 30 words: it drops at most the last chunk.  The words it keeps
    are the words of the text without the last [n mod 400] when that
    number is below 30; a text of fewer than 30 words gives no chunk. *)
Theorem extended_splitToChunks_drops_short_tail (text : string) :
  let n := List.length (words text) in
  ExtendedIndexer.splitToChunks text =
    List.filter (fun c => (30 <=? List.length (words c))%nat) (Indexer.splitToChunks text) /\
  flat_map words (ExtendedIndexer.splitToChunks text) =
    firstn (n - (if (n mod 400 <? 30)%nat then n mod 400 else 0)) (words text) /\
  ((n < 30)%nat -> ExtendedIndexer.splitToChunks text = []).
Proof.
  intros n. split; [apply extended_splitToChunks_filter | ].
  split; [apply extended_kept_words | apply extended_short_text].
Qed.

(** A text of 425 words: two chunks for the simple indexer, one for the
    extended one; a text of 29 words: one chunk and none. *)
Example chunk_counts :
  map (fun c => List.length (words c))
    (Indexer.splitToChunks (IndexerFixtures.text_of_words 425)) = [400; 25]%nat /\
  map (fun c => List.length (words c))
    (ExtendedIndexer.splitToChunks (IndexerFixtures.text_of_words 425)) = [400]%nat /\
  List.length (Indexer.splitToChunks (IndexerFixtures.text_of_words 29)) = 1%nat /\
  ExtendedIndexer.splitToChunks (IndexerFixtures.text_of_words 29) = [].
Proof. vm_compute. repeat split. Qed.

End ExtendedChunkFacts.

(** ** scripts/index.js: a run of the simple indexer *)

Module ScriptFacts.

Import JsText Script SliceFacts.
Local Open Scope string_scope.

Lemma records_of_app (embed : string -> list float) (f : string) (k : nat)
  (a b : list string) :
  records_of embed f k (a ++ b) =
  (records_of embed f k a ++ records_of embed f (k + List.length a) b)%list.
Proof.
  revert k. induction a as [ | c a IH]; intros k.
  - cbn. now rewrite Nat.add_0_r.
  - cbn. rewrite IH. do 3 f_equal. lia.
Qed.

Lemma records_of_length (embed : string -> list float) (f : string) (k : nat)
  (chunks : list string) :
  List.length (records_of embed f k chunks) = List.length chunks.
Proof. revert k. induction chunks as [ | c cs IH]; intros k; cbn; [ | rewrite IH]; reflexivity. Qed.

Lemma to_uint_not_Nil (n : nat) : Nat.to_uint n <> Decimal.Nil.
Proof.
  rewrite <- (DecimalNat.Unsigned.of_to n) at 1. rewrite DecimalNat.Unsigned.to_of.
  apply DecimalFacts.unorm_nonnil.
Qed.

Lemma index_text_inj (n m : nat) : Server.index_text n = Server.index_text m -> n = m.
Proof.
  unfold Server.index_text. intros E.
  apply DecimalNat.Unsigned.to_uint_inj.
  pose proof (NilZero.usu _ (to_uint_not_Nil n)) as Hn.
  pose proof (NilZero.usu _ (to_uint_not_Nil m)) as Hm.
  rewrite E in Hn. congruence.
Qed.

Lemma string_of_uint_no_hash (d : Decimal.uint) :
  ~ In "#"%char (list_ascii_of_string (NilEmpty.string_of_uint d)).
Proof.
  induction d; cbn; [tauto | | | | | | | | | | ];
    (intros [H | H]; [discriminate | contradiction]).
Qed.

Lemma index_text_no_hash (n : nat) :
  ~ In "#"%char (list_ascii_of_string (Server.index_text n)).
Proof.
  unfold Server.index_text, NilZero.string_of_uint.
  destruct (Nat.to_uint n) eqn:E; try apply string_of_uint_no_hash.
  now apply to_uint_not_Nil in E.
Qed.

Lemma hash_inside (a b : string) :
  In "#"%char (list_ascii_of_string (a ++ String "#" b)).
Proof.
  rewrite TextFacts.list_ascii_of_string_app. apply in_or_app. right. now left.
Qed.

(** A text is cut in one way only at its last [#]. *)
Lemma hash_split (a a' b b' : string) :
  ~ In "#"%char (list_ascii_of_string b) ->
  ~ In "#"%char (list_ascii_of_string b') ->
  a ++ String "#" b = a' ++ String "#" b' -> a = a' /\ b = b'.
Proof.
  intros Hb Hb'. revert a'. induction a as [ | c a IH]; intros [ | c' a'];
    rewrite ?TextFacts.append_empty_l, ?TextFacts.append_String; intros E.
  - injection E as E. now split.
  - exfalso. injection E as _ E. apply Hb. rewrite E. apply hash_inside.
  - exfalso. injection E as _ E. apply Hb'. rewrite <- E. apply hash_inside.
  - injection E as <- E. destruct (IH a' E) as [-> ->]. now split.
Qed.

Lemma id_of_inj (f f' : string) (k k' : nat) :
  id_of f k = id_of f' k' -> f = f' /\ k = k'.
Proof.
  unfold id_of.
  change ("#" ++ Server.index_text k) with (String "#" (Server.index_text k)).
  change ("#" ++ Server.index_text k') with (String "#" (Server.index_text k')).
  intros E.
  apply hash_split in E as [-> E]; try apply index_text_no_hash.
  split; [reflexivity | now apply index_text_inj].
Qed.

Lemma records_of_ids (embed : string -> list float) (f : string) (k : nat)
  (chunks : list string) (v : entry) :
  In v (records_of embed f k chunks) ->
  exists j, (k <= j < k + List.length chunks)%nat /\
            doc v = f /\ chunkIndex v = j /\ id v = id_of f j /\
            text v = nth_error chunks (j - k).
Proof.
  revert k. induction chunks as [ | c cs IH]; intros k; cbn; [tauto | ].
  intros [<- | H].
  - exists k. cbn. rewrite Nat.sub_diag. repeat split; lia.
  - destruct (IH (S k) H) as (j & Hj & Hd & Hi & Hid & Ht).
    exists j. repeat split; try assumption; try lia.
    rewrite Ht. replace (j - k)%nat with (S (j - S k)) by lia. reflexivity.
Qed.

Lemma records_of_NoDup (embed : string -> list float) (f : string) (k : nat)
  (chunks : list string) :
  List.NoDup (map id (records_of embed f k chunks)).
Proof.
  revert k. induction chunks as [ | c cs IH]; intros k; cbn; constructor; [ | apply IH].
  intros (v & Hid & Hv)%in_map_iff.
  destruct (records_of_ids _ _ _ _ _ Hv) as (j & Hj & _ & _ & Hid' & _).
  rewrite Hid' in Hid. apply id_of_inj in Hid as [_ Hid]. lia.
Qed.

Lemma flat_records_NoDup (embed : string -> list float)
  (chunks : string -> list string) (files : list string) :
  List.NoDup files ->
  List.NoDup (map id (flat_map (fun f => records_of embed f 0 (chunks f)) files)).
Proof.
  induction 1 as [ | f files Hf _ IH]; cbn; [constructor | ].
  rewrite map_app. apply List.NoDup_app; [apply records_of_NoDup | exact IH | ].
  intros x Hx Hx'.
  apply in_map_iff in Hx as (v & <- & Hv).
  apply in_map_iff in Hx' as (v' & Hid & Hv').
  apply in_flat_map in Hv' as (f' & Hf' & Hv').
  destruct (records_of_ids _ _ _ _ _ Hv) as (j & _ & _ & _ & E & _).
  destruct (records_of_ids _ _ _ _ _ Hv') as (j' & _ & _ & _ & E' & _).
  rewrite E, E' in Hid. apply id_of_inj in Hid as [-> _]. contradiction.
Qed.

Lemma expected_incl (size : nat) (chunks_of : string -> list string)
  (files files' : list string) (e : event) :
  incl files files' -> expected size chunks_of files e -> expected size chunks_of files' e.
Proof.
  intros Hincl. destruct e as [f | b | vs]; cbn.
  - apply Hincl.
  - intros (f & Hf & Hb). exists f. split; [now apply Hincl | exact Hb].
  - tauto.
Qed.

Lemma slice_not_nil {A : Type} (arr : list A) (i step : nat) :
  (0 < step)%nat -> (i < List.length arr)%nat -> slice arr i (i + step) <> [].
Proof.
  intros Hs Hi E. apply (f_equal (@List.length A)) in E.
  rewrite slice_length in E. cbn in E. lia.
Qed.

End ScriptFacts.

Module IndexerFacts.

Import JsText Script SliceFacts ScriptFacts ChunkFacts.
Local Open Scope string_scope.

Lemma batch_pos : (0 < Indexer.BATCH)%nat.
Proof. unfold Indexer.BATCH. lia. Qed.

Section World.

Variable readFileSync : string -> Json.outcome string.
Variable embeddings_create : list string -> Server.provider_result (list (list float)).

Lemma embedMany_spec (texts : list string) (s : state) :
  texts <> [] ->
  Indexer.embedMany embeddings_create texts s =
  (match embeddings_create texts with
   | Server.Resolved embs => Json.Normal embs
   | Server.Rejected details => Json.Throw details
   end,
   mk_state (vectors s) (trace s ++ [EmbeddingsCreate texts])).
Proof.
  intros Hne. unfold Indexer.embedMany.
  destruct texts as [ | t texts]; [congruence | ].
  cbn. now destruct (embeddings_create (t :: texts)).
Qed.

Lemma push_loop_trace (f : string) (i : nat) (batch : list string)
  (embs : list (list float)) (j : nat) (s : state) :
  exists vs, Indexer.push_loop f i batch embs j s = (Json.Normal tt, mk_state vs (trace s)).
Proof.
  revert j s. induction embs as [ | e embs IH]; intros j s; cbn.
  - destruct s. now eexists.
  - unfold bind, push. cbn.
    match goal with |- context [Indexer.push_loop _ _ _ _ _ ?s'] =>
      destruct (IH (S j) s') as [vs E] end.
    exists vs. exact E.
Qed.

Lemma batch_loop_step (fuel : nat) (f : string) (chunks : list string) (i : nat)
  (s : state) :
  (i < List.length chunks)%nat ->
  let batch := slice chunks i (i + Indexer.BATCH) in
  let s1 := mk_state (vectors s) (trace s ++ [EmbeddingsCreate batch]) in
  Indexer.batch_loop embeddings_create (S fuel) f chunks i s =
  match embeddings_create batch with
  | Server.Resolved embs =>
      Indexer.batch_loop embeddings_create fuel f chunks (i + Indexer.BATCH)
        (snd (Indexer.push_loop f i batch embs 0 s1))
  | Server.Rejected details => (Json.Throw details, s1)
  end.
Proof.
  intros Hi batch s1. cbn [Indexer.batch_loop].
  destruct (Nat.ltb_spec i (List.length chunks)) as [_ | ?]; [ | lia].
  cbv zeta. fold batch. unfold bind at 1.
  rewrite embedMany_spec by (apply slice_not_nil; [apply batch_pos | exact Hi]).
  fold s1. destruct (embeddings_create batch) as [embs | details]; [ | reflexivity].
  unfold bind at 1.
  destruct (push_loop_trace f i batch embs 0 s1) as [vs ->]. reflexivity.
Qed.

Lemma batch_loop_stop (fuel : nat) (f : string) (chunks : list string) (i : nat)
  (s : state) :
  (List.length chunks <= i)%nat ->
  Indexer.batch_loop embeddings_create fuel f chunks i s = (Json.Normal tt, s).
Proof.
  intros Hi. destruct fuel as [ | fuel]; cbn [Indexer.batch_loop]; [reflexivity | ].
  destruct (Nat.ltb_spec i (List.length chunks)) as [? | _]; [lia | reflexivity].
Qed.

(** The loop is over once the chunks are used up: more turns change
    nothing. *)
Lemma batch_loop_more_fuel (fuel : nat) (f : string) (chunks : list string) (i : nat)
  (s : state) :
  (List.length chunks - i <= fuel)%nat ->
  Indexer.batch_loop embeddings_create (S fuel) f chunks i s =
  Indexer.batch_loop embeddings_create fuel f chunks i s.
Proof.
  revert i s. induction fuel as [ | fuel IH]; intros i s Hf.
  - now rewrite !batch_loop_stop by lia.
  - destruct (Nat.lt_ge_cases i (List.length chunks)) as [Hi | Hi].
    + rewrite (batch_loop_step (S fuel)), (batch_loop_step fuel) by exact Hi. cbv zeta.
      destruct (embeddings_create (slice chunks i (i + Indexer.BATCH))); [ | reflexivity].
      apply IH. pose proof batch_pos. lia.
    + now rewrite !batch_loop_stop by lia.
Qed.

Lemma batch_loop_enough_fuel (fuel : nat) (f : string) (chunks : list string) (i : nat)
  (s : state) :
  (List.length chunks - i <= fuel)%nat ->
  Indexer.batch_loop embeddings_create fuel f chunks i s =
  Indexer.batch_loop embeddings_create (List.length chunks - i) f chunks i s.
Proof.
  intros Hf. induction fuel as [ | fuel IH].
  - now replace (List.length chunks - i)%nat with 0%nat by lia.
  - destruct (Nat.eq_dec (List.length chunks - i) (S fuel)) as [-> | Hne]; [reflexivity | ].
    rewrite batch_loop_more_fuel by lia. apply IH. lia.
Qed.

(** The calls of the batch loop: requests for batches of the chunks,
    all of them answered when the loop comes to its end. *)
Lemma batch_loop_trace (fuel : nat) (f : string) (chunks : list string) (i : nat)
  (s : state) :
  exists new,
    trace (snd (Indexer.batch_loop embeddings_create fuel f chunks i s)) =
      (trace s ++ map EmbeddingsCreate new)%list /\
    Forall (batch_of Indexer.BATCH chunks) new /\
    ((exists u, fst (Indexer.batch_loop embeddings_create fuel f chunks i s) = Json.Normal u) ->
     Forall (fun b => exists embs, embeddings_create b = Server.Resolved embs) new).
Proof.
  revert i s. induction fuel as [ | fuel IH]; intros i s.
  - exists []. cbn. rewrite app_nil_r. repeat split; constructor.
  - destruct (Nat.lt_ge_cases i (List.length chunks)) as [Hi | Hi].
    + rewrite (batch_loop_step fuel f chunks i s Hi). cbv zeta.
      destruct (embeddings_create (slice chunks i (i + Indexer.BATCH))) as [embs | details] eqn:E.
      * destruct (push_loop_trace f i (slice chunks i (i + Indexer.BATCH)) embs 0
                    (mk_state (vectors s)
                       (trace s ++ [EmbeddingsCreate (slice chunks i (i + Indexer.BATCH))])))
          as [vs ->].
        cbn [snd trace].
        destruct (IH (i + Indexer.BATCH)%nat
                    (mk_state vs
                       (trace s ++ [EmbeddingsCreate (slice chunks i (i + Indexer.BATCH))])))
          as (new & Ht & Hb & Hok).
        exists (slice chunks i (i + Indexer.BATCH) :: new). split; [ | split].
        -- rewrite Ht. cbn [trace map]. now rewrite <- app_assoc.
        -- constructor; [exists i; split; [exact Hi | reflexivity] | exact Hb].
        -- intros Hn. constructor; [now exists embs | now apply Hok].
      * exists [slice chunks i (i + Indexer.BATCH)]. cbn [fst snd trace map]. split; [ | split].
        -- reflexivity.
        -- constructor; [exists i; split; [exact Hi | reflexivity] | constructor].
        -- intros [u Hu]. discriminate.
    + rewrite (batch_loop_stop _ f chunks i s Hi).
      exists []. cbn. rewrite app_nil_r. repeat split; constructor.
Qed.

(** The chunks of the entry [f], none when it cannot be read. *)
Lemma index_file_trace (f : string) (s : state) :
  let chunks_of f :=
    match readFileSync f with
    | Json.Normal t => Indexer.splitToChunks t
    | Json.Throw _ => []
    end in
  exists new,
    trace (snd (Indexer.index_file readFileSync embeddings_create f s)) = (trace s ++ new)%list /\
    Forall (expected Indexer.BATCH chunks_of [f]) new /\
    ((exists u, fst (Indexer.index_file readFileSync embeddings_create f s) = Json.Normal u) ->
     Forall (succeeded readFileSync embeddings_create) new).
Proof.
  intros chunks_of. unfold Indexer.index_file, bind, emit, of_outcome.
  destruct (readFileSync f) as [t | message] eqn:E.
  - unfold ret.
    match goal with |- context [Indexer.batch_loop _ ?n _ ?c _ ?s'] =>
      destruct (batch_loop_trace n f c 0 s') as (new & Ht & Hb & Hok) end.
    exists (ReadFile f :: map EmbeddingsCreate new). split; [ | split].
    + rewrite Ht. cbn [trace]. now rewrite <- app_assoc.
    + constructor; [now left | ].
      apply Forall_map. eapply List.Forall_impl; [ | exact Hb].
      intros b Hbatch. exists f. split; [now left | ].
      unfold chunks_of. now rewrite E.
    + intros Hn. constructor; [now exists t | ].
      apply Forall_map. eapply List.Forall_impl; [ | exact (Hok Hn)].
      intros b Hres. exact Hres.
  - exists [ReadFile f]. cbn [fst snd trace]. split; [reflexivity | ]. split.
    + repeat constructor.
    + intros [u Hu]. discriminate.
Qed.

Lemma file_loop_trace (files : list string) (s : state) :
  let chunks_of f :=
    match readFileSync f with
    | Json.Normal t => Indexer.splitToChunks t
    | Json.Throw _ => []
    end in
  exists new,
    trace (snd (Indexer.file_loop readFileSync embeddings_create files s)) = (trace s ++ new)%list /\
    Forall (expected Indexer.BATCH chunks_of files) new /\
    ((exists u, fst (Indexer.file_loop readFileSync embeddings_create files s) = Json.Normal u) ->
     Forall (succeeded readFileSync embeddings_create) new).
Proof.
  intros chunks_of. revert s.
  induction files as [ | f files IH]; intros s; cbn [Indexer.file_loop].
  - exists []. cbn. rewrite app_nil_r. repeat split; constructor.
  - unfold bind.
    destruct (index_file_trace f s) as (new1 & Ht1 & He1 & Hok1). fold chunks_of in He1.
    destruct (Indexer.index_file readFileSync embeddings_create f s) as [[u | message] s1].
    + destruct (IH s1) as (new2 & Ht2 & He2 & Hok2). cbn [fst snd] in *.
      exists (new1 ++ new2)%list. split; [ | split].
      * rewrite Ht2, Ht1. now rewrite app_assoc.
      * apply Forall_app. split.
        -- eapply List.Forall_impl; [ | exact He1].
           intros e. apply expected_incl. intros x [<- | []]. now left.
        -- eapply List.Forall_impl; [ | exact He2].
           intros e. apply expected_incl. intros x Hx. now right.
      * intros Hn. apply Forall_app. split; [apply Hok1; now exists u | now apply Hok2].
    + cbn [fst snd] in *. exists new1. split; [exact Ht1 | ]. split.
      * eapply List.Forall_impl; [ | exact He1].
        intros e. apply expected_incl. intros x [<- | []]. now left.
      * intros [u Hu]. discriminate.
Qed.

End World.

(** *** A run in which every call succeeds *)

Section GoodWorld.

Variable content : string -> string.
Variable embed : string -> list float.

Let readFileSync (f : string) : Json.outcome string := Json.Normal (content f).
Let embeddings_create (texts : list string) : Server.provider_result (list (list float)) :=
  Server.Resolved (map embed texts).

Lemma push_loop_world (f : string) (i : nat) (batch rest : list string) (j : nat)
  (s : state) :
  skipn j batch = rest ->
  Indexer.push_loop f i batch (map embed rest) j s =
  (Json.Normal tt, mk_state (vectors s ++ records_of embed f (i + j) rest) (trace s)).
Proof.
  revert j s. induction rest as [ | c rest IH]; intros j s Hrest; cbn.
  - rewrite app_nil_r. now destruct s.
  - unfold bind, push. cbn.
    assert (Hj : nth_error batch j = Some c).
    { rewrite <- (firstn_skipn j batch), Hrest.
      assert (Hlen : (j <= List.length batch)%nat).
      { destruct (Nat.le_gt_cases j (List.length batch)) as [H | H]; [exact H | ].
        rewrite skipn_all2 in Hrest by lia. discriminate. }
      rewrite nth_error_app2 by (rewrite length_firstn; lia).
      rewrite length_firstn, Nat.min_l, Nat.sub_diag by lia. reflexivity. }
    rewrite Hj, IH.
    + cbn. rewrite <- app_assoc. cbn.
      replace (i + S j)%nat with (S (i + j)) by lia. reflexivity.
    + replace (S j) with (1 + j)%nat by lia.
      rewrite <- skipn_skipn, Hrest. reflexivity.
Qed.

Lemma batch_loop_world (fuel : nat) (f : string) (chunks : list string) (i : nat)
  (s : state) :
  (List.length chunks - i <= fuel)%nat ->
  Indexer.batch_loop embeddings_create fuel f chunks i s =
  (Json.Normal tt,
   mk_state (vectors s ++ records_of embed f i (skipn i chunks))
            (trace s ++ map EmbeddingsCreate (slices_from Indexer.BATCH chunks i))).
Proof.
  revert i s. induction fuel as [ | fuel IH]; intros i s Hf; cbn [Indexer.batch_loop].
  - rewrite (slices_from_end _ batch_pos), skipn_all2 by lia.
    cbn. rewrite !app_nil_r. now destruct s.
  - destruct (Nat.ltb_spec i (List.length chunks)) as [Hi | Hi].
    + cbv zeta. unfold bind at 1.
      rewrite embedMany_spec by (apply slice_not_nil; [apply batch_pos | exact Hi]).
      unfold embeddings_create at 1. unfold bind at 1.
      rewrite (push_loop_world f i _ (slice chunks i (i + Indexer.BATCH)) 0) by reflexivity.
      rewrite IH by (pose proof batch_pos; lia).
      cbn [vectors trace].
      rewrite (slices_from_step _ batch_pos chunks i Hi). cbn [map].
      rewrite <- !app_assoc. cbn [app]. do 2 f_equal.
      rewrite <- (slice_skipn Indexer.BATCH batch_pos chunks i).
      rewrite records_of_app, Nat.add_0_r. do 2 f_equal.
      destruct (Nat.le_gt_cases (i + Indexer.BATCH) (List.length chunks)) as [Hle | Hgt].
      * rewrite slice_length. f_equal. lia.
      * rewrite skipn_all2 by lia. reflexivity.
    + rewrite (slices_from_end _ batch_pos), skipn_all2 by lia.
      cbn. rewrite !app_nil_r. now destruct s.
Qed.

Lemma index_file_world (f : string) (s : state) :
  let chunks := Indexer.splitToChunks (content f) in
  Indexer.index_file readFileSync embeddings_create f s =
  (Json.Normal tt,
   mk_state (vectors s ++ records_of embed f 0 chunks)
            (trace s ++ calls_of Indexer.BATCH f chunks)).
Proof.
  intros chunks. unfold Indexer.index_file, bind, emit, readFileSync, of_outcome, ret.
  fold chunks. rewrite batch_loop_world by lia.
  cbn [vectors trace skipn]. unfold calls_of, slices. now rewrite <- app_assoc.
Qed.

Lemma file_loop_world (files : list string) (s : state) :
  Indexer.file_loop readFileSync embeddings_create files s =
  (Json.Normal tt,
   mk_state
     (vectors s ++
      flat_map (fun f => records_of embed f 0 (Indexer.splitToChunks (content f))) files)
     (trace s ++
      flat_map (fun f => calls_of Indexer.BATCH f (Indexer.splitToChunks (content f))) files)).
Proof.
  revert s. induction files as [ | f files IH]; intros s; cbn [Indexer.file_loop flat_map].
  - unfold ret. rewrite !app_nil_r. now destruct s.
  - unfold bind. rewrite index_file_world, IH. cbn [vectors trace].
    now rewrite <- !app_assoc.
Qed.

End GoodWorld.

Lemma main_unfold (readFileSync : string -> Json.outcome string)
  (embeddings_create : list string -> Server.provider_result (list (list float)))
  (writeFileSync : list entry -> Json.outcome unit) (entries : list string) :
  Indexer.main true (Json.Normal entries) readFileSync embeddings_create writeFileSync =
  match Indexer.file_loop readFileSync embeddings_create
          (List.filter Indexer.accepted entries) (mk_state [] []) with
  | (Json.Normal _, s1) =>
      ((trace s1 ++ [WriteFile (vectors s1)])%list,
       match writeFileSync (vectors s1) with
       | Json.Normal _ => Completed
       | Json.Throw _ => Exited 1
       end)
  | (Json.Throw _, s1) => (trace s1, Exited 1)
  end.
Proof.
  unfold Indexer.main, run, bind, get_vectors, emit, of_outcome, ret, throw.
  cbn [negb]. cbv beta iota.
  destruct (Indexer.file_loop readFileSync embeddings_create
              (List.filter Indexer.accepted entries) (mk_state [] []))
    as [[u | message] s1]; [ | reflexivity].
  cbn [vectors trace]. now destruct (writeFileSync (vectors s1)).
Qed.

(** X7.  When [docs/] exists, every entry can be read, the provider returns
    one embedding per text and the file can be written, a run of the
    simple indexer reads each accepted entry in directory order, requests
    the embeddings of its chunks in batches of 16, and writes, once and as
    its last act, one record per chunk: entry after entry and chunk after
    chunk, numbered from 0 within the entry, with the chunk as text and
    [doc#chunkIndex] as id. *)
Theorem successful_run_writes_one_record_per_chunk (entries : list string)
  (content : string -> string) (embed : string -> list float) :
  let files := List.filter Indexer.accepted entries in
  let chunks f := Indexer.splitToChunks (content f) in
  Indexer.main true (Json.Normal entries) (fun f => Json.Normal (content f))
    (fun texts => Server.Resolved (map embed texts)) (fun _ => Json.Normal tt) =
  ((flat_map (fun f => calls_of Indexer.BATCH f (chunks f)) files ++
    [WriteFile (flat_map (fun f => records_of embed f 0 (chunks f)) files)])%list,
   Completed).
Proof.
  intros files chunks. rewrite main_unfold. fold files.
  rewrite (file_loop_world content embed files). reflexivity.
Qed.

(** X8.  In a run of the simple indexer in which every call succeeds, over a
    directory without repeated entry names, no two records written have
    the same id, and the id of each is its [doc] and [chunkIndex] joined
    by [#]. *)
Theorem written_ids_are_unique (entries : list string) (content : string -> string)
  (embed : string -> list float) :
  List.NoDup entries ->
  exists calls vs,
    Indexer.main true (Json.Normal entries) (fun f => Json.Normal (content f))
      (fun texts => Server.Resolved (map embed texts)) (fun _ => Json.Normal tt) =
    ((calls ++ [WriteFile vs])%list, Completed) /\
    List.NoDup (map id vs) /\
    Forall (fun v => id v = id_of (doc v) (chunkIndex v)) vs.
Proof.
  intros Hnd. eexists. eexists. split.
  { rewrite main_unfold, (file_loop_world content embed). reflexivity. }
  split.
  - apply flat_records_NoDup. now apply List.NoDup_filter.
  - apply List.Forall_forall. intros v (f & _ & Hv)%in_flat_map.
    destruct (records_of_ids _ _ _ _ _ Hv) as (j & _ & -> & -> & -> & _). reflexivity.
Qed.

(** X8, an instance. *)
Lemma written_ids_are_unique_witness :
  List.NoDup ["a.txt"; "b.md"] /\
  exists calls vs,
    Indexer.main true (Json.Normal ["a.txt"; "b.md"]) (fun f => Json.Normal "one two")
      (fun texts => Server.Resolved (map (fun _ => [1%float]) texts))
      (fun _ => Json.Normal tt) =
    ((calls ++ [WriteFile vs])%list, Completed) /\
    List.NoDup (map id vs) /\
    Forall (fun v => id v = id_of (doc v) (chunkIndex v)) vs.
Proof.
  assert (H : List.NoDup ["a.txt"; "b.md"]).
  { repeat constructor; cbn; intuition discriminate. }
  split; [exact H | ].
  exact (written_ids_are_unique ["a.txt"; "b.md"] (fun _ => "one two")
           (fun _ => [1%float]) H).
Defined.

Section AnyWorld.

Variable existsSync_docs : bool.
Variable readdirSync_docs : Json.outcome (list string).
Variable readFileSync : string -> Json.outcome string.
Variable embeddings_create : list string -> Server.provider_result (list (list float)).
Variable writeFileSync : list entry -> Json.outcome unit.

(** A run, whatever the outside world does: reads and requests, then
    either the end with code 1, or the write after calls that all went
    well. *)
Lemma main_trace :
  let r := Indexer.main existsSync_docs readdirSync_docs readFileSync embeddings_create
             writeFileSync in
  let chunks_of f :=
    match readFileSync f with
    | Json.Normal t => Indexer.splitToChunks t
    | Json.Throw _ => []
    end in
  exists files new,
    Forall (expected Indexer.BATCH chunks_of files) new /\
    ((fst r = new /\ snd r = Exited 1) \/
     (exists vs,
        fst r = (new ++ [WriteFile vs])%list /\
        Forall (succeeded readFileSync embeddings_create) new /\
        snd r = match writeFileSync vs with
                | Json.Normal _ => Completed
                | Json.Throw _ => Exited 1
                end)).
Proof.
  intros r chunks_of. unfold r.
  destruct existsSync_docs.
  2: { exists [], []. split; [constructor | left; now split]. }
  destruct readdirSync_docs as [entries | message].
  2: { exists [], []. split; [constructor | left; now split]. }
  rewrite main_unfold.
  destruct (file_loop_trace readFileSync embeddings_create
              (List.filter Indexer.accepted entries) (mk_state [] []))
    as (new & Ht & He & Hok).
  fold chunks_of in He. cbn [trace app] in Ht.
  destruct (Indexer.file_loop readFileSync embeddings_create
              (List.filter Indexer.accepted entries) (mk_state [] []))
    as [[u | message] s1]; cbn [fst snd] in *.
  - exists (List.filter Indexer.accepted entries), new. split; [exact He | right].
    exists (vectors s1). rewrite Ht.
    split; [reflexivity | split; [ | reflexivity]]. apply Hok. now exists u.
  - exists (List.filter Indexer.accepted entries), new. split; [exact He | left].
    rewrite Ht. now split.
Qed.

End AnyWorld.

Lemma batch_of_size (size : nat) (chunks b : list string) :
  (0 < size)%nat -> batch_of size chunks b ->
  (1 <= List.length b <= size)%nat /\ incl b chunks.
Proof.
  intros Hs (k & Hk & ->). split.
  - rewrite slice_length. lia.
  - intros c Hc. unfold slice in Hc. apply ArrayFacts.firstn_In in Hc.
    rewrite <- (firstn_skipn k chunks). apply in_or_app. now right.
Qed.



(** X10.  When a read or a request of a run of the simple indexer fails, the
    run ends with exit code 1 and [vectors.json] is not written: the
    records gathered before the failure are lost. *)
Theorem failed_call_means_nothing_written (existsSync_docs : bool)
  (readdirSync_docs : Json.outcome (list string))
  (readFileSync : string -> Json.outcome string)
  (embeddings_create : list string -> Server.provider_result (list (list float)))
  (writeFileSync : list entry -> Json.outcome unit) :
  let r := Indexer.main existsSync_docs readdirSync_docs readFileSync embeddings_create
             writeFileSync in
  (exists f message, In (ReadFile f) (fst r) /\ readFileSync f = Json.Throw message) \/
  (exists b details,
     In (EmbeddingsCreate b) (fst r) /\ embeddings_create b = Server.Rejected details) ->
  snd r = Exited 1 /\ forall vs, ~ In (WriteFile vs) (fst r).
Proof.
  intros r Hfail. unfold r in *.
  destruct (main_trace existsSync_docs readdirSync_docs readFileSync embeddings_create
              writeFileSync) as (files & new & He & Hr).
  cbv zeta in He, Hr.
  destruct Hr as [[E1 E2] | (vs & E1 & Hok & _)].
  - split; [exact E2 | ]. intros vs Hvs. rewrite E1 in Hvs.
    exact (proj1 (List.Forall_forall _ _) He _ Hvs).
  - exfalso. rewrite E1 in Hfail.
    destruct Hfail as [(f & message & Hin & Hf) | (b & details & Hin & Hb)];
      (apply in_app_or in Hin as [Hin | [Hin | []]]; [ | discriminate]);
      pose proof (proj1 (List.Forall_forall _ _) Hok _ Hin) as [x Hx]; congruence.
Qed.

(** X10, an instance. *)
Lemma failed_call_means_nothing_written_witness :
  let r := Indexer.main true (Json.Normal ["a.txt"; "b.txt"]) (fun _ => Json.Normal "one two")
             (fun texts => Server.Rejected "busy") (fun _ => Json.Normal tt) in
  ((exists f message, In (ReadFile f) (fst r) /\
      (fun _ : string => Json.Normal "one two") f = Json.Throw message) \/
   (exists b details, In (EmbeddingsCreate b) (fst r) /\
      (fun _ : list string => @Server.Rejected (list (list float)) "busy") b =
      Server.Rejected details)) /\
  snd r = Exited 1 /\ forall vs, ~ In (WriteFile vs) (fst r).
Proof.
  intros r.
  assert (H : (exists f message, In (ReadFile f) (fst r) /\
                 (fun _ : string => Json.Normal "one two") f = Json.Throw message) \/
              (exists b details, In (EmbeddingsCreate b) (fst r) /\
                 (fun _ : list string => @Server.Rejected (list (list float)) "busy") b =
                 Server.Rejected details)).
  { right. exists ["one two"], "busy". split; [ | reflexivity].
    vm_compute. right. left. reflexivity. }
  split; [exact H | ].
  exact (failed_call_means_nothing_written true (Json.Normal ["a.txt"; "b.txt"])
           (fun _ => Json.Normal "one two") (fun _ => Server.Rejected "busy")
           (fun _ => Json.Normal tt) H).
Defined.

(** A run over three entries, one of them not accepted and one blank;
    and a run whose provider returns two embeddings for one text: the
    second record has no text. *)
Example simple_runs :
  Indexer.main true (Json.Normal ["a.txt"; "b.bin"; "c.md"])
    (fun f => Json.Normal (if f =? "a.txt" then "hello  world" else " "))
    (fun texts => Server.Resolved (map (fun _ => [1%float]) texts))
    (fun _ => Json.Normal tt) =
  ([ReadFile "a.txt"; EmbeddingsCreate ["hello world"]; ReadFile "c.md";
    WriteFile [mk_entry "a.txt#0" "a.txt" 0 (Some "hello world") [1%float]]],
   Completed) /\
  Indexer.main true (Json.Normal ["a.txt"])
    (fun _ => Json.Normal "hello")
    (fun _ => Server.Resolved [[1%float]; [2%float]])
    (fun _ => Json.Normal tt) =
  ([ReadFile "a.txt"; EmbeddingsCreate ["hello"];
    WriteFile [mk_entry "a.txt#0" "a.txt" 0 (Some "hello") [1%float];
               mk_entry "a.txt#1" "a.txt" 1 None [2%float]]],
   Completed) /\
  Indexer.main false (Json.Normal ["a.txt"])
    (fun _ => Json.Normal "hello")
    (fun _ => Server.Resolved [[1%float]])
    (fun _ => Json.Normal tt) = ([], Exited 1).
Proof. vm_compute. repeat split. Qed.

End IndexerFacts.

(** ** scripts/index.js, extended: a run *)

Module ExtendedIndexerFacts.

Import JsText Script TextFacts SliceFacts ScriptFacts ChunkFacts ExtendedChunkFacts IndexerFacts.
Local Open Scope string_scope.

(** The batch loop of the extended indexer is that of the simple one. *)
Lemma push_loop_same (f : string) (i : nat) (batch : list string)
  (embs : list (list float)) (j : nat) (s : state) :
  ExtendedIndexer.push_loop f i batch embs j s = Indexer.push_loop f i batch embs j s.
Proof.
  revert j s. induction embs as [ | e embs IH]; intros j s; [reflexivity | ].
  cbn. unfold bind. cbn. apply IH.
Qed.

Lemma batch_loop_same
  (embeddings_create : list string -> Server.provider_result (list (list float)))
  (fuel : nat) (f : string) (chunks : list string) (i : nat) (s : state) :
  ExtendedIndexer.batch_loop embeddings_create fuel f chunks i s =
  Indexer.batch_loop embeddings_create fuel f chunks i s.
Proof.
  revert i s. induction fuel as [ | fuel IH]; intros i s; [reflexivity | ].
  cbn [ExtendedIndexer.batch_loop Indexer.batch_loop].
  change ExtendedIndexer.BATCH with Indexer.BATCH.
  destruct (i <? List.length chunks)%nat; [ | reflexivity].
  cbv zeta. unfold bind.
  change (ExtendedIndexer.embedMany embeddings_create) with (Indexer.embedMany embeddings_create).
  destruct (Indexer.embedMany embeddings_create (slice chunks i (i + Indexer.BATCH)) s)
    as [[embs | message] s1]; [ | reflexivity].
  rewrite push_loop_same.
  destruct (Indexer.push_loop f i (slice chunks i (i + Indexer.BATCH)) embs 0 s1)
    as [[u | message] s2]; [apply IH | reflexivity].
Qed.

Lemma blank_no_words (text : string) : JsString.trim text = "" -> words text = [].
Proof. intros H. now rewrite <- words_trim, H. Qed.

Section Readers.

Variable readFileSync : string -> Json.outcome string.
Variable pdf_text : string -> Json.outcome (option string).
Variable extractRawText_value : string -> Json.outcome (option string).
Variable embeddings_create : list string -> Server.provider_result (list (list float)).

Let extracted := ExtendedIndexer.extracted readFileSync pdf_text extractRawText_value.
Let index_file :=
  ExtendedIndexer.index_file readFileSync pdf_text extractRawText_value embeddings_create.

(** [index_file] comes to the batch loop over the chunks of the text;
    both tests that skip an entry are passed by a text with chunks. *)
Lemma index_file_unfold (f : string) (s : state) :
  let chunks := ExtendedIndexer.splitToChunks (extracted f) in
  index_file f s =
  Indexer.batch_loop embeddings_create (List.length chunks) f chunks 0
    (mk_state (vectors s) (trace s ++ [ReadFile f])).
Proof.
  intros chunks.
  unfold index_file, ExtendedIndexer.index_file, ExtendedIndexer.extractText, bind, emit, ret.
  fold extracted. fold chunks.
  assert (Hskip : chunks = [] ->
            Indexer.batch_loop embeddings_create (List.length chunks) f chunks 0
              (mk_state (vectors s) (trace s ++ [ReadFile f])) =
            (Json.Normal tt, mk_state (vectors s) (trace s ++ [ReadFile f]))).
  { intros ->. reflexivity. }
  destruct (String.eqb_spec (extracted f) "") as [E | _].
  - cbn [orb]. symmetry. apply Hskip. unfold chunks. now rewrite E.
  - destruct (String.eqb_spec (JsString.trim (extracted f)) "") as [E | _]; cbn [orb].
    + symmetry. apply Hskip. apply extended_short_text.
      rewrite (blank_no_words _ E). cbn. lia.
    + destruct (Nat.eqb_spec (List.length chunks) 0) as [E | _].
      * symmetry. apply Hskip. now apply length_zero_iff_nil.
      * apply batch_loop_same.
Qed.

Lemma extended_index_file_trace (f : string) (s : state) :
  let chunks_of f := ExtendedIndexer.splitToChunks (extracted f) in
  exists new,
    trace (snd (index_file f s)) = (trace s ++ ReadFile f :: map EmbeddingsCreate new)%list /\
    Forall (batch_of Indexer.BATCH (chunks_of f)) new /\
    ((exists u, fst (index_file f s) = Json.Normal u) ->
     Forall (fun b => exists embs, embeddings_create b = Server.Resolved embs) new).
Proof.
  intros chunks_of. rewrite index_file_unfold. cbv zeta.
  match goal with |- context [Indexer.batch_loop _ ?n _ ?c _ ?s'] =>
    destruct (batch_loop_trace embeddings_create n f c 0 s') as (new & Ht & Hb & Hok) end.
  exists new. split; [ | split; assumption].
  rewrite Ht. cbn [trace]. now rewrite <- app_assoc.
Qed.

Lemma extended_file_loop_trace (files : list string) (s : state) :
  let chunks_of f := ExtendedIndexer.splitToChunks (extracted f) in
  let r := ExtendedIndexer.file_loop readFileSync pdf_text extractRawText_value
             embeddings_create files s in
  exists new,
    trace (snd r) = (trace s ++ new)%list /\
    Forall (expected Indexer.BATCH chunks_of files) new /\
    ((exists u, fst r = Json.Normal u) ->
     Forall (fun e => match e with
                      | EmbeddingsCreate b => exists embs, embeddings_create b = Server.Resolved embs
                      | _ => True
                      end) new).
Proof.
  intros chunks_of. cbv zeta. revert s.
  induction files as [ | f files IH]; intros s; cbn [ExtendedIndexer.file_loop].
  - exists []. cbn. rewrite app_nil_r. repeat split; constructor.
  - unfold bind. fold index_file.
    destruct (extended_index_file_trace f s) as (new1 & Ht1 & He1 & Hok1). cbv zeta in He1.
    assert (He1' : Forall (expected Indexer.BATCH chunks_of (f :: files))
                     (ReadFile f :: map EmbeddingsCreate new1)).
    { constructor; [now left | ]. apply Forall_map.
      eapply List.Forall_impl; [ | exact He1].
      intros b Hb. exists f. split; [now left | exact Hb]. }
    destruct (index_file f s) as [[u | message] s1]; cbn [fst snd] in *.
    + destruct (IH s1) as (new2 & Ht2 & He2 & Hok2).
      exists ((ReadFile f :: map EmbeddingsCreate new1) ++ new2)%list. split; [ | split].
      * rewrite Ht2, Ht1. now rewrite <- app_assoc.
      * apply Forall_app. split; [exact He1' | ].
        eapply List.Forall_impl; [ | exact He2].
        intros e. apply expected_incl. intros x Hx. now right.
      * intros Hn. apply Forall_app. split; [ | now apply Hok2].
        constructor; [exact I | ]. apply Forall_map. apply Hok1. now exists u.
    + exists (ReadFile f :: map EmbeddingsCreate new1). split; [exact Ht1 | ].
      split; [exact He1' | ]. intros [u Hu]. discriminate.
Qed.

Variable writeFileSync : list entry -> Json.outcome unit.

Lemma extended_main_unfold (entries : list string) :
  List.filter ExtendedIndexer.accepted entries <> [] ->
  ExtendedIndexer.main true (Json.Normal entries) readFileSync pdf_text extractRawText_value
    embeddings_create writeFileSync =
  match ExtendedIndexer.file_loop readFileSync pdf_text extractRawText_value embeddings_create
          (List.filter ExtendedIndexer.accepted entries) (mk_state [] []) with
  | (Json.Normal _, s1) =>
      ((trace s1 ++ [WriteFile (vectors s1)])%list,
       match writeFileSync (vectors s1) with
       | Json.Normal _ => Completed
       | Json.Throw _ => Exited 1
       end)
  | (Json.Throw _, s1) => (trace s1, Exited 1)
  end.
Proof.
  intros Hne. unfold ExtendedIndexer.main. cbn [negb].
  destruct (List.filter ExtendedIndexer.accepted entries) as [ | f files] eqn:E;
    [congruence | ].
  cbn [List.length Nat.eqb].
  unfold run, bind, get_vectors, emit, of_outcome, ret, throw.
  destruct (ExtendedIndexer.file_loop readFileSync pdf_text extractRawText_value
              embeddings_create (f :: files) (mk_state [] []))
    as [[u | message] s1]; [ | reflexivity].
  cbn [vectors trace]. now destruct (writeFileSync (vectors s1)).
Qed.

Lemma extended_main_trace (existsSync_docs : bool)
  (readdirSync_docs : Json.outcome (list string)) :
  let r := ExtendedIndexer.main existsSync_docs readdirSync_docs readFileSync pdf_text
             extractRawText_value embeddings_create writeFileSync in
  let chunks_of f := ExtendedIndexer.splitToChunks (extracted f) in
  exists files new,
    Forall (expected Indexer.BATCH chunks_of files) new /\
    ((fst r = new /\ snd r = Exited 1) \/
     (exists vs,
        fst r = (new ++ [WriteFile vs])%list /\
        Forall (fun e => match e with
                         | EmbeddingsCreate b =>
                             exists embs, embeddings_create b = Server.Resolved embs
                         | _ => True
                         end) new /\
        snd r = match writeFileSync vs with
                | Json.Normal _ => Completed
                | Json.Throw _ => Exited 1
                end)).
Proof.
  intros r chunks_of. unfold r.
  destruct existsSync_docs.
  2: { exists [], []. split; [constructor | left; now split]. }
  destruct readdirSync_docs as [entries | message].
  2: { exists [], []. split; [constructor | left; now split]. }
  destruct (List.filter ExtendedIndexer.accepted entries) as [ | f0 files0] eqn:Efiles.
  { exists [], []. split; [constructor | left].
    unfold ExtendedIndexer.main. cbn [negb]. rewrite Efiles. now split. }
  rewrite extended_main_unfold by (rewrite Efiles; discriminate). rewrite Efiles.
  destruct (extended_file_loop_trace (f0 :: files0) (mk_state [] []))
    as (new & Ht & He & Hok).
  cbn [trace app] in Ht.
  destruct (ExtendedIndexer.file_loop readFileSync pdf_text extractRawText_value
              embeddings_create (f0 :: files0) (mk_state [] []))
    as [[u | message] s1]; cbn [fst snd] in *.
  - exists (f0 :: files0), new. split; [exact He | right].
    exists (vectors s1). rewrite Ht.
    split; [reflexivity | split; [ | reflexivity]]. apply Hok. now exists u.
  - exists (f0 :: files0), new. split; [exact He | left].
    rewrite Ht. now split.
Qed.

End Readers.

Section GoodProvider.

Variable readFileSync : string -> Json.outcome string.
Variable pdf_text : string -> Json.outcome (option string).
Variable extractRawText_value : string -> Json.outcome (option string).
Variable embed : string -> list float.

Let embeddings_create (texts : list string) : Server.provider_result (list (list float)) :=
  Server.Resolved (map embed texts).
Let chunks (f : string) : list string :=
  ExtendedIndexer.splitToChunks
    (ExtendedIndexer.extracted readFileSync pdf_text extractRawText_value f).

Lemma extended_file_loop_world (files : list string) (s : state) :
  ExtendedIndexer.file_loop readFileSync pdf_text extractRawText_value embeddings_create
    files s =
  (Json.Normal tt,
   mk_state
     (vectors s ++ flat_map (fun f => records_of embed f 0 (chunks f)) files)
     (trace s ++ flat_map (fun f => calls_of Indexer.BATCH f (chunks f)) files)).
Proof.
  revert s. induction files as [ | f files IH]; intros s;
    cbn [ExtendedIndexer.file_loop flat_map].
  - unfold ret. rewrite !app_nil_r. now destruct s.
  - unfold bind. rewrite index_file_unfold. cbv zeta. fold (chunks f).
    unfold embeddings_create. rewrite batch_loop_world by lia.
    rewrite IH. cbn [vectors trace skipn]. unfold calls_of, slices.
    now rewrite <- !app_assoc.
Qed.

End GoodProvider.

(** X11.  When [docs/] exists and holds an accepted entry, the provider returns
    one embedding per text and the file can be written, a run of the
    extended indexer succeeds whatever the readers do: it reads each
    accepted entry, requests the embeddings of the chunks of its extracted
    text in batches of 16 (none for an entry without chunks), and writes
    one record per chunk, numbered from 0 within the entry. *)
Theorem extended_run_writes_one_record_per_chunk
  (readFileSync : string -> Json.outcome string)
  (pdf_text extractRawText_value : string -> Json.outcome (option string))
  (embed : string -> list float) (entries : list string) :
  let files := List.filter ExtendedIndexer.accepted entries in
  let chunks f :=
    ExtendedIndexer.splitToChunks
      (ExtendedIndexer.extracted readFileSync pdf_text extractRawText_value f) in
  files <> [] ->
  ExtendedIndexer.main true (Json.Normal entries) readFileSync pdf_text extractRawText_value
    (fun texts => Server.Resolved (map embed texts)) (fun _ => Json.Normal tt) =
  ((flat_map (fun f => calls_of Indexer.BATCH f (chunks f)) files ++
    [WriteFile (flat_map (fun f => records_of embed f 0 (chunks f)) files)])%list,
   Completed).
Proof.
  intros files chunks Hne. rewrite extended_main_unfold by exact Hne. fold files.
  rewrite extended_file_loop_world. reflexivity.
Qed.

(** X12.  The extended indexer skips an entry whose extracted text has fewer
    than 30 words (an entry that could not be read, an empty or blank
    one, a short one): the entry is read, nothing is requested from the
    provider for it, no record is pushed, and the run goes on. *)
Theorem entry_with_few_words_is_skipped
  (readFileSync : string -> Json.outcome string)
  (pdf_text extractRawText_value : string -> Json.outcome (option string))
  (embeddings_create : list string -> Server.provider_result (list (list float)))
  (f : string) (s : state) :
  (List.length (words (ExtendedIndexer.extracted readFileSync pdf_text extractRawText_value f))
   < 30)%nat ->
  ExtendedIndexer.index_file readFileSync pdf_text extractRawText_value embeddings_create f s =
  (Json.Normal tt, mk_state (vectors s) (trace s ++ [ReadFile f])).
Proof.
  intros Hshort. rewrite index_file_unfold. cbv zeta.
  now rewrite (extended_short_text _ Hshort).
Qed.

(** X13.  Whatever the outside world does, a request of the extended indexer
    to the provider carries at least one and at most 16 texts, each of at
    least 30 and at most 400 words. *)
Theorem extended_requests_are_bounded (existsSync_docs : bool)
  (readdirSync_docs : Json.outcome (list string))
  (readFileSync : string -> Json.outcome string)
  (pdf_text extractRawText_value : string -> Json.outcome (option string))
  (embeddings_create : list string -> Server.provider_result (list (list float)))
  (writeFileSync : list entry -> Json.outcome unit) (texts : list string) :
  In (EmbeddingsCreate texts)
     (fst (ExtendedIndexer.main existsSync_docs readdirSync_docs readFileSync pdf_text
             extractRawText_value embeddings_create writeFileSync)) ->
  (1 <= List.length texts <= 16)%nat /\
  Forall (fun c => (30 <= List.length (words c) <= 400)%nat) texts.
Proof.
  intros Hin.
  destruct (extended_main_trace readFileSync pdf_text extractRawText_value embeddings_create
              writeFileSync existsSync_docs readdirSync_docs) as (files & new & He & Hr).
  cbv zeta in He, Hr.
  assert (Hnew : In (EmbeddingsCreate texts) new).
  { destruct Hr as [[E _] | (vs & E & _)]; rewrite E in Hin; [exact Hin | ].
    apply in_app_or in Hin as [H | [H | []]]; [exact H | discriminate]. }
  pose proof (proj1 (List.Forall_forall _ _) He _ Hnew) as (f & _ & Hb).
  apply (batch_of_size _ _ _ batch_pos) in Hb as [Hlen Hincl].
  split; [exact Hlen | ].
  apply List.Forall_forall. intros c Hc. apply Hincl in Hc.
  now apply extended_chunk_size in Hc.
Qed.

(** X11, an instance. *)
Lemma extended_run_writes_one_record_per_chunk_witness :
  let readFileSync := fun _ : string => Json.Normal (join " " (List.repeat "word" 40)) in
  let pdf_text := fun _ : string => @Json.Throw (option string) "unreadable" in
  let extractRawText_value := fun _ : string => @Json.Throw (option string) "unreadable" in
  let embed := fun _ : string => [1%float] in
  let entries := ["a.md"; "b.pdf"] in
  let files := List.filter ExtendedIndexer.accepted entries in
  let chunks f :=
    ExtendedIndexer.splitToChunks
      (ExtendedIndexer.extracted readFileSync pdf_text extractRawText_value f) in
  files <> [] /\
  ExtendedIndexer.main true (Json.Normal entries) readFileSync pdf_text extractRawText_value
    (fun texts => Server.Resolved (map embed texts)) (fun _ => Json.Normal tt) =
  ((flat_map (fun f => calls_of Indexer.BATCH f (chunks f)) files ++
    [WriteFile (flat_map (fun f => records_of embed f 0 (chunks f)) files)])%list,
   Completed).
Proof.
  intros readFileSync pdf_text extractRawText_value embed entries files chunks.
  assert (H : files <> []) by (vm_compute; discriminate).
  split; [exact H | ].
  exact (extended_run_writes_one_record_per_chunk readFileSync pdf_text extractRawText_value
           embed entries H).
Defined.

(** X12, an instance. *)
Lemma entry_with_few_words_is_skipped_witness :
  let readFileSync := fun _ : string => Json.Normal "too short to index" in
  let pdf_text := fun _ : string => @Json.Throw (option string) "unreadable" in
  let extractRawText_value := fun _ : string => @Json.Throw (option string) "unreadable" in
  let embeddings_create :=
    fun _ : list string => @Server.Rejected (list (list float)) "not called" in
  (List.length
     (words (ExtendedIndexer.extracted readFileSync pdf_text extractRawText_value "a.txt"))
   < 30)%nat /\
  ExtendedIndexer.index_file readFileSync pdf_text extractRawText_value embeddings_create
    "a.txt" (mk_state [] []) =
  (Json.Normal tt, mk_state [] [ReadFile "a.txt"]).
Proof.
  intros readFileSync pdf_text extractRawText_value embeddings_create.
  assert (H : (List.length
                 (words (ExtendedIndexer.extracted readFileSync pdf_text
                           extractRawText_value "a.txt")) < 30)%nat).
  { vm_compute. lia. }
  split; [exact H | ].
  exact (entry_with_few_words_is_skipped readFileSync pdf_text extractRawText_value
           embeddings_create "a.txt" (mk_state [] []) H).
Defined.

(** X13, an instance. *)
Lemma extended_requests_are_bounded_witness :
  let text := join " " (List.repeat "word" 40) in
  let readFileSync := fun _ : string => Json.Normal text in
  let pdf_text := fun _ : string => @Json.Throw (option string) "unreadable" in
  let extractRawText_value := fun _ : string => @Json.Throw (option string) "unreadable" in
  let embeddings_create :=
    fun _ : list string => @Server.Rejected (list (list float)) "busy" in
  let writeFileSync := fun _ : list entry => Json.Normal tt in
  In (EmbeddingsCreate [text])
     (fst (ExtendedIndexer.main true (Json.Normal ["a.md"]) readFileSync pdf_text
             extractRawText_value embeddings_create writeFileSync)) /\
  (1 <= List.length [text] <= 16)%nat /\
  Forall (fun c => (30 <= List.length (words c) <= 400)%nat) [text].
Proof.
  intros text readFileSync pdf_text extractRawText_value embeddings_create writeFileSync.
  assert (H : In (EmbeddingsCreate [text])
                (fst (ExtendedIndexer.main true (Json.Normal ["a.md"]) readFileSync pdf_text
                        extractRawText_value embeddings_create writeFileSync))).
  { vm_compute. right. left. reflexivity. }
  split; [exact H | ].
  exact (extended_requests_are_bounded true (Json.Normal ["a.md"]) readFileSync pdf_text
           extractRawText_value embeddings_create writeFileSync [text] H).
Defined.

Lemma filter_nothing {A : Type} (p : A -> bool) (l : list A) :
  Forall (fun x => p x = false) l -> List.filter p l = [].
Proof.
  induction 1 as [ | x l Hx _ IH]; [reflexivity | ]. cbn. now rewrite Hx.
Qed.

(** X14.  A [docs/] folder without any entry that the extended indexer
    accepts: the simple indexer writes an empty collection and ends
    normally when the write succeeds; the extended indexer exits with code
    1 and writes nothing.  Neither reads an entry or calls the provider. *)
Theorem run_without_accepted_entries
  (readFileSync : string -> Json.outcome string)
  (pdf_text extractRawText_value : string -> Json.outcome (option string))
  (embeddings_create : list string -> Server.provider_result (list (list float)))
  (writeFileSync : list entry -> Json.outcome unit) (entries : list string) :
  Forall (fun f => ExtendedIndexer.accepted f = false) entries ->
  Indexer.main true (Json.Normal entries) readFileSync embeddings_create writeFileSync =
    ([WriteFile []],
     match writeFileSync [] with
     | Json.Normal _ => Completed
     | Json.Throw _ => Exited 1
     end) /\
  ExtendedIndexer.main true (Json.Normal entries) readFileSync pdf_text extractRawText_value
    embeddings_create writeFileSync = ([], Exited 1).
Proof.
  intros H. split.
  - rewrite main_unfold. rewrite filter_nothing; [reflexivity | ].
    eapply List.Forall_impl; [ | exact H].
    intros f Hf. unfold ExtendedIndexer.accepted in Hf. unfold Indexer.accepted.
    destruct (ends_with_ci ".txt" f), (ends_with_ci ".md" f); try discriminate. reflexivity.
  - unfold ExtendedIndexer.main. cbn [negb]. now rewrite (filter_nothing _ _ H).
Qed.

(** X14, an instance. *)
Lemma run_without_accepted_entries_witness :
  let readFileSync := fun _ : string => Json.Normal "text" in
  let pdf_text := fun _ : string => @Json.Throw (option string) "unreadable" in
  let extractRawText_value := fun _ : string => @Json.Throw (option string) "unreadable" in
  let embeddings_create :=
    fun _ : list string => @Server.Rejected (list (list float)) "not called" in
  let writeFileSync := fun _ : list entry => Json.Normal tt in
  let entries := ["notes.rtf"; "image.png"] in
  Forall (fun f => ExtendedIndexer.accepted f = false) entries /\
  Indexer.main true (Json.Normal entries) readFileSync embeddings_create writeFileSync =
    ([WriteFile []], Completed) /\
  ExtendedIndexer.main true (Json.Normal entries) readFileSync pdf_text extractRawText_value
    embeddings_create writeFileSync = ([], Exited 1).
Proof.
  intros readFileSync pdf_text extractRawText_value embeddings_create writeFileSync entries.
  assert (H : Forall (fun f => ExtendedIndexer.accepted f = false) entries).
  { repeat constructor. }
  split; [exact H | ].
  exact (run_without_accepted_entries readFileSync pdf_text extractRawText_value
           embeddings_create writeFileSync entries H).
Defined.

(** A run of the extended indexer over a text of 40 words, a Word
    document that cannot be parsed and an entry that is not accepted. *)
Example extended_run :
  let text := IndexerFixtures.text_of_words 40 in
  ExtendedIndexer.main true (Json.Normal ["a.md"; "b.docx"; "c.bin"])
    (fun _ => Json.Normal text)
    (fun _ => Json.Throw "not a PDF")
    (fun _ => Json.Throw "not a Word document")
    (fun texts => Server.Resolved (map (fun _ => [1%float]) texts))
    (fun _ => Json.Normal tt) =
  ([ReadFile "a.md"; EmbeddingsCreate [text]; ReadFile "b.docx";
    WriteFile [mk_entry "a.md#0" "a.md" 0 (Some text) [1%float]]],
   Completed).
Proof. vm_compute. reflexivity. Qed.

End ExtendedIndexerFacts.

(** ** scripts/index.js, extended: the text of an entry *)

Module ExtractFacts.

Import JsText Script TextFacts.
Local Open Scope string_scope.

Lemma span_to_dot_app (e rest : list ascii) :
  ~ In "."%char e ->
  ExtendedIndexer.span_to_dot (e ++ "."%char :: rest) = (e, "."%char :: rest).
Proof.
  induction e as [ | c e IH]; intros Hno.
  - reflexivity.
  - cbn [app ExtendedIndexer.span_to_dot].
    destruct (Ascii.eqb_spec c ".") as [-> | _]; [exfalso; apply Hno; now left | ].
    rewrite IH; [reflexivity | ]. intros H. apply Hno. now right.
Qed.

Lemma span_to_dot_none (e : list ascii) :
  ~ In "."%char e -> ExtendedIndexer.span_to_dot e = (e, []).
Proof.
  induction e as [ | c e IH]; intros Hno; [reflexivity | ].
  cbn [ExtendedIndexer.span_to_dot].
  destruct (Ascii.eqb_spec c ".") as [-> | _]; [exfalso; apply Hno; now left | ].
  rewrite IH; [reflexivity | ]. intros H. apply Hno. now right.
Qed.

Lemma rev_name (pre e : string) :
  rev (list_ascii_of_string (pre ++ String "." e)) =
  (rev (list_ascii_of_string e) ++ "."%char :: rev (list_ascii_of_string pre))%list.
Proof.
  rewrite list_ascii_of_string_app. cbn [list_ascii_of_string].
  rewrite rev_app_distr. cbn [rev]. now rewrite <- app_assoc.
Qed.

Lemma length_append (a b : string) :
  String.length (a ++ b) = (String.length a + String.length b)%nat.
Proof.
  induction a as [ | c a IH]; [reflexivity | ].
  rewrite append_String. cbn. now rewrite IH.
Qed.

Lemma not_in_rev (c : ascii) (l : list ascii) : ~ In c l -> ~ In c (rev l).
Proof. intros H Hin. apply H. now apply in_rev. Qed.

(** The extension of [pre.e] is [.e] when [e] holds no dot and [pre] is
    not empty. *)
Lemma extname_suffix (pre e : string) :
  pre <> "" -> e <> "" -> ~ In "."%char (list_ascii_of_string e) ->
  ExtendedIndexer.extname (pre ++ String "." e) = String "." e.
Proof.
  intros Hpre He Hno. unfold ExtendedIndexer.extname.
  rewrite rev_name, span_to_dot_app by now apply not_in_rev.
  destruct (rev (list_ascii_of_string pre)) as [ | c r] eqn:Er.
  - exfalso. apply Hpre. apply (f_equal (@rev ascii)) in Er.
    rewrite rev_involutive in Er. cbn in Er.
    rewrite <- (string_of_list_ascii_of_string pre), Er. reflexivity.
  - destruct (String.eqb_spec (pre ++ String "." e) "..") as [E | _].
    + exfalso. apply (f_equal String.length) in E. rewrite length_append in E.
      destruct pre as [ | a pre]; [congruence | ].
      destruct e as [ | b e]; [congruence | ]. cbn in E. lia.
    + rewrite rev_involutive. cbn [string_of_list_ascii].
      now rewrite string_of_list_ascii_of_string.
Qed.

Lemma extname_leading_dot (rest : string) :
  ~ In "."%char (list_ascii_of_string rest) ->
  ExtendedIndexer.extname (String "." rest) = "".
Proof.
  intros Hno. unfold ExtendedIndexer.extname.
  change (String "." rest) with ("" ++ String "." rest).
  rewrite rev_name, span_to_dot_app by now apply not_in_rev.
  reflexivity.
Qed.

Lemma extname_no_dot (f : string) :
  ~ In "."%char (list_ascii_of_string f) -> ExtendedIndexer.extname f = "".
Proof.
  intros Hno. unfold ExtendedIndexer.extname.
  rewrite span_to_dot_none by now apply not_in_rev. reflexivity.
Qed.

Lemma extname_trailing_dot (pre : string) :
  ExtendedIndexer.extname (pre ++ String "." "") = "." \/
  ExtendedIndexer.extname (pre ++ String "." "") = "".
Proof.
  unfold ExtendedIndexer.extname. rewrite rev_name. cbn [list_ascii_of_string rev app].
  cbn [ExtendedIndexer.span_to_dot]. change (Ascii.eqb "." ".") with true. cbv iota.
  destruct (rev (list_ascii_of_string pre)) as [ | c r]; [now right | ].
  destruct (pre ++ String "." "" =? ".."); [now right | now left].
Qed.

Lemma toLowerCase_unit_dot (c : ascii) :
  JsString.toLowerCase_unit c = "."%char -> c = "."%char.
Proof.
  destruct c as [[] [] [] [] [] [] [] []]; vm_compute; intros H;
    first [reflexivity | discriminate H].
Qed.

Lemma starts_with_ci_split (p s : list ascii) :
  Ranker.starts_with_ci p s = true ->
  exists s1 s2, s = (s1 ++ s2)%list /\ map JsString.toLowerCase_unit s1 = p.
Proof.
  unfold Ranker.starts_with_ci. revert s. induction p as [ | a p IH]; intros s.
  - intros _. now exists [], s.
  - destruct s as [ | b s]; [discriminate | ].
    cbn [List.length combine forallb]. intros [Hlen [Hab Hall]%andb_prop]%andb_prop.
    apply Ascii.eqb_eq in Hab.
    destruct (IH s) as (s1 & s2 & -> & <-).
    { apply andb_true_intro. split; [ | exact Hall].
      apply Nat.leb_le. apply Nat.leb_le in Hlen. cbn in Hlen. lia. }
    exists (b :: s1), s2. split; [reflexivity | ]. cbn. now rewrite Hab.
Qed.

(** A name that ends with [.x], letter case aside, is some [pre.e] where
    [e] is [x] up to letter case. *)
Lemma ends_with_ci_split (x f : string) :
  ~ In "."%char (list_ascii_of_string x) ->
  ends_with_ci (String "." x) f = true ->
  exists pre e,
    f = pre ++ String "." e /\ JsString.toLowerCase e = x /\
    ~ In "."%char (list_ascii_of_string e) /\
    String.length f = (String.length pre + 1 + String.length x)%nat.
Proof.
  intros Hx H. unfold ends_with_ci in H. cbn [list_ascii_of_string rev] in H.
  apply starts_with_ci_split in H as (s1 & s2 & Hs & Hmap).
  apply map_eq_app in Hmap as (t & c1 & -> & Ht & Hc).
  destruct c1 as [ | c [ | ? ?]]; try discriminate. injection Hc as Hc.
  apply toLowerCase_unit_dot in Hc as ->.
  assert (Ef : list_ascii_of_string f = (rev s2 ++ "."%char :: rev t)%list).
  { rewrite <- (rev_involutive (list_ascii_of_string f)), Hs.
    rewrite !rev_app_distr. cbn [rev app]. reflexivity. }
  assert (Elow : map JsString.toLowerCase_unit (rev t) = list_ascii_of_string x).
  { now rewrite map_rev, Ht, rev_involutive. }
  exists (string_of_list_ascii (rev s2)), (string_of_list_ascii (rev t)).
  split; [ | split; [ | split]].
  - rewrite <- (string_of_list_ascii_of_string f), Ef, string_of_list_ascii_app. reflexivity.
  - unfold JsString.toLowerCase, JsString.toLowerCase_list.
    rewrite list_ascii_of_string_of_list_ascii, Elow. apply string_of_list_ascii_of_string.
  - rewrite list_ascii_of_string_of_list_ascii. intros Hin. apply Hx.
    rewrite <- Elow. change "."%char with (JsString.toLowerCase_unit "."). now apply in_map.
  - rewrite <- (string_of_list_ascii_of_string f), Ef, string_of_list_ascii_app, length_append.
    cbn [string_of_list_ascii String.length].
    rewrite <- (string_of_list_ascii_of_string x), <- Elow at 1.
    clear. induction (rev t) as [ | a l IH]; cbn; lia.
Qed.

Lemma toLowerCase_String (c : ascii) (s : string) :
  JsString.toLowerCase (String c s) =
  String (JsString.toLowerCase_unit c) (JsString.toLowerCase s).
Proof. reflexivity. Qed.

Section Readers.

Variable readFileSync : string -> Json.outcome string.
Variable pdf_text : string -> Json.outcome (option string).
Variable extractRawText_value : string -> Json.outcome (option string).

Let extracted := ExtendedIndexer.extracted readFileSync pdf_text extractRawText_value.

Lemma extracted_plain (f : string) :
  (ExtendedIndexer.extname f = "" \/ ExtendedIndexer.extname f = ".") ->
  extracted f = match readFileSync f with
                | Json.Normal t => t
                | Json.Throw _ => ""
                end.
Proof.
  unfold extracted, ExtendedIndexer.extracted. intros [-> | ->]; reflexivity.
Qed.

Lemma extracted_suffix (pre e : string) :
  pre <> "" -> ~ In "."%char (list_ascii_of_string e) ->
  let f := pre ++ String "." e in
  extracted f =
  if JsString.toLowerCase e =? "pdf"
  then match pdf_text f with
       | Json.Normal t => ExtendedIndexer.or_empty t
       | Json.Throw _ => ""
       end
  else if (JsString.toLowerCase e =? "doc") || (JsString.toLowerCase e =? "docx")
  then match extractRawText_value f with
       | Json.Normal t => ExtendedIndexer.or_empty t
       | Json.Throw _ => ""
       end
  else match readFileSync f with
       | Json.Normal t => t
       | Json.Throw _ => ""
       end.
Proof.
  intros Hpre Hno f.
  destruct e as [ | c e].
  - unfold f. rewrite extracted_plain; [reflexivity | ].
    destruct (extname_trailing_dot pre) as [H | H]; [now right | now left].
  - unfold f, extracted, ExtendedIndexer.extracted.
    rewrite extname_suffix by (assumption || discriminate).
    rewrite (toLowerCase_String "."). reflexivity.
Qed.

Lemma extracted_of_kind (x f : string) :
  ~ In "."%char (list_ascii_of_string x) ->
  ends_with_ci (String "." x) f = true ->
  (S (String.length x) < String.length f)%nat ->
  extracted f =
  if x =? "pdf"
  then match pdf_text f with
       | Json.Normal t => ExtendedIndexer.or_empty t
       | Json.Throw _ => ""
       end
  else if (x =? "doc") || (x =? "docx")
  then match extractRawText_value f with
       | Json.Normal t => ExtendedIndexer.or_empty t
       | Json.Throw _ => ""
       end
  else match readFileSync f with
       | Json.Normal t => t
       | Json.Throw _ => ""
       end.
Proof.
  intros Hx Hends Hlen.
  destruct (ends_with_ci_split x f Hx Hends) as (pre & e & -> & <- & Hno & El).
  apply extracted_suffix; [ | exact Hno].
  intros ->. rewrite El in Hlen. cbn in Hlen. lia.
Qed.

Lemma extracted_of_bare_extension (x f : string) :
  ~ In "."%char (list_ascii_of_string x) ->
  ends_with_ci (String "." x) f = true ->
  String.length f = S (String.length x) ->
  extracted f = match readFileSync f with
                | Json.Normal t => t
                | Json.Throw _ => ""
                end.
Proof.
  intros Hx Hends Hlen.
  destruct (ends_with_ci_split x f Hx Hends) as (pre & e & -> & <- & Hno & El).
  assert (pre = "") as ->.
  { rewrite El in Hlen. destruct pre; [reflexivity | cbn in Hlen; lia]. }
  rewrite append_empty_l. apply extracted_plain. left. now apply extname_leading_dot.
Qed.

End Readers.

Ltac no_dot := cbn; intuition discriminate.

(** X15.  An entry is extracted by its kind: one that ends with [.pdf]
    through the PDF parser, one that ends with [.doc] or [.docx] through
    the Word parser, one that ends with [.txt] or [.md] as UTF-8 text,
    letter case aside; a missing text and a failure of the reading or the
    parsing give the empty text.  An entry whose whole name is [.pdf],
    [.doc] or [.docx] is read as UTF-8 text instead. *)
Theorem accepted_entry_is_extracted_by_kind
  (readFileSync : string -> Json.outcome string)
  (pdf_text extractRawText_value : string -> Json.outcome (option string)) (f : string) :
  let text := ExtendedIndexer.extracted readFileSync pdf_text extractRawText_value f in
  let as_pdf :=
    match pdf_text f with
    | Json.Normal t => ExtendedIndexer.or_empty t
    | Json.Throw _ => ""
    end in
  let as_word :=
    match extractRawText_value f with
    | Json.Normal t => ExtendedIndexer.or_empty t
    | Json.Throw _ => ""
    end in
  let as_text :=
    match readFileSync f with
    | Json.Normal t => t
    | Json.Throw _ => ""
    end in
  (ends_with_ci ".pdf" f = true -> (4 < String.length f)%nat -> text = as_pdf) /\
  (ends_with_ci ".doc" f = true -> (4 < String.length f)%nat -> text = as_word) /\
  (ends_with_ci ".docx" f = true -> (5 < String.length f)%nat -> text = as_word) /\
  (ends_with_ci ".txt" f = true \/ ends_with_ci ".md" f = true -> text = as_text) /\
  (forall x, In x ["pdf"; "doc"; "docx"] -> ends_with_ci (String "." x) f = true ->
     String.length f = S (String.length x) -> text = as_text).
Proof.
  intros text as_pdf as_word as_text. unfold text.
  split; [ | split; [ | split; [ | split]]].
  - intros H Hlen. now rewrite (extracted_of_kind _ _ _ "pdf" f ltac:(no_dot) H Hlen).
  - intros H Hlen. now rewrite (extracted_of_kind _ _ _ "doc" f ltac:(no_dot) H Hlen).
  - intros H Hlen. now rewrite (extracted_of_kind _ _ _ "docx" f ltac:(no_dot) H Hlen).
  - intros [H | H].
    + destruct (Nat.lt_ge_cases 4 (String.length f)) as [Hlen | Hlen].
      * now rewrite (extracted_of_kind _ _ _ "txt" f ltac:(no_dot) H Hlen).
      * apply (extracted_of_bare_extension _ _ _ "txt" f ltac:(no_dot) H).
        destruct (ends_with_ci_split "txt" f ltac:(no_dot) H) as (pre & e & _ & _ & _ & El).
        cbn in El |- *. lia.
    + destruct (Nat.lt_ge_cases 3 (String.length f)) as [Hlen | Hlen].
      * now rewrite (extracted_of_kind _ _ _ "md" f ltac:(no_dot) H Hlen).
      * apply (extracted_of_bare_extension _ _ _ "md" f ltac:(no_dot) H).
        destruct (ends_with_ci_split "md" f ltac:(no_dot) H) as (pre & e & _ & _ & _ & El).
        cbn in El |- *. lia.
  - intros x [<- | [<- | [<- | []]]] H Hlen.
    + now apply (extracted_of_bare_extension _ _ _ "pdf" f ltac:(no_dot) H).
    + now apply (extracted_of_bare_extension _ _ _ "doc" f ltac:(no_dot) H).
    + now apply (extracted_of_bare_extension _ _ _ "docx" f ltac:(no_dot) H).
Qed.

End ExtractFacts.

(** ** The handler and the indexer: which documents a question can name *)

Module MentionFacts.

Import Candidate Ranker.
Local Open Scope string_scope.

Lemma extension_at_last (s ext : list ascii) :
  extension_at s = Some ext ->
  exists c front,
    rev ext = c :: front /\
    (JsString.toLowerCase_unit c = "t"%char \/ JsString.toLowerCase_unit c = "d"%char \/
     JsString.toLowerCase_unit c = "f"%char).
Proof.
  unfold extension_at.
  destruct (starts_with_ci (list_ascii_of_string "txt") s) eqn:E1.
  { intros [= <-]. apply ExtractFacts.starts_with_ci_split in E1 as (s1 & s2 & -> & Hm).
    destruct s1 as [ | c1 [ | c2 [ | c3 [ | ? ?]]]]; try discriminate.
    injection Hm as _ _ Hc. exists c3, [c2; c1]. split; [reflexivity | now left]. }
  destruct (starts_with_ci (list_ascii_of_string "md") s) eqn:E2.
  { intros [= <-]. apply ExtractFacts.starts_with_ci_split in E2 as (s1 & s2 & -> & Hm).
    destruct s1 as [ | c1 [ | c2 [ | ? ?]]]; try discriminate.
    injection Hm as _ Hc. exists c2, [c1]. split; [reflexivity | right; now left]. }
  destruct (starts_with_ci (list_ascii_of_string "pdf") s) eqn:E3; [ | discriminate].
  intros [= <-]. apply ExtractFacts.starts_with_ci_split in E3 as (s1 & s2 & -> & Hm).
  destruct s1 as [ | c1 [ | c2 [ | c3 [ | ? ?]]]]; try discriminate.
  injection Hm as _ _ Hc. exists c3, [c2; c1]. split; [reflexivity | right; now right].
Qed.

Lemma match_at_last (s m : list ascii) :
  match_at s = Some m ->
  exists c front,
    rev m = c :: front /\
    (JsString.toLowerCase_unit c = "t"%char \/ JsString.toLowerCase_unit c = "d"%char \/
     JsString.toLowerCase_unit c = "f"%char).
Proof.
  unfold match_at.
  destruct (span_name s) as [[ | a name] [ | d rest]]; try discriminate.
  destruct (Ascii.eqb_spec d ".") as [-> | Hd].
  - destruct (extension_at rest) as [ext | ] eqn:E; [ | discriminate].
    intros [= <-]. destruct (extension_at_last rest ext E) as (c & front & Hr & Hc).
    exists c. eexists. split; [ | exact Hc].
    change (a :: name ++ "."%char :: ext)%list with ((a :: name) ++ "."%char :: ext)%list.
    rewrite rev_app_distr. cbn [rev]. rewrite Hr. reflexivity.
  - destruct d as [[] [] [] [] [] [] [] []]; try discriminate. now contradiction Hd.
Qed.

Lemma fileMentionMatch_last (q m : string) :
  fileMentionMatch q = Some m ->
  exists c front,
    rev (list_ascii_of_string (JsString.toLowerCase m)) = c :: front /\
    (c = "t"%char \/ c = "d"%char \/ c = "f"%char).
Proof.
  unfold fileMentionMatch.
  destruct (first_match (list_ascii_of_string q)) as [l | ] eqn:E; [ | discriminate].
  intros [= <-].
  destruct (RankerFacts.first_match_leftmost _ _ E) as (_ & post & _ & Hm & _).
  destruct (match_at_last post l Hm) as (c & front & Hr & Hc).
  exists (JsString.toLowerCase_unit c), (map JsString.toLowerCase_unit front).
  split; [ | exact Hc].
  unfold JsString.toLowerCase, JsString.toLowerCase_list.
  rewrite !list_ascii_of_string_of_list_ascii, <- map_rev, Hr. reflexivity.
Qed.

Lemma ends_with_last (suffix f : string) (a : ascii) (p : list ascii) :
  rev (list_ascii_of_string suffix) = a :: p ->
  Script.ends_with_ci suffix f = true ->
  exists front, rev (list_ascii_of_string (JsString.toLowerCase f)) = a :: front.
Proof.
  intros Hs H. unfold Script.ends_with_ci in H. rewrite Hs in H.
  apply ExtractFacts.starts_with_ci_split in H as (s1 & s2 & E & Hm).
  destruct s1 as [ | b s1]; [discriminate | ]. injection Hm as Hb _.
  exists (map JsString.toLowerCase_unit (s1 ++ s2)).
  unfold JsString.toLowerCase, JsString.toLowerCase_list.
  rewrite list_ascii_of_string_of_list_ascii, <- map_rev, E. cbn. now rewrite Hb.
Qed.

Lemma word_document_not_mentioned (q : string) (rc : candidate) :
  Script.ends_with_ci ".doc" (doc rc) = true \/ Script.ends_with_ci ".docx" (doc rc) = true ->
  mentioned_by q rc = false.
Proof.
  intros Hdoc. unfold mentioned_by.
  destruct (fileMentionMatch q) as [m | ] eqn:E; [ | reflexivity].
  destruct (fileMentionMatch_last q m E) as (c & front & Hr & Hc).
  unfold mentioned. apply andb_false_iff. right. apply String.eqb_neq. intros Heq.
  rewrite <- Heq in Hr.
  destruct Hdoc as [H | H].
  - destruct (ends_with_last ".doc" (doc rc) "c" _ eq_refl H) as [front' Hr'].
    rewrite Hr' in Hr. injection Hr as <- _.
    destruct Hc as [Hc | [Hc | Hc]]; discriminate Hc.
  - destruct (ends_with_last ".docx" (doc rc) "x" _ eq_refl H) as [front' Hr'].
    rewrite Hr' in Hr. injection Hr as <- _.
    destruct Hc as [Hc | [Hc | Hc]]; discriminate Hc.
Qed.

(** X16.  The extended indexer accepts Word documents, but the handler's
    file-name pattern knows [txt], [md] and [pdf] only: whatever the
    question says, a candidate whose [doc] ends with [.doc] or [.docx]
    is never boosted. *)
Theorem word_documents_are_never_boosted (q : string) (rawContexts : list candidate) :
  Forall (fun rc => Script.ends_with_ci ".doc" (doc rc) = true \/
                    Script.ends_with_ci ".docx" (doc rc) = true) rawContexts ->
  Forall (fun rc => ExtendedIndexer.accepted (doc rc) = true) rawContexts /\
  Forall (fun rc => mentioned_by q rc = false) rawContexts /\
  boost q rawContexts = rawContexts.
Proof.
  intros H.
  assert (Hm : Forall (fun rc => mentioned_by q rc = false) rawContexts).
  { eapply List.Forall_impl; [ | exact H]. intros rc. apply word_document_not_mentioned. }
  split; [ | split; [exact Hm | now apply RankerFacts.boost_unmentioned]].
  eapply List.Forall_impl; [ | exact H].
  intros rc [Hd | Hd]; unfold ExtendedIndexer.accepted; rewrite Hd;
    now rewrite ?orb_true_r.
Qed.

(** X16, an instance. *)
Lemma word_documents_are_never_boosted_witness :
  let rawContexts := [Fixtures.cand 0.5 "report.docx#0" "report.docx" 0] in
  Forall (fun rc => Script.ends_with_ci ".doc" (doc rc) = true \/
                    Script.ends_with_ci ".docx" (doc rc) = true) rawContexts /\
  Forall (fun rc => ExtendedIndexer.accepted (doc rc) = true) rawContexts /\
  Forall (fun rc => mentioned_by "summarize report.docx" rc = false) rawContexts /\
  boost "summarize report.docx" rawContexts = rawContexts.
Proof.
  intros rawContexts.
  assert (H : Forall (fun rc => Script.ends_with_ci ".doc" (doc rc) = true \/
                                Script.ends_with_ci ".docx" (doc rc) = true) rawContexts).
  { constructor; [right; vm_compute; reflexivity | constructor]. }
  split; [exact H | ].
  exact (word_documents_are_never_boosted "summarize report.docx" rawContexts H).
Defined.

End MentionFacts.

(** ** server/vectorStore.js: more on scores and [topK] *)

Module ScoreFacts.

Import Chunk VectorStore JsArray.
Local Open Scope float_scope.

Lemma SF64mul_comm (x y : spec_float) : SF64mul x y = SF64mul y x.
Proof.
  unfold SF64mul, SFmul.
  destruct x as [sx | sx | | sx mx ex], y as [sy | sy | | sy my ey];
    rewrite ?(xorb_comm sx sy), ?(Pos.mul_comm mx my), ?(Z.add_comm ex ey); reflexivity.
Qed.

Lemma mul_comm (x y : float) : x * y = y * x.
Proof.
  apply Prim2SF_inj. rewrite !mul_spec. apply SF64mul_comm.
Qed.

Lemma dot_loop_comm (s : float) (a b : list float) :
  List.length a = List.length b -> dot_loop s a b = dot_loop s b a.
Proof.
  revert s b. induction a as [ | x a IH]; intros s [ | y b] Hlen; try discriminate.
  - reflexivity.
  - cbn. rewrite (mul_comm x y). apply IH. now injection Hlen.
Qed.

Lemma dot_loop_extra (s : float) (a b extra : list float) :
  (List.length a <= List.length b)%nat ->
  dot_loop s a (b ++ extra) = dot_loop s a b.
Proof.
  revert s b. induction a as [ | x a IH]; intros s b Hlen; [reflexivity | ].
  destruct b as [ | y b]; [cbn in Hlen; lia | ].
  cbn. apply IH. cbn in Hlen. lia.
Qed.

(** X17.  The score does not depend on which of two vectors of the same
    length is the query. *)
Theorem cosine_symmetric (a b : list float) :
  List.length a = List.length b ->
  dot a b = dot b a /\ cosine a b = cosine b a.
Proof.
  intros Hlen.
  assert (Hd : dot a b = dot b a) by now apply dot_loop_comm.
  split; [exact Hd | ].
  unfold cosine. now rewrite Hd, (mul_comm (norm a) (norm b)).
Qed.

(** X17, an instance. *)
Lemma cosine_symmetric_witness :
  List.length [1; 2] = List.length [3; 4] /\
  dot [1; 2] [3; 4] = dot [3; 4] [1; 2] /\ cosine [1; 2] [3; 4] = cosine [3; 4] [1; 2].
Proof.
  split; [reflexivity | ].
  exact (cosine_symmetric [1; 2] [3; 4] eq_refl).
Defined.

(** X18.  A query shorter than a stored embedding is scored on its own
    coordinates: the further coordinates of the stored embedding do not
    enter the dot product; they enter the score through the norm only. *)
Theorem shorter_query_ignores_further_coordinates (a b extra : list float) :
  (List.length a <= List.length b)%nat ->
  dot a (b ++ extra) = dot a b /\
  cosine a (b ++ extra) = dot a b / (norm a * norm (b ++ extra)).
Proof.
  intros Hlen.
  assert (Hd : dot a (b ++ extra) = dot a b) by now apply dot_loop_extra.
  split; [exact Hd | ]. unfold cosine. now rewrite Hd.
Qed.

(** X18, an instance. *)
Lemma shorter_query_ignores_further_coordinates_witness :
  (List.length [1; 2] <= List.length [3; 4])%nat /\
  dot [1; 2] ([3; 4] ++ [5]) = dot [1; 2] [3; 4] /\
  cosine [1; 2] ([3; 4] ++ [5]) = dot [1; 2] [3; 4] / (norm [1; 2] * norm ([3; 4] ++ [5])).
Proof.
  assert (H : (List.length [1; 2] <= List.length [3; 4])%nat) by (cbn; lia).
  split; [exact H | ].
  exact (shorter_query_ignores_further_coordinates [1; 2] [3; 4] [5] H).
Defined.

(** X19.  Whatever [k] is, what [topK] returns is part of the collection,
    each record taken at most once and carrying its cosine score: the
    result and some remainder are together a rearrangement of the scored
    collection.  The result has [min(k, n)] records for [k >= 0] (none for
    [k = 0], all for [k >= n]) and [max(n + k, 0)] for a negative [k]. *)
Theorem topK_is_part_of_the_collection (vectors : list chunk) (queryEmb : list float)
  (k : Z) :
  let n := Z.of_nat (List.length vectors) in
  let result := topK vectors queryEmb k in
  (exists rest,
     Permutation (map to_candidate (scored vectors queryEmb)) (result ++ rest) /\
     ((n <= k)%Z -> rest = [])) /\
  Z.of_nat (List.length result) = (if (k <? 0)%Z then Z.max (n + k) 0 else Z.min k n) /\
  (k = 0%Z -> result = []).
Proof.
  intros n result. unfold result, topK, slice_to.
  set (sorted := sort by_score_desc (scored vectors queryEmb)).
  assert (Hlen : Z.of_nat (List.length sorted) = n).
  { unfold sorted, n. rewrite ArrayFacts.sort_length. unfold scored. now rewrite length_map. }
  rewrite Hlen.
  set (m := Z.to_nat (if (k <? 0)%Z then Z.max (n + k) 0 else Z.min k n)).
  split; [ | split].
  - exists (map to_candidate (skipn m sorted)). split.
    + rewrite <- map_app, firstn_skipn. apply Permutation_map.
      apply Permutation_sym, ArrayFacts.sort_Permutation.
    + intros Hk. rewrite skipn_all2; [reflexivity | ].
      unfold m. destruct (Z.ltb_spec k 0); lia.
  - rewrite length_map, length_firstn. unfold m.
    destruct (Z.ltb_spec k 0); lia.
  - intros ->. replace m with 0%nat; [reflexivity | ].
    unfold m. change (0 <? 0)%Z with false. cbv iota. lia.
Qed.

End ScoreFacts.

(** ** The handler: provider calls, statuses, the prompt *)

Module HandlerFacts.

Import Json Server.
Local Open Scope string_scope.

Lemma validate_status (question : value) (r : response) :
  validate question = Some r -> status r = 400%Z.
Proof.
  unfold validate.
  destruct (negb (truthy question) || negb (typeof question =? "string")
            || (JsString.length (JsString.trim (as_string question)) =? 0)%nat).
  - intros [= <-]. reflexivity.
  - destruct (2000 <? JsString.length (as_string question))%nat; [ | discriminate].
    intros [= <-]. reflexivity.
Qed.

Lemma invalid_shape_false (parsed : json) :
  invalid_shape parsed = Normal false ->
  exists answer sources,
    read parsed "answer" = Some (JString answer) /\
    read parsed "sources" = Some (JArray sources).
Proof.
  unfold invalid_shape, read.
  destruct parsed as [ | b | n | s | items | members];
    try (intros H; vm_compute in H; discriminate H).
  cbn [typeof get]. change ("object" =? "object") with true. cbn [negb].
  destruct (member "answer" members) as [[ | | | answer | | ] | ];
    try (intros H; vm_compute in H; discriminate H).
  cbn [typeof]. change ("string" =? "string") with true. cbn [negb].
  destruct (member "sources" members) as [[ | | | | sources | ] | ];
    try (intros H; vm_compute in H; discriminate H).
  intros _. now exists answer, sources.
Qed.

Section Handler.

Variable JSON_parse : string -> parse_result.
Variable Number_toString : float -> string.
Variable embeddings_create : string -> provider_result (list float).
Variable responses_create : string -> string -> provider_result completion.
Variable latency : float.
Variable vectors : list Chunk.chunk.
Variable cfg : config.

Let handle := ask JSON_parse Number_toString embeddings_create responses_create latency
                vectors cfg.

Lemma respond_status (candidates : list Ranked.ranked) (raw : string) :
  let r := respond JSON_parse latency candidates raw in
  (status r = 200%Z \/ status r = 500%Z) /\
  (status r = 200%Z ->
   exists answer sources,
     body r = JObject [("answer", JString answer); ("sources", JArray sources);
                       ("used_contexts", JArray (map used_context_full candidates));
                       ("latency_ms", JNumber latency)]).
Proof.
  intros r. unfold r, respond, respond_parsed.
  destruct (JSON_parse raw) as [parsed | description]; [ | split; [now right | discriminate]].
  destruct (invalid_shape parsed) as [[ | ] | details] eqn:E.
  - split; [now right | discriminate].
  - destruct (invalid_shape_false parsed E) as (answer & sources & -> & ->).
    split; [now left | ]. intros _. now exists answer, sources.
  - split; [now right | discriminate].
Qed.

Lemma ask_cases (question : value) :
  let q := as_string question in
  match validate question with
  | Some r => handle question = ([], r)
  | None =>
      match embeddings_create q with
      | Rejected details => handle question = ([EmbeddingsCreate q], server_error details)
      | Resolved qEmb =>
          let candidates :=
            Ranker.rank q (SCORE_THRESHOLD cfg) (VectorStore.topK vectors qEmb (TOP_K cfg)) in
          let user := userPrompt Number_toString q candidates in
          match responses_create system user with
          | Rejected details =>
              handle question =
              ([EmbeddingsCreate q; ResponsesCreate system user], server_error details)
          | Resolved completion =>
              handle question =
              ([EmbeddingsCreate q; ResponsesCreate system user],
               respond JSON_parse latency candidates (JsString.trim (extract_text completion)))
          end
      end
  end.
Proof.
  unfold handle, ask. cbv zeta.
  destruct (validate question); [reflexivity | ].
  destruct (embeddings_create (as_string question)); [ | reflexivity].
  now destruct (responses_create _ _).
Qed.

End Handler.

(** X20.  Every request gets a response with status 200, 400 or 500.  Status
    400 is given without any provider call.  Status 200 is given only
    after both provider calls, and its body then has exactly the members
    [answer] (a string), [sources] (an array), [used_contexts] (an array)
    and [latency_ms], in that order. *)
Theorem response_statuses (JSON_parse : string -> parse_result)
  (Number_toString : float -> string)
  (embeddings_create : string -> provider_result (list float))
  (responses_create : string -> string -> provider_result completion)
  (latency : float) (vectors : list Chunk.chunk) (cfg : config) (question : value) :
  let calls := fst (ask JSON_parse Number_toString embeddings_create responses_create latency
                      vectors cfg question) in
  let r := snd (ask JSON_parse Number_toString embeddings_create responses_create latency
                  vectors cfg question) in
  (status r = 200%Z \/ status r = 400%Z \/ status r = 500%Z) /\
  (status r = 400%Z -> calls = []) /\
  (status r = 200%Z ->
   (exists user, calls = [EmbeddingsCreate (as_string question); ResponsesCreate system user]) /\
   exists answer sources contexts,
     body r = JObject [("answer", JString answer); ("sources", JArray sources);
                       ("used_contexts", JArray contexts); ("latency_ms", JNumber latency)]).
Proof.
  intros calls r. unfold calls, r.
  pose proof (ask_cases JSON_parse Number_toString embeddings_create responses_create latency
                vectors cfg question) as H.
  cbv zeta in H.
  destruct (validate question) as [r0 | ] eqn:Ev.
  { rewrite H. cbn [fst snd]. rewrite (validate_status question r0 Ev).
    split; [right; now left | ]. split; [reflexivity | discriminate]. }
  destruct (embeddings_create (as_string question)) as [qEmb | details].
  2: { rewrite H. cbn. split; [right; now right | ]. split; discriminate. }
  destruct (responses_create _ _) as [completion | details].
  2: { rewrite H. cbn. split; [right; now right | ]. split; discriminate. }
  rewrite H. cbn [fst snd].
  match goal with |- context [respond _ _ ?c ?raw] =>
    destruct (respond_status JSON_parse latency c raw) as [Hs Hb] end.
  cbv zeta in Hs, Hb.
  split; [destruct Hs as [Hs | Hs]; [now left | right; now right] | ].
  split.
  - intros H400. destruct Hs as [Hs | Hs]; rewrite Hs in H400; discriminate.
  - intros H200. split; [now eexists | ].
    destruct (Hb H200) as (answer & sources & Hbody).
    exists answer, sources. eexists. exact Hbody.
Qed.

(** X21.  When the question is accepted and a provider call is rejected, the
    response is the unexpected-failure one, status 500 with [error] set to
    ['server_error'] and [details] to the text of the rejection, and
    nothing else; when it is the embedding call that is rejected, the
    generation call is not made. *)
Theorem provider_failure_is_server_error (JSON_parse : string -> parse_result)
  (Number_toString : float -> string)
  (embeddings_create : string -> provider_result (list float))
  (responses_create : string -> string -> provider_result completion)
  (latency : float) (vectors : list Chunk.chunk) (cfg : config) (question : value) :
  validate question = None ->
  let q := as_string question in
  let run := ask JSON_parse Number_toString embeddings_create responses_create latency
               vectors cfg question in
  let failure details :=
    mk_response 500 (JObject [("error", JString "server_error");
                              ("details", JString details)]) in
  (forall details, embeddings_create q = Rejected details ->
     run = ([EmbeddingsCreate q], failure details)) /\
  (forall qEmb details, embeddings_create q = Resolved qEmb ->
     let user :=
       userPrompt Number_toString q
         (Ranker.rank q (SCORE_THRESHOLD cfg) (VectorStore.topK vectors qEmb (TOP_K cfg))) in
     responses_create system user = Rejected details ->
     run = ([EmbeddingsCreate q; ResponsesCreate system user], failure details)).
Proof.
  intros Hv q run failure. unfold run, q.
  pose proof (ask_cases JSON_parse Number_toString embeddings_create responses_create latency
                vectors cfg question) as H.
  cbv zeta in H. rewrite Hv in H.
  split.
  - intros details E. rewrite E in H. exact H.
  - intros qEmb details E. cbv zeta. intros Hrej. rewrite E in H.
    rewrite Hrej in H. exact H.
Qed.

(** X21, an instance. *)
Lemma provider_failure_is_server_error_witness :
  let question := Some (JString "what is this about") in
  let embeddings_create := fun _ : string => @Rejected (list float) "rate limit" in
  validate question = None /\
  ask JsonText.parse Fixtures.integral_text embeddings_create
    (Fixtures.generate_text "{}") 12 Fixtures.store_two default_config question =
  ([EmbeddingsCreate "what is this about"],
   mk_response 500 (JObject [("error", JString "server_error");
                             ("details", JString "rate limit")])).
Proof.
  intros question embeddings_create.
  assert (Hv : validate question = None) by reflexivity.
  split; [exact Hv | ].
  exact (proj1 (provider_failure_is_server_error JsonText.parse Fixtures.integral_text
                  embeddings_create (Fixtures.generate_text "{}") 12 Fixtures.store_two
                  default_config question Hv) "rate limit" eq_refl).
Defined.

Lemma rank_nil (q : string) (thr : float) : Ranker.rank q thr [] = [].
Proof.
  unfold Ranker.rank, Ranker.boost. now destruct (Ranker.fileMentionMatch q).
Qed.

Lemma topK_nil (queryEmb : list float) (k : Z) : VectorStore.topK [] queryEmb k = [].
Proof. unfold VectorStore.topK, JsArray.slice_to. cbn. now rewrite firstn_nil. Qed.

Lemma respond_no_contexts (JSON_parse : string -> parse_result) (latency : float)
  (raw : string) :
  used_contexts_of (respond JSON_parse latency [] raw) = [].
Proof.
  unfold respond, respond_parsed.
  destruct (JSON_parse raw) as [parsed | description]; [ | reflexivity].
  destruct (invalid_shape parsed) as [[ | ] | details] eqn:E; try reflexivity.
  destruct (invalid_shape_false parsed E) as (answer & sources & -> & ->). reflexivity.
Qed.

(** X22.  An empty collection does not stop the handler: an accepted question
    whose embedding is returned is still sent to the generation provider,
    with an empty context, and whatever comes back, no used context is
    reported. *)
Theorem empty_collection_still_asks_the_model (JSON_parse : string -> parse_result)
  (Number_toString : float -> string)
  (embeddings_create : string -> provider_result (list float))
  (responses_create : string -> string -> provider_result completion)
  (latency : float) (cfg : config) (question : value) (qEmb : list float) :
  validate question = None ->
  embeddings_create (as_string question) = Resolved qEmb ->
  let q := as_string question in
  let run := ask JSON_parse Number_toString embeddings_create responses_create latency
               [] cfg question in
  fst run = [EmbeddingsCreate q; ResponsesCreate system (userPrompt Number_toString q [])] /\
  contextText Number_toString [] = "" /\
  used_contexts_of (snd run) = [].
Proof.
  intros Hv He q run. unfold run, q.
  pose proof (ask_cases JSON_parse Number_toString embeddings_create responses_create latency
                [] cfg question) as H.
  cbv zeta in H. rewrite Hv, He, topK_nil, rank_nil in H.
  destruct (responses_create system _) as [completion | details]; rewrite H; cbn [fst snd].
  - split; [reflexivity | ]. split; [reflexivity | apply respond_no_contexts].
  - repeat split.
Qed.

(** X22, an instance. *)
Lemma empty_collection_still_asks_the_model_witness :
  let question := Some (JString "what is this about") in
  let q := as_string question in
  let run := ask JsonText.parse Fixtures.integral_text Fixtures.embed_ok
               (Fixtures.generate_text "{}") 12 [] default_config question in
  validate question = None /\
  (exists qEmb, Fixtures.embed_ok q = Resolved qEmb) /\
  fst run = [EmbeddingsCreate q;
             ResponsesCreate system (userPrompt Fixtures.integral_text q [])] /\
  contextText Fixtures.integral_text [] = "" /\
  used_contexts_of (snd run) = [].
Proof.
  intros question q run.
  assert (Hv : validate question = None) by reflexivity.
  split; [exact Hv | ].
  destruct (Fixtures.embed_ok q) as [qEmb | details] eqn:He; [ | discriminate He].
  split; [now exists qEmb | ].
  exact (empty_collection_still_asks_the_model JsonText.parse Fixtures.integral_text
           Fixtures.embed_ok (Fixtures.generate_text "{}") 12 default_config question qEmb
           Hv He).
Defined.

Lemma append_assoc (a b c : string) : (a ++ b) ++ c = a ++ b ++ c.
Proof.
  induction a as [ | x a IH]; [reflexivity | ].
  rewrite !TextFacts.append_String. now rewrite IH.
Qed.

Lemma concat_cons2 (sep x y : string) (l : list string) :
  String.concat sep (x :: y :: l) = x ++ sep ++ String.concat sep (y :: l).
Proof. reflexivity. Qed.

Lemma append_empty_r (a : string) : a ++ "" = a.
Proof. induction a as [ | x a IH]; [reflexivity | ]. rewrite TextFacts.append_String. now rewrite IH. Qed.

(** An element of a joined list is a piece of the result. *)
Lemma concat_piece (sep b : string) (l : list string) :
  In b l -> exists pre post, String.concat sep l = pre ++ b ++ post.
Proof.
  induction l as [ | x l IH]; [intros [] | ].
  intros [-> | Hin].
  - destruct l as [ | y l].
    + exists "", "". cbn [String.concat]. now rewrite TextFacts.append_empty_l, append_empty_r.
    + exists "". eexists. rewrite concat_cons2, TextFacts.append_empty_l. reflexivity.
  - destruct l as [ | y l]; [destruct Hin | ].
    destruct (IH Hin) as (pre & post & E).
    exists (x ++ sep ++ pre), post. rewrite concat_cons2, E.
    now rewrite !append_assoc.
Qed.

Lemma context_blocks_nth (Number_toString : float -> string) (start idx : nat)
  (candidates : list Ranked.ranked) (c : Ranked.ranked) :
  nth_error candidates idx = Some c ->
  In (context_block Number_toString (start + idx) c)
     (context_blocks Number_toString start candidates).
Proof.
  revert start idx. induction candidates as [ | x l IH]; intros start [ | idx]; cbn;
    try discriminate.
  - intros [= ->]. left. now rewrite Nat.add_0_r.
  - intros H. right. replace (start + S idx)%nat with (S start + idx)%nat by lia.
    now apply IH.
Qed.

Lemma context_blocks_length (Number_toString : float -> string) (start : nat)
  (candidates : list Ranked.ranked) :
  List.length (context_blocks Number_toString start candidates) = List.length candidates.
Proof.
  revert start. induction candidates as [ | x l IH]; intros start; cbn; [ | rewrite IH];
    reflexivity.
Qed.

Lemma concat_at_fourth (sep x1 x2 x3 x4 y : string) (l : list string) :
  String.concat sep (x1 :: x2 :: x3 :: x4 :: y :: l) =
  x1 ++ (sep ++ x2 ++ sep ++ x3 ++ sep) ++ x4 ++ sep ++ String.concat sep (y :: l).
Proof.
  rewrite (concat_cons2 sep x1), (concat_cons2 sep x2), (concat_cons2 sep x3),
    (concat_cons2 sep x4).
  now rewrite !append_assoc.
Qed.

Lemma userPrompt_parts (Number_toString : float -> string) (q : string)
  (candidates : list Ranked.ranked) :
  exists before after,
    userPrompt Number_toString q candidates =
    "Question: " ++ q ++ before ++ contextText Number_toString candidates ++ after.
Proof.
  unfold userPrompt. rewrite concat_at_fourth.
  match goal with
  | |- exists before after, _ ++ ?b ++ _ ++ ?a = _ => exists b, a
  end.
  now rewrite append_assoc.
Qed.

(** X23.  The user message of the generation call starts with [Question: ]
    and the question as sent, and holds one context block per ranked
    candidate: the block of the candidate at index [idx], which is made of
    [[[idx]] DOC: doc#chunkIndex], the text of the chunk and a line of
    dashes, is a piece of the message. *)
Theorem prompt_holds_question_and_contexts (Number_toString : float -> string)
  (q : string) (candidates : list Ranked.ranked) :
  (exists rest, userPrompt Number_toString q candidates = "Question: " ++ q ++ rest) /\
  List.length (context_blocks Number_toString 0 candidates) = List.length candidates /\
  (forall idx c, nth_error candidates idx = Some c ->
     context_block Number_toString idx c =
       "[[" ++ index_text idx ++ "]] DOC: " ++ Candidate.doc (Ranked.base c) ++ "#" ++
       Number_toString (Candidate.chunkIndex (Ranked.base c)) ++ nl ++
       Candidate.text (Ranked.base c) ++ nl ++ "---" ++ nl /\
     exists pre post,
       userPrompt Number_toString q candidates =
       pre ++ context_block Number_toString idx c ++ post).
Proof.
  destruct (userPrompt_parts Number_toString q candidates) as (before & after & E).
  split; [ | split].
  - rewrite E. now eexists.
  - apply context_blocks_length.
  - intros idx c Hc. split.
    + unfold context_block. cbn [String.concat].
      rewrite !TextFacts.append_empty_l. reflexivity.
    + destruct (concat_piece nl (context_block Number_toString idx c)
                  (context_blocks Number_toString 0 candidates)
                  (context_blocks_nth Number_toString 0 idx candidates c Hc))
        as (pre & post & Ec).
      unfold contextText in E. rewrite Ec in E.
      exists ("Question: " ++ q ++ before ++ pre), (post ++ after).
      rewrite E, !append_assoc. reflexivity.
Qed.

End HandlerFacts.

(** ** From the collection to the used contexts *)

Module PipelineFacts.

Import Candidate Ranker.
Local Open Scope float_scope.

Lemma topK_In (vectors : list Chunk.chunk) (queryEmb : list float) (k : Z)
  (c : candidate) :
  In c (VectorStore.topK vectors queryEmb k) ->
  exists v, In v vectors /\
    c = mk (VectorStore.cosine queryEmb (Chunk.embedding v)) (Chunk.id v) (Chunk.doc v)
           (Chunk.chunkIndex v) (Chunk.text v).
Proof.
  unfold VectorStore.topK. intros H.
  apply in_map_iff in H as ([x v] & <- & H).
  apply ArrayFacts.slice_to_In in H.
  apply (proj1 (ArrayFacts.sort_In VectorStore.by_score_desc _ _)) in H.
  unfold VectorStore.scored in H.
  apply in_map_iff in H as (v' & [= <- <-] & Hv'). now exists v'.
Qed.

Lemma survivors_length (thr : float) (l : list candidate) :
  (List.length (survivors thr l) <= List.length l)%nat.
Proof.
  unfold survivors.
  destruct (List.length (List.filter (passes thr) l) =? 0)%nat.
  - rewrite length_firstn. lia.
  - apply List.filter_length_le.
Qed.

(** X24.  What the ranking pass hands to the prompt and reports as used
    contexts comes from the collection: every ranked candidate carries the
    id, doc, chunkIndex and text of a stored record, and its score is the
    cosine of the query embedding and that record's embedding, with 0.6
    added exactly when the question names the document.  There are no
    more candidates than records in the collection, nor than [k] when
    [k] is not negative. *)
Theorem contexts_come_from_the_collection (vectors : list Chunk.chunk)
  (queryEmb : list float) (k : Z) (q : string) (thr : float) :
  let candidates := rank q thr (VectorStore.topK vectors queryEmb k) in
  Forall (fun r =>
            exists v, In v vectors /\
              id (Ranked.base r) = Chunk.id v /\ doc (Ranked.base r) = Chunk.doc v /\
              chunkIndex (Ranked.base r) = Chunk.chunkIndex v /\
              text (Ranked.base r) = Chunk.text v /\
              score (Ranked.base r) =
                if mentioned_by q (Ranked.base r)
                then VectorStore.cosine queryEmb (Chunk.embedding v) + 0.6
                else VectorStore.cosine queryEmb (Chunk.embedding v)) candidates /\
  (List.length candidates <= List.length vectors)%nat /\
  ((0 <= k)%Z -> (Z.of_nat (List.length candidates) <= k)%Z).
Proof.
  intros candidates. unfold candidates, rank.
  assert (Hlen : (List.length (reRank (survivors thr (boost q (VectorStore.topK vectors queryEmb k))))
                  <= List.length (VectorStore.topK vectors queryEmb k))%nat).
  { rewrite RankerFacts.reRank_length.
    etransitivity; [apply survivors_length | ]. now rewrite RankerFacts.boost_length. }
  split; [ | split].
  - apply List.Forall_forall. intros r Hr.
    apply RankerFacts.reRank_In in Hr as [Hr _].
    apply RankerFacts.survivors_incl in Hr.
    rewrite RankerFacts.boost_as_map in Hr.
    apply in_map_iff in Hr as (rc & Hb & Hrc).
    apply topK_In in Hrc as (v & Hv & Erc).
    exists v. split; [exact Hv | ].
    assert (Hm : mentioned_by q (Ranked.base r) = mentioned_by q rc).
    { rewrite <- Hb. destruct (mentioned_by q rc) eqn:E; exact E. }
    rewrite Hm, <- Hb.
    destruct (mentioned_by q rc); rewrite Erc; repeat split.
  - etransitivity; [exact Hlen | ].
    destruct (Z.le_gt_cases 0 k) as [Hk | Hk].
    + apply (VectorStoreFacts.topK_length vectors queryEmb k Hk).
    + unfold VectorStore.topK. rewrite length_map.
      unfold JsArray.slice_to. rewrite length_firstn, ArrayFacts.sort_length.
      unfold VectorStore.scored. rewrite length_map. lia.
  - intros Hk. pose proof (proj1 (VectorStoreFacts.topK_length vectors queryEmb k Hk)). lia.
Qed.

(** No name that passes a file filter of the indexers is the name of a
    property that an object literal inherits: none of these has a dot. *)
Lemma accepted_not_inherited (f : string) :
  ExtendedIndexer.accepted f = true -> JsObject.inherited f = false.
Proof.
  intros H. destruct (JsObject.inherited f) eqn:E; [exfalso | reflexivity].
  unfold JsObject.inherited in E.
  cbn [existsb JsObject.Object_prototype_names] in E.
  repeat match type of E with
         | (String.eqb f ?name || _)%bool = true =>
             destruct (String.eqb_spec f name) as [-> | _];
             [vm_compute in H; discriminate H | cbn [orb] in E]
         end.
  discriminate E.
Qed.

Lemma simple_accepted_extended (f : string) :
  Indexer.accepted f = true -> ExtendedIndexer.accepted f = true.
Proof.
  unfold Indexer.accepted, ExtendedIndexer.accepted. intros H.
  apply orb_true_iff in H as [H | H]; rewrite H; cbn; now rewrite ?orb_true_r.
Qed.

(** X25.  A candidate whose [doc] passes the file filter of the simple or
    of the extended indexer is counted as a number by the re-rank: its
    [doc] is not the name of an inherited property, and its re-rank score
    is [score + 0.02 * (n - 1)], where [n] counts the candidates that
    have the same [doc]. *)
Theorem indexed_documents_are_counted (candidates : list candidate) (r : Ranked.ranked) :
  Indexer.accepted (doc (Ranked.base r)) = true \/
  ExtendedIndexer.accepted (doc (Ranked.base r)) = true ->
  In r (reRank candidates) ->
  JsObject.inherited (doc (Ranked.base r)) = false /\
  Ranked.reRankScore r =
    score (Ranked.base r) +
    0.02 * (count_number (sharing_doc (doc (Ranked.base r)) candidates) - 1).
Proof.
  intros Ha Hr.
  assert (Hi : JsObject.inherited (doc (Ranked.base r)) = false).
  { apply accepted_not_inherited.
    destruct Ha as [Ha | Ha]; [now apply simple_accepted_extended | exact Ha]. }
  split; [exact Hi | now apply RankerFacts.reRank_formula].
Qed.

(** X25, an instance: two chunks of [Notes.MD]. *)
Lemma indexed_documents_are_counted_witness :
  let candidates := [Fixtures.cand 0.5 "Notes.MD#0" "Notes.MD" 0;
                     Fixtures.cand 0.4 "Notes.MD#1" "Notes.MD" 1] in
  let r := Ranked.mk (Fixtures.cand 0.4 "Notes.MD#1" "Notes.MD" 1) (0.4 + 0.02) in
  JsObject.inherited (doc (Ranked.base r)) = false /\
  Ranked.reRankScore r =
    score (Ranked.base r) +
    0.02 * (count_number (sharing_doc (doc (Ranked.base r)) candidates) - 1).
Proof.
  apply (indexed_documents_are_counted
           [Fixtures.cand 0.5 "Notes.MD#0" "Notes.MD" 0;
            Fixtures.cand 0.4 "Notes.MD#1" "Notes.MD" 1]
           (Ranked.mk (Fixtures.cand 0.4 "Notes.MD#1" "Notes.MD" 1) (0.4 + 0.02))).
  - left. vm_compute. reflexivity.
  - vm_compute. right. left. reflexivity.
Defined.

End PipelineFacts.
